(** * The initramfs init program of the TNG base image (image/raspbian/init.c)

    A shallow embedding of the provisioning code of [init.c] and the
    properties its specification states about it: the EEPROM record reader
    ([read_eeprom]), the shadow password replacement ([replace_password]),
    the idempotent file writer ([update_file]), the retrying root mount
    ([robust_mount]) and the kernel command line parser ([read_cmdline]);
    then the code around them: the clock ([rtc_hctosys]), the kernel
    modules ([modprobe]), the Ethernet controller ([configure_ethernet])
    and the identity files [main] writes.

    Conventions of the embedding
    - [uint8_t] data read from the I2C bus are [Z] values; every store goes
      through the [& 0xFF] of [i2c_read8];
    - [char] data (files, the command line) are [list ascii]; a C string is
      the part of such a list before its first NUL;
    - a pointer into a buffer is the offset ([nat]) it points at;
    - [panic] never returns: it is the terminal outcome [Panics] of the
      system-call monad, and the result [MountPanics] of the mount loop;
    - what the kernel and the libraries answer (I2C transfers, system call
      failures, libmount and kmod return codes, ethtool requests, the
      clocks, [crypt_r]) is an explicit input. *)

From Stdlib Require Import ZArith Lia Ascii String.
From stdpp Require Import gmap strings list.

Local Open Scope Z_scope.

(* ===================================================================== *)
(** * Part I: the program                                                 *)
(* ===================================================================== *)

(** ** Diagnostics ([vprint], [print], [error], [panic])

    A line keeps the prefix [vprint] is called with, the format string and
    the arguments.  Whether the line goes to /dev/kmsg or to stdout is not
    modelled. *)

Inductive arg : Type :=
| AStr (s : string)
| ANum (n : Z).

Record line : Type := Line {
  ln_prefix : string;
  ln_format : string;
  ln_args : list arg
}.

Definition print_line (format : string) (args : list arg) : line :=
  Line "" format args.

Definition error_line (format : string) (args : list arg) : line :=
  Line "error: " format args.

Definition panic_line (format : string) (args : list arg) : line :=
  Line "panic: " format args.

(** ** zlib's [crc32]

    The library function, in its bit-at-a-time form (the table of zlib is
    the eightfold iteration of [crc_shift] on each index): the running value
    is complemented on entry and on exit, and [crc32(0, Z_NULL, 0)] is 0. *)

Definition mask32 : Z := 0xFFFFFFFF.
Definition crc_poly : Z := 0xEDB88320.

Definition crc_shift (c : Z) : Z :=
  Z.lxor (Z.shiftr c 1) (if Z.testbit c 0 then crc_poly else 0).

Definition crc_byte (c b : Z) : Z :=
  Nat.iter 8 crc_shift (Z.lxor c b).

Definition crc32 (crc : Z) (buf : list Z) : Z :=
  Z.lxor (fold_left crc_byte buf (Z.lxor (Z.land crc mask32) mask32)) mask32.

(** Conversion to [uint32_t]. *)
Definition u32 (x : Z) : Z := x mod 2 ^ 32.

(** ** The EEPROM record *)

Definition EEPROM_PATH : string := "/dev/i2c-1".
Definition EEPROM_ADDRESS : Z := 0x50.
Definition EEPROM_MAGIC_NUMBER : Z := 0x21474E54.
Definition ETHERNET_CONFIG_LENGTH : nat := 256.

Record EEPROM_Header : Type := {
  magic_number : Z;
  checksum : Z;
  data_length : Z;
  data_version : Z
}.

Record EEPROM_DataV1 : Type := {
  production_date : Z;
  uid : list Z;
  hostname : list Z;
  encrypted_password : list Z;
  ethernet_config : list Z
}.

Record EEPROM : Type := {
  header : EEPROM_Header;
  data_v1 : EEPROM_DataV1
}.

(** The structs are packed. *)
Definition sizeof_header : nat := 4 + 4 + 2 + 1.
Definition sizeof_uid : nat := 7.
Definition sizeof_hostname : nat := 65.
Definition sizeof_encrypted_password : nat := 107.
Definition sizeof_data_v1 : nat :=
  4 + sizeof_uid + sizeof_hostname + sizeof_encrypted_password + ETHERNET_CONFIG_LENGTH.
Definition sizeof_eeprom : nat := sizeof_header + sizeof_data_v1.

(** Memory is a map from byte offsets to bytes.  [upd] is the store
    [bytes[address] = byte]. *)
Definition memory : Type := nat -> Z.

Definition upd (u : memory) (address : nat) (byte : Z) : memory :=
  fun i => if Nat.eqb i address then byte else u i.

Definition bytes_at (u : memory) (offset count : nat) : list Z :=
  map u (seq offset count).

(** Little-endian value of a byte sequence (the target is a little-endian
    ARM: the magic number 0x21474E54 is stored as the characters TNG!). *)
Fixpoint le_value (bs : list Z) : Z :=
  match bs with
  | [] => 0
  | b :: bs' => Z.lor b (Z.shiftl (le_value bs') 8)
  end.

(** The view of the union [u] through its member [u.eeprom]. *)
Definition overlay (u : memory) : EEPROM :=
  {| header :=
       {| magic_number := le_value (bytes_at u 0 4);
          checksum := le_value (bytes_at u 4 4);
          data_length := le_value (bytes_at u 8 2);
          data_version := le_value (bytes_at u 10 1) |};
     data_v1 :=
       {| production_date := le_value (bytes_at u 11 4);
          uid := bytes_at u 15 sizeof_uid;
          hostname := bytes_at u 22 sizeof_hostname;
          encrypted_password := bytes_at u 87 sizeof_encrypted_password;
          ethernet_config := bytes_at u 194 ETHERNET_CONFIG_LENGTH |} |}.

(** The process-wide variables [eeprom] and [eeprom_valid]. *)
Record globals : Type := {
  eeprom : EEPROM;
  eeprom_valid : bool
}.

(** What the I2C bus answers: whether [open], the [I2C_SLAVE] ioctl and
    [i2c_write16] fail, and the result of the k-th byte transfer after the
    read address was set to zero ([None]: the ioctl failed). *)
Record i2c_bus : Type := {
  open_fails : bool;
  slave_fails : bool;
  seek_fails : bool;
  rx : nat -> option Z
}.

(** [i2c_read8]: [None] is a negative return code. *)
Definition i2c_read8 (bus : i2c_bus) (k : nat) : option Z :=
  match rx bus k with
  | None => None
  | Some data => Some (Z.land data 0xFF)
  end.

(** The header loop, [count] iterations from [address]; [inl a] is the
    early return at address [a]. *)
Fixpoint read_header (bus : i2c_bus) (count address : nat) (u : memory)
  : nat + memory :=
  match count with
  | O => inr u
  | S count' =>
      match i2c_read8 bus address with
      | None => inl address
      | Some byte => read_header bus count' (S address) (upd u address byte)
      end
  end.

(** The data loop: every byte is checksummed, only those inside the union
    are stored. *)
Fixpoint read_data (bus : i2c_bus) (count address : nat) (u : memory) (sum : Z)
  : nat + (memory * Z) :=
  match count with
  | O => inr (u, sum)
  | S count' =>
      match i2c_read8 bus address with
      | None => inl address
      | Some byte =>
          let u' := if (address <? sizeof_eeprom)%nat then upd u address byte else u in
          read_data bus count' (S address) u' (u32 (crc32 sum [byte]))
      end
  end.

Definition last_char (field : list Z) : Z := List.last field 0.

Definition closing : line := print_line "closing %s" [AStr EEPROM_PATH].

(** [read_eeprom]; [u0] is the indeterminate initial content of the local
    union [u]. *)
Definition read_eeprom (bus : i2c_bus) (u0 : memory) (g : globals)
  : globals * list line :=
  let g := {| eeprom := eeprom g; eeprom_valid := false |} in
  let l1 := [print_line "opening %s" [AStr EEPROM_PATH]] in
  if open_fails bus then
    (g, l1 ++ [error_line "could not open %s: %s (%d)" [AStr EEPROM_PATH]])
  else if slave_fails bus then
    (g, l1 ++ [error_line "could not set EEPROM slave address to 0x%02X: %s (%d)"
                 [ANum EEPROM_ADDRESS]; closing])
  else if seek_fails bus then
    (g, l1 ++ [error_line "could not set EEPROM read address to zero: %s (%d)" [];
               closing])
  else
    let l2 := l1 ++ [print_line "reading EEPROM header" []] in
    match read_header bus sizeof_header 0 u0 with
    | inl address =>
        (g, l2 ++ [error_line "could not read EEPROM header at address %zu: %s (%d)"
                     [ANum (Z.of_nat address)]; closing])
    | inr u =>
        let h := header (overlay u) in
        if negb (magic_number h =? EEPROM_MAGIC_NUMBER) then
          (g, l2 ++ [error_line
                       "EEPROM header has wrong magic number: %08X (actual) != %08X (expected)"
                       [ANum (magic_number h); ANum EEPROM_MAGIC_NUMBER]; closing])
        else
          let l3 := l2 ++ [print_line "reading EEPROM data" []] in
          let sum := u32 (crc32 0 []) in
          let sum := u32 (crc32 sum (bytes_at u 8 2)) in
          let sum := u32 (crc32 sum (bytes_at u 10 1)) in
          match read_data bus (Z.to_nat (data_length h)) sizeof_header u sum with
          | inl address =>
              (g, l3 ++ [error_line "could not read EEPROM data at address %zu: %s (%d)"
                           [ANum (Z.of_nat address)]; closing])
          | inr (u, sum) =>
              let l4 := l3 ++ [closing] in
              let e := overlay u in
              let h := header e in
              let d := data_v1 e in
              if negb (checksum h =? sum) then
                (g, l4 ++ [error_line
                             "EEPROM header/data has wrong checksum: %08X (actual) != %08X (expected)"
                             [ANum sum; ANum (checksum h)]])
              else if data_version h <? 1 then
                (g, l4 ++ [error_line
                             "EEPROM header has invalid data-version: %u (actual) < 1 (expected)"
                             [ANum (data_version h)]])
              else if (data_version h =? 1)
                      && (data_length h <? Z.of_nat sizeof_data_v1) then
                (g, l4 ++ [error_line
                             "EEPROM header has invalid data-length: %u (actual) < %u (expected)"
                             [ANum (data_length h); ANum (Z.of_nat sizeof_data_v1)]])
              else if negb (last_char (uid d) =? 0) then
                (g, l4 ++ [error_line "EEPROM data UID is not null-terminated" []])
              else if negb (last_char (hostname d) =? 0) then
                (g, l4 ++ [error_line "EEPROM data hostname is not null-terminated" []])
              else if negb (last_char (encrypted_password d) =? 0) then
                (g, l4 ++ [error_line
                             "EEPROM data encrypted-password is not null-terminated" []])
              else
                ({| eeprom := e; eeprom_valid := true |}, l4)
          end
    end.

(** The lines that announce [close(fd)]. *)
Definition is_closing (l : line) : bool := String.eqb (ln_format l) "closing %s".

(** The byte the device delivers at an address, as [i2c_read8] stores it. *)
Definition device_byte (bus : i2c_bus) (address : nat) : Z :=
  match i2c_read8 bus address with
  | Some byte => byte
  | None => 0
  end.

(** The header on the device, when its 11 bytes can be read. *)
Definition device_header (bus : i2c_bus) : option EEPROM_Header :=
  match read_header bus sizeof_header 0 (fun _ => 0) with
  | inr u => Some (header (overlay u))
  | inl _ => None
  end.

(** A bus that opens and delivers the bytes of [image], then fails. *)
Definition bus_of_image (image : list Z) : i2c_bus :=
  {| open_fails := false; slave_fails := false; seek_fails := false;
     rx := fun k => nth_error image k |}.

Definition le_bytes (count : nat) (x : Z) : list Z :=
  map (fun i => Z.land (Z.shiftr x (8 * Z.of_nat i)) 0xFF) (seq 0 count).

(** The image a writer produces for a payload: magic number, checksum over
    length, version and payload, length, version, payload. *)
Definition eeprom_image (version : Z) (payload : list Z) : list Z :=
  let len := le_bytes 2 (Z.of_nat (length payload)) in
  le_bytes 4 EEPROM_MAGIC_NUMBER
  ++ le_bytes 4 (crc32 (crc32 0 []) (len ++ [version] ++ payload))
  ++ len ++ [version] ++ payload.

(** Value ranges. *)
Definition is_u32 (x : Z) : Prop := 0 <= x < 2 ^ 32.
Definition is_byte (x : Z) : Prop := 0 <= x < 256.

(** What holds when the record is marked valid. *)
Record accepted (bus : i2c_bus) (u0 : memory) (g' : globals) (u1 u2 : memory) : Prop := {
  acc_header : read_header bus sizeof_header 0 u0 = inr u1;
  acc_magic : magic_number (header (overlay u1)) = EEPROM_MAGIC_NUMBER;
  acc_data :
    read_data bus (Z.to_nat (data_length (header (overlay u1)))) sizeof_header u1
      (u32 (crc32 (u32 (crc32 (u32 (crc32 0 [])) (bytes_at u1 8 2))) (bytes_at u1 10 1)))
    = inr (u2, checksum (header (overlay u2)));
  acc_version : 1 <= data_version (header (overlay u2));
  acc_length :
    data_version (header (overlay u2)) = 1 ->
    Z.of_nat sizeof_data_v1 <= data_length (header (overlay u2));
  acc_uid : last_char (uid (data_v1 (overlay u2))) = 0;
  acc_hostname : last_char (hostname (data_v1 (overlay u2))) = 0;
  acc_password : last_char (encrypted_password (data_v1 (overlay u2))) = 0;
  acc_globals : g' = {| eeprom := overlay u2; eeprom_valid := true |}
}.

(** The record in memory once both loops have run, whatever the checks
    that follow say about it ([None]: a transfer failed). *)
Definition loaded_record (bus : i2c_bus) (u0 : memory) : option EEPROM :=
  match read_header bus sizeof_header 0 u0 with
  | inl _ => None
  | inr u =>
      let h := header (overlay u) in
      let sum := u32 (crc32 0 []) in
      let sum := u32 (crc32 sum (bytes_at u 8 2)) in
      let sum := u32 (crc32 sum (bytes_at u 10 1)) in
      match read_data bus (Z.to_nat (data_length h)) sizeof_header u sum with
      | inl _ => None
      | inr (u, _) => Some (overlay u)
      end
  end.

(** The variables as the program starts: static storage is zeroed. *)
Definition initial_globals : globals :=
  {| eeprom := overlay (fun _ => 0); eeprom_valid := false |}.

(** Sample records.  [payload_v1] lays out a version-1 payload, each field
    cut or zero-filled to its size. *)
Definition bytes_of_string (s : string) : list Z :=
  map (fun c => Z.of_N (N_of_ascii c)) (list_ascii_of_string s).

Definition pad (size : nat) (field : list Z) : list Z :=
  take size (field ++ repeat 0 size).

Definition payload_v1 (date : Z) (uid hostname password config : list Z) : list Z :=
  le_bytes 4 date ++ pad sizeof_uid uid ++ pad sizeof_hostname hostname
  ++ pad sizeof_encrypted_password password ++ pad ETHERNET_CONFIG_LENGTH config.

Definition sample_payload : list Z :=
  payload_v1 0x20200827 (bytes_of_string "AB1234") (bytes_of_string "tng-AB1234")
    (bytes_of_string "$6$abc$device") [0xA5; 1; 2; 3].

(** A local union that happens to hold 0xAA everywhere. *)
Definition stack_garbage : memory := fun _ => 0xAA.

(** Version 0, otherwise well formed. *)
Definition version0_image : list Z := eeprom_image 0 sample_payload.

(** Version 2 with the payload cut after encrypted_password: 183 bytes. *)
Definition short_v2_image : list Z := eeprom_image 2 (take 183 sample_payload).

(** Version 1 with five bytes after the version-1 payload. *)
Definition long_v1_image : list Z := eeprom_image 1 (sample_payload ++ [1; 2; 3; 4; 5]).

(** Version 1 with a uid that fills its seven bytes. *)
Definition unterminated_uid_image : list Z :=
  eeprom_image 1
    (payload_v1 0x20200827 (bytes_of_string "ABCDEFG") (bytes_of_string "tng-AB1234")
       (bytes_of_string "$6$abc$device") []).

(** ** System calls

    The file system maps a path to an inode: mode, owner and content.  A
    file descriptor is modelled by the path it was opened on (no descriptor
    here outlives a rename of its path).  The kernel's answers are scripted:
    [w_faults] lists, in call order, what happens to the calls whose result
    the program inspects; when the script is exhausted every call succeeds.
    [w_trace] records each call with its return value. *)

Record file : Type := File {
  st_mode : Z;
  st_uid : Z;
  st_gid : Z;
  contents : list ascii
}.

Definition st_size (f : file) : nat := length (contents f).

Inductive fault : Type :=
| NoFault
| Errno (errno : Z)      (* the call fails *)
| Short (count : nat).   (* read, write: at most [count] bytes are transferred;
                            any other call succeeds *)

Inductive call : Type :=
| SysStat (path : string)
| SysOpen (path : string)
| SysFstat (fd : string)
| SysMalloc (size : nat)
| SysRead (fd : string) (count : nat)
| SysClose (fd : string)
| SysCreate (path : string) (mode : Z)
| SysFchown (fd : string) (uid gid : Z)
| SysFchmod (fd : string) (mode : Z)
| SysWrite (fd : string) (buffer : list ascii)
| SysFsync (fd : string)
| SysRename (oldpath newpath : string)
| LibCrypt (key salt : list ascii).

Record event : Type := Event {
  ev_call : call;
  ev_result : Z
}.

Record world : Type := World {
  w_fs : gmap string file;
  w_faults : list fault;
  w_log : list line;
  w_trace : list event
}.

(** [Panics]: [panic] was called; it logs, waits, asks for a reboot and
    parks in an endless sleep, so nothing after the call is executed.
    [Undefined]: the program stored outside an array. *)
Inductive outcome (A : Type) : Type :=
| Returns (a : A) (w : world)
| Panics (w : world)
| Undefined (w : world).

Arguments Returns {A} a w.
Arguments Panics {A} w.
Arguments Undefined {A} w.

Definition final_world {A : Type} (o : outcome A) : world :=
  match o with
  | Returns _ w => w
  | Panics w => w
  | Undefined w => w
  end.

Definition M (A : Type) : Type := world -> outcome A.

Definition ret {A : Type} (a : A) : M A := fun w => Returns a w.

Definition bind {A B : Type} (m : M A) (k : A -> M B) : M B :=
  fun w =>
    match m w with
    | Returns a w' => k a w'
    | Panics w' => Panics w'
    | Undefined w' => Undefined w'
    end.

Notation "'do' x <- m ; k" := (bind m (fun x => k))
  (at level 10, x pattern, m at level 100, k at level 200).
Notation "m ;; k" := (bind m (fun _ => k))
  (at level 100, k at level 200, right associativity).

Definition log_line (l : line) (w : world) : world :=
  World (w_fs w) (w_faults w) (w_log w ++ [l]) (w_trace w).

Definition record_call (c : call) (result : Z) (w : world) : world :=
  World (w_fs w) (w_faults w) (w_log w) (w_trace w ++ [Event c result]).

Definition set_fs (fs : gmap string file) (w : world) : world :=
  World fs (w_faults w) (w_log w) (w_trace w).

Definition print (format : string) (args : list arg) : M unit :=
  fun w => Returns tt (log_line (print_line format args) w).

Definition error (format : string) (args : list arg) : M unit :=
  fun w => Returns tt (log_line (error_line format args) w).

Definition panic {A : Type} (format : string) (args : list arg) : M A :=
  fun w => Panics (log_line (panic_line format args) w).

Definition undefined {A : Type} : M A := fun w => Undefined w.

Definition next_fault (w : world) : fault * world :=
  match w_faults w with
  | [] => (NoFault, w)
  | f :: rest => (f, World (w_fs w) rest (w_log w) (w_trace w))
  end.

Definition ENOENT : Z := 2.
Definition EBADF : Z := 9.
Definition S_IFMT : Z := 0xF000.          (* 0170000 *)
Definition S_IFREG : Z := 0x8000.         (* 0100000 *)
Definition permission_bits : Z := 0xFFF.  (* 07777 *)
Definition mode_0444 : Z := 0x124.        (* 0444 *)

(** A system call returns [inl errno] when it fails. *)

Definition sys_stat (path : string) : M (Z + file) := fun w =>
  let '(f, w) := next_fault w in
  match f, w_fs w !! path with
  | Errno e, _ => Returns (inl e) (record_call (SysStat path) (-1) w)
  | _, None => Returns (inl ENOENT) (record_call (SysStat path) (-1) w)
  | _, Some st => Returns (inr st) (record_call (SysStat path) 0 w)
  end.

(** [open(path, O_RDONLY)]. *)
Definition sys_open (path : string) : M (Z + string) := fun w =>
  let '(f, w) := next_fault w in
  match f, w_fs w !! path with
  | Errno e, _ => Returns (inl e) (record_call (SysOpen path) (-1) w)
  | _, None => Returns (inl ENOENT) (record_call (SysOpen path) (-1) w)
  | _, Some _ => Returns (inr path) (record_call (SysOpen path) 0 w)
  end.

Definition sys_fstat (fd : string) : M (Z + file) := fun w =>
  let '(f, w) := next_fault w in
  match f, w_fs w !! fd with
  | Errno e, _ => Returns (inl e) (record_call (SysFstat fd) (-1) w)
  | _, None => Returns (inl EBADF) (record_call (SysFstat fd) (-1) w)
  | _, Some st => Returns (inr st) (record_call (SysFstat fd) 0 w)
  end.

(** [malloc]: [false] is a NULL result. *)
Definition sys_malloc (size : nat) : M bool := fun w =>
  let '(f, w) := next_fault w in
  match f with
  | Errno _ => Returns false (record_call (SysMalloc size) 0 w)
  | _ => Returns true (record_call (SysMalloc size) 1 w)
  end.

(** [read(fd, buffer, count)] on a descriptor at offset 0: the return value
    and the bytes stored in the buffer. *)
Definition sys_read (fd : string) (count : nat) : M (Z * list ascii) := fun w =>
  let '(f, w) := next_fault w in
  match f, w_fs w !! fd with
  | Errno _, _ | _, None =>
      Returns (-1, []) (record_call (SysRead fd count) (-1) w)
  | NoFault, Some st =>
      let data := take count (contents st) in
      Returns (Z.of_nat (length data), data)
        (record_call (SysRead fd count) (Z.of_nat (length data)) w)
  | Short n, Some st =>
      let data := take (Nat.min n count) (contents st) in
      Returns (Z.of_nat (length data), data)
        (record_call (SysRead fd count) (Z.of_nat (length data)) w)
  end.

(** [close] and [fsync]: the program ignores their results. *)
Definition sys_close (fd : string) : M unit := fun w =>
  Returns tt (record_call (SysClose fd) 0 w).

Definition sys_fsync (fd : string) : M unit := fun w =>
  Returns tt (record_call (SysFsync fd) 0 w).

(** [open(path, O_CREAT | O_TRUNC | O_WRONLY, mode)]: on success the path
    names an empty regular file; an existing inode keeps its owner and
    permissions, a new one belongs to root (the umask is not modelled:
    [create_file] sets the mode again with [fchmod]). *)
Definition sys_create (path : string) (mode : Z) : M (Z + string) := fun w =>
  let '(f, w) := next_fault w in
  match f with
  | Errno e => Returns (inl e) (record_call (SysCreate path mode) (-1) w)
  | _ =>
      let inode :=
        match w_fs w !! path with
        | Some st =>
            File (Z.lor S_IFREG (Z.land (st_mode st) permission_bits))
              (st_uid st) (st_gid st) []
        | None => File (Z.lor S_IFREG (Z.land mode permission_bits)) 0 0 []
        end in
      Returns (inr path)
        (record_call (SysCreate path mode) 0 (set_fs (<[path := inode]> (w_fs w)) w))
  end.

Definition sys_fchown (fd : string) (uid gid : Z) : M Z := fun w =>
  let '(f, w) := next_fault w in
  match f, w_fs w !! fd with
  | Errno _, _ | _, None => Returns (-1) (record_call (SysFchown fd uid gid) (-1) w)
  | _, Some st =>
      Returns 0
        (record_call (SysFchown fd uid gid) 0
           (set_fs (<[fd := File (st_mode st) uid gid (contents st)]> (w_fs w)) w))
  end.

Definition sys_fchmod (fd : string) (mode : Z) : M Z := fun w =>
  let '(f, w) := next_fault w in
  match f, w_fs w !! fd with
  | Errno _, _ | _, None => Returns (-1) (record_call (SysFchmod fd mode) (-1) w)
  | _, Some st =>
      let mode' := Z.lor (Z.land (st_mode st) S_IFMT) (Z.land mode permission_bits) in
      Returns 0
        (record_call (SysFchmod fd mode) 0
           (set_fs (<[fd := File mode' (st_uid st) (st_gid st) (contents st)]> (w_fs w)) w))
  end.

(** [write(fd, buffer, length)] on a descriptor opened for writing: the
    bytes are appended. *)
Definition sys_write (fd : string) (buffer : list ascii) : M Z := fun w =>
  let '(f, w) := next_fault w in
  match f, w_fs w !! fd with
  | Errno _, _ | _, None => Returns (-1) (record_call (SysWrite fd buffer) (-1) w)
  | NoFault, Some st =>
      Returns (Z.of_nat (length buffer))
        (record_call (SysWrite fd buffer) (Z.of_nat (length buffer))
           (set_fs (<[fd := File (st_mode st) (st_uid st) (st_gid st)
                               (contents st ++ buffer)]> (w_fs w)) w))
  | Short n, Some st =>
      let data := take n buffer in
      Returns (Z.of_nat (length data))
        (record_call (SysWrite fd buffer) (Z.of_nat (length data))
           (set_fs (<[fd := File (st_mode st) (st_uid st) (st_gid st)
                               (contents st ++ data)]> (w_fs w)) w))
  end.

(** [rename]: renaming a path onto itself does nothing. *)
Definition sys_rename (oldpath newpath : string) : M Z := fun w =>
  let '(f, w) := next_fault w in
  match f, w_fs w !! oldpath with
  | Errno _, _ | _, None =>
      Returns (-1) (record_call (SysRename oldpath newpath) (-1) w)
  | _, Some st =>
      let fs' := if String.eqb oldpath newpath then w_fs w
                 else <[newpath := st]> (delete oldpath (w_fs w)) in
      Returns 0 (record_call (SysRename oldpath newpath) 0 (set_fs fs' w))
  end.

(** ** [create_file] and [robust_write] *)

Definition create_file (path : string) (uid gid mode : Z) : M string :=
  print "creating %s" [AStr path];;
  do fd <- sys_create path mode;
  match fd with
  | inl errno =>
      panic "could not create %s for writing: %s (%d)" [AStr path; ANum errno]
  | inr fd =>
      do rc <- sys_fchown fd uid gid;
      if rc <? 0 then
        panic "could not change owner of %s to %u:%u: %s (%d)"
          [AStr path; ANum uid; ANum gid]
      else
        do rc <- sys_fchmod fd mode;
        if rc <? 0 then
          panic "could not change mode of %s to 0o%03o: %s (%d)" [AStr path; ANum mode]
        else ret fd
  end.

Definition robust_write (path fd : string) (buffer : list ascii) : M unit :=
  do len <- sys_write fd buffer;
  if len <? 0 then
    panic "could not write to %s: %s (%d)" [AStr path]
  else if len <? Z.of_nat (length buffer) then
    panic "short write to %s: %s (%d)" [AStr path]
  else ret tt.

(** ** [update_file] *)

(** [snprintf(tmp_path, sizeof(tmp_path), "%s.tmp", path)] with a buffer of
    256 bytes: at most 255 characters are kept. *)
Definition tmp_path_of (path : string) : string :=
  String.substring 0 255 (path ++ ".tmp").

(** The code after the label [update]. *)
Definition update_file_write (path : string) (content : list ascii) : M unit :=
  let tmp_path := tmp_path_of path in
  do fd <- create_file tmp_path 0 0 mode_0444;
  robust_write tmp_path fd content;;
  sys_fsync fd;;
  sys_close fd;;
  print "renaming %s to %s" [AStr tmp_path; AStr path];;
  do rc <- sys_rename tmp_path path;
  if rc <? 0 then
    panic "could not rename %s to %s: %s (%d)" [AStr tmp_path; AStr path]
  else ret tt.

(** [update_file(path, content, content_length)]; the length is that of
    the list.  File sizes are compared as numbers: sizes of 4 GiB and more,
    which the conversion to [size_t] would change, are not modelled. *)
Definition update_file (path : string) (content : list ascii) : M unit :=
  let content_length := length content in
  do st <- sys_stat path;
  match st with
  | inl errno =>
      (if negb (errno =? ENOENT) then
         error "could not get status of %s: %s (%d)" [AStr path; ANum errno]
       else ret tt);;
      update_file_write path content
  | inr st =>
      if negb (st_mode st =? Z.lor S_IFREG mode_0444) || negb (st_uid st =? 0)
         || negb (st_gid st =? 0) || negb (st_size st =? content_length)%nat then
        update_file_write path content
      else
        do fd <- sys_open path;
        match fd with
        | inl errno =>
            error "could not open %s for reading: %s (%d)" [AStr path; ANum errno];;
            update_file_write path content
        | inr fd =>
            do r <- sys_read fd (st_size st);
            let '(len, buffer) := r in
            sys_close fd;;
            if len <? 0 then
              error "could not read from %s: %s (%d)" [AStr path];;
              update_file_write path content
            else if len <? Z.of_nat (st_size st) then
              error "short read from %s: %s (%d)" [AStr path];;
              update_file_write path content
            else if bool_decide (buffer = content) then
              print "%s is already up-to-date, skipping update" [AStr path]
            else
              update_file_write path content
        end
  end.

(** ** C strings

    A [char] array is a [list ascii]; the array is followed by a NUL (the
    callers store one behind the data they read), so the end of the list
    reads as the terminator. *)

Definition NUL : ascii := "000"%char.

Definition chars (s : string) : list ascii := list_ascii_of_string s.

Definition char_of_byte (b : Z) : ascii := ascii_of_N (Z.to_N b).

(** [s[i]] *)
Definition char_at (s : list ascii) (i : nat) : ascii := nth i s NUL.

Fixpoint strlen (s : list ascii) : nat :=
  match s with
  | [] => 0
  | c :: s' => if Ascii.eqb c NUL then 0 else S (strlen s')
  end.

(** The characters of the C string that starts at [s]. *)
Definition cstr (s : list ascii) : list ascii := take (strlen s) s.

(** [strncmp(s, prefix, strlen(prefix)) == 0], for a [prefix] without NUL. *)
Fixpoint has_prefix (prefix s : list ascii) : bool :=
  match prefix, s with
  | [], _ => true
  | _ :: _, [] => false
  | p :: prefix', c :: s' => Ascii.eqb c p && has_prefix prefix' s'
  end.

(** [strchr(s, c)] for [c] other than NUL: the offset of the first [c]. *)
Fixpoint strchr (s : list ascii) (c : ascii) : option nat :=
  match s with
  | [] => None
  | x :: s' =>
      if Ascii.eqb x c then Some 0%nat
      else if Ascii.eqb x NUL then None
      else option_map S (strchr s' c)
  end.

(** [strrchr(s, c)] for [c] other than NUL: the offset of the last [c]. *)
Fixpoint strrchr (s : list ascii) (c : ascii) : option nat :=
  match s with
  | [] => None
  | x :: s' =>
      if Ascii.eqb x NUL then None
      else match strrchr s' c with
           | Some i => Some (S i)
           | None => if Ascii.eqb x c then Some 0%nat else None
           end
  end.

(** [strstr(s, needle)] for a nonempty [needle] without NUL. *)
Fixpoint strstr (s needle : list ascii) : option nat :=
  match s with
  | [] => None
  | x :: s' =>
      if has_prefix needle s then Some 0%nat
      else if Ascii.eqb x NUL then None
      else option_map S (strstr s' needle)
  end.

(** [strcmp(a, b) == 0] *)
Definition strcmp_eq (a b : list ascii) : bool := bool_decide (cstr a = cstr b).

(** ** [replace_password] *)

Definition ACCOUNT_NAME : string := "tng".
Definition DEFAULT_PASSWORD : string := "default-tng-password".
Definition SHADOW_PATH : string := "/mnt/etc/shadow".
Definition SHADOW_BACKUP_PATH : string := SHADOW_PATH ++ "-".
Definition SHADOW_TMP_PATH : string := SHADOW_PATH ++ "+".
Definition SHADOW_BUFFER_LENGTH : nat := 512 * 1024.
Definition SHADOW_ENCRYPTED_LENGTH : nat := 512.

Definition malformed {A : Type} : M A :=
  panic "encrypted section for account %s is malformed" [AStr ACCOUNT_NAME].

(** "find entry for account": the offset [entry_begin]. *)
Definition find_entry (buffer : list ascii) : option nat :=
  if has_prefix (chars (ACCOUNT_NAME ++ ":")) buffer then Some 0%nat
  else option_map S (strstr buffer (chars (String "010" (ACCOUNT_NAME ++ ":")))).

Section ReplacePassword.

(** [crypt_r(key, salt, &data)] of libcrypt; [None] is a NULL result. *)
Variable crypt_r : list ascii -> list ascii -> option (list ascii).

Definition lib_crypt (key salt : list ascii) : M (option (list ascii)) := fun w =>
  let result := crypt_r key salt in
  Returns result
    (record_call (LibCrypt key salt) (match result with Some _ => 1 | None => 0 end) w).

(** The part of [replace_password] that writes /etc/shadow- and replaces
    /etc/shadow, from "create /etc/shadow-" to the rename. *)
Definition replace_password_write (g : globals) (st : file) (buffer : list ascii)
    (encrypted_begin encrypted_end : nat) : M unit :=
  do fd <- create_file SHADOW_BACKUP_PATH (st_uid st) (st_gid st) (st_mode st);
  robust_write SHADOW_BACKUP_PATH fd buffer;;
  print "closing %s" [AStr SHADOW_BACKUP_PATH];;
  sys_fsync fd;;
  sys_close fd;;
  do fd <- create_file SHADOW_TMP_PATH (st_uid st) (st_gid st) (st_mode st);
  robust_write SHADOW_TMP_PATH fd (take encrypted_begin buffer);;
  robust_write SHADOW_TMP_PATH fd
    (cstr (map char_of_byte (encrypted_password (data_v1 (eeprom g)))));;
  robust_write SHADOW_TMP_PATH fd (drop encrypted_end buffer);;
  print "closing %s" [AStr SHADOW_TMP_PATH];;
  sys_fsync fd;;
  sys_close fd;;
  print "renaming %s to %s" [AStr SHADOW_TMP_PATH; AStr SHADOW_PATH];;
  do rc <- sys_rename SHADOW_TMP_PATH SHADOW_PATH;
  if rc <? 0 then
    panic "could not rename %s to %s: %s (%d)" [AStr SHADOW_TMP_PATH; AStr SHADOW_PATH]
  else ret tt.

(** The part of [replace_password] that works on the buffer, from "find
    entry for account" on.  [st] is the result of [fstat]. *)
Definition replace_password_entry (g : globals) (st : file) (buffer : list ascii)
  : M unit :=
  match find_entry buffer with
  | None =>
      print "account %s is not present, skipping password replacement"
        [AStr ACCOUNT_NAME]
  | Some entry_begin =>
      match strchr (drop entry_begin buffer) ":" with
      | None => malformed
      | Some colon =>
          let encrypted_begin := (entry_begin + colon + 1)%nat in
          if Ascii.eqb (char_at buffer encrypted_begin) "*" then
            print "account %s has no password set, skipping password replacement"
              [AStr ACCOUNT_NAME]
          else if negb (Ascii.eqb (char_at buffer encrypted_begin) "!") then
            print "account %s is not locked, skipping password replacement"
              [AStr ACCOUNT_NAME]
          else
            match strchr (drop encrypted_begin buffer) ":" with
            | None => malformed
            | Some colon =>
                let encrypted_end := (encrypted_begin + colon)%nat in
                let encrypted_used := (encrypted_end - (encrypted_begin + 1))%nat in
                if (SHADOW_ENCRYPTED_LENGTH <? encrypted_used)%nat then
                  panic "encrypted section for account %s is too big"
                    [AStr ACCOUNT_NAME]
                else
                  let encrypted :=
                    take encrypted_used (drop (encrypted_begin + 1) buffer) in
                  (* encrypted[encrypted_used] = '\0' in an array of
                     SHADOW_ENCRYPTED_LENGTH characters *)
                  if (encrypted_used =? SHADOW_ENCRYPTED_LENGTH)%nat then undefined
                  else if (encrypted_used <? 2)%nat then malformed
                  else
                    do salt_used <-
                      (if negb (Ascii.eqb (char_at encrypted 0) "$") then ret 2%nat
                       else match strrchr encrypted "$" with
                            | None => malformed
                            | Some encrypted_prefix_end => ret encrypted_prefix_end
                            end);
                    let salt := take salt_used encrypted in
                    do crypt_result <- lib_crypt (chars DEFAULT_PASSWORD) salt;
                    match crypt_result with
                    | None =>
                        panic "could not encrypt default password: %s (%d)" []
                    | Some crypt_result =>
                        if negb (strcmp_eq crypt_result encrypted) then
                          print
                            "account %s does not have the default password set, skipping password replacement"
                            [AStr ACCOUNT_NAME]
                        else
                          print
                            "account %s has default password set, replacing with device specific password"
                            [AStr ACCOUNT_NAME];;
                          replace_password_write g st buffer encrypted_begin
                            encrypted_end
                    end
            end
      end
  end.

Definition replace_password (g : globals) : M unit :=
  if negb (eeprom_valid g) || (data_version (header (eeprom g)) <? 1) then
    error "required EEPROM data not available, skipping password replacement" []
  else
    print "opening %s" [AStr SHADOW_PATH];;
    do fd <- sys_open SHADOW_PATH;
    match fd with
    | inl errno =>
        panic "could not open %s for reading: %s (%d)" [AStr SHADOW_PATH; ANum errno]
    | inr fd =>
        do st <- sys_fstat fd;
        match st with
        | inl errno =>
            panic "could not get status of %s: %s (%d)" [AStr SHADOW_PATH; ANum errno]
        | inr st =>
            if (SHADOW_BUFFER_LENGTH <? st_size st)%nat then
              panic "%s is too big" [AStr SHADOW_PATH]
            else
              print "reading %s" [AStr SHADOW_PATH];;
              let buffer_used := st_size st in
              do allocated <- sys_malloc (buffer_used + 1);
              if negb allocated then panic "could not allocate memory" []
              else
                do r <- sys_read fd buffer_used;
                let '(len, buffer) := r in
                if len <? 0 then
                  panic "could not read from %s: %s (%d)" [AStr SHADOW_PATH]
                else if len <? Z.of_nat buffer_used then
                  panic "short read from %s: %s (%d)" [AStr SHADOW_PATH]
                else
                  print "closing %s" [AStr SHADOW_PATH];;
                  sys_close fd;;
                  replace_password_entry g st buffer
        end
    end.

End ReplacePassword.

(** ** [read_cmdline] *)

Definition is_delimiter (c : ascii) : bool :=
  Ascii.eqb c "013" || Ascii.eqb c "010" || Ascii.eqb c "009" || Ascii.eqb c " ".

Definition flush (token : list ascii) : list (list ascii) :=
  match token with
  | [] => []
  | _ => [token]
  end.

(** The tokens the calls [strtok(buffer, "\r\n\t ")], [strtok(NULL, ...)]
    return one after the other; [token] holds the characters of the token
    being scanned. *)
Fixpoint strtok_all (s token : list ascii) : list (list ascii) :=
  match s with
  | [] => flush token
  | c :: s' =>
      if Ascii.eqb c NUL then flush token
      else if is_delimiter c then flush token ++ strtok_all s' []
      else strtok_all s' (token ++ [c])
  end.

Record cmdline : Type := {
  root : option (list ascii);
  rootfstype : option (list ascii);
  init : option (list ascii)
}.

(** The body of the [while] loop. *)
Definition read_option (c : cmdline) (option : list ascii) : cmdline :=
  if has_prefix (chars "root=") option then
    {| root := Some (drop 5 option); rootfstype := rootfstype c; init := init c |}
  else if has_prefix (chars "rootfstype=") option then
    {| root := root c; rootfstype := Some (drop 11 option); init := init c |}
  else if has_prefix (chars "init=") option then
    {| root := root c; rootfstype := rootfstype c; init := Some (drop 5 option) |}
  else c.

(** "parse /proc/cmdline" *)
Definition parse_cmdline (buffer : list ascii) : cmdline :=
  fold_left read_option (strtok_all buffer [])
    {| root := None; rootfstype := None; init := None |}.

Definition read_cmdline : M cmdline :=
  print "reading /proc/cmdline" [];;
  do fd <- sys_open "/proc/cmdline";
  match fd with
  | inl errno =>
      panic "could not open /proc/cmdline for reading: %s (%d)" [ANum errno]
  | inr fd =>
      do r <- sys_read fd (2048 - 1);
      let '(len, buffer) := r in
      if len <? 0 then panic "could not read from /proc/cmdline: %s (%d)" []
      else sys_close fd;; ret (parse_cmdline buffer)
  end.

(** The defaults [main] puts in the place of a NULL result. *)
Definition default_to (value : option (list ascii)) (fallback : string) : list ascii :=
  match value with
  | None => chars fallback
  | Some v => v
  end.

Definition main_root (c : cmdline) : list ascii := default_to (root c) "/dev/mmcblk0p2".
Definition main_rootfstype (c : cmdline) : list ascii := default_to (rootfstype c) "ext4".
Definition main_init (c : cmdline) : list ascii := default_to (init c) "/sbin/init".

(** A character that can stand inside a token. *)
Definition token_char (c : ascii) : Prop := is_delimiter c = false /\ c <> NUL.

(** ** [robust_mount]

    libmount is an input: the k-th context [mnt_new_context] returns comes
    with the return codes its calls will give. *)

Definition MNT_ERR_NOSOURCE : Z := 5002.  (* libmount.h *)

Record mount_context : Type := {
  ctx_is_null : bool;
  rc_disable_helpers : Z;
  rc_set_fstype : Z;
  rc_set_source : Z;
  rc_set_target : Z;
  rc_set_mflags : Z;
  rc_mount : Z;
  excode : Z
}.

Inductive mount_event : Type :=
| MntNewContext
| MntMount (rc : Z)
| MntFreeContext
| Usleep (usec : Z).

Inductive mount_result : Type :=
| MountReturns      (* [robust_mount] returns: the file system is mounted *)
| MountPanics       (* [panic] was called *)
| MountRetrying.    (* the fuel is used up at the label [retry] *)

Record mount_run : Type := {
  mr_result : mount_result;
  mr_retries : Z;
  mr_log : list line;
  mr_trace : list mount_event
}.

Section RobustMount.

(** Width of [size_t]. *)
Variable size_bits : Z.

Variable libmount : nat -> mount_context.
Variables source target type : string.
Variable flags : Z.

Definition mount_args : list arg := [AStr source; AStr type; AStr target].

(** One pass from the label [retry]; [attempt] counts the contexts
    created so far, [retries] is the variable of the program. *)
Fixpoint robust_mount_retry (fuel attempt : nat) (retries : Z)
    (log : list line) (trace : list mount_event) : mount_run :=
  match fuel with
  | O => {| mr_result := MountRetrying; mr_retries := retries;
            mr_log := log; mr_trace := trace |}
  | S fuel' =>
      let ctx := libmount attempt in
      let trace := trace ++ [MntNewContext] in
      let stop line :=
        {| mr_result := MountPanics; mr_retries := retries;
           mr_log := log ++ [line]; mr_trace := trace |} in
      if ctx_is_null ctx then
        stop (panic_line "could not create libmount context" [])
      else if rc_disable_helpers ctx <? 0 then
        stop (panic_line "could not disable libmount helpers: %s (%d)"
                [ANum (- rc_disable_helpers ctx)])
      else if rc_set_fstype ctx <? 0 then
        stop (panic_line "could not set libmount fstype to %s: %s (%d)"
                [AStr type; ANum (- rc_set_fstype ctx)])
      else if rc_set_source ctx <? 0 then
        stop (panic_line "could not set libmount source to %s: %s (%d)"
                [AStr source; ANum (- rc_set_source ctx)])
      else if rc_set_target ctx <? 0 then
        stop (panic_line "could not set libmount target to %s: %s (%d)"
                [AStr target; ANum (- rc_set_target ctx)])
      else if rc_set_mflags ctx <? 0 then
        stop (panic_line "could not set libmount flags to 0x%08lx: %s (%d)"
                [ANum flags; ANum (- rc_set_mflags ctx)])
      else
        let rc := rc_mount ctx in
        let trace := trace ++ [MntMount rc] in
        if negb (rc =? 0) then
          if rc =? - MNT_ERR_NOSOURCE then
            robust_mount_retry fuel' (S attempt) ((retries + 1) mod 2 ^ size_bits)
              (log ++ [error_line
                         "could not mount %s (%s) at %s, device is missing, trying again in 500 msec"
                         mount_args])
              (trace ++ [MntFreeContext; Usleep (500 * 1000)])
          else
            {| mr_result := MountPanics; mr_retries := retries;
               mr_log := log ++ [panic_line
                                   "could not mount %s (%s) at %s: %s (%d -> %d)"
                                   (mount_args ++ [ANum rc; ANum (excode ctx)])];
               mr_trace := trace |}
        else
          {| mr_result := MountReturns; mr_retries := retries;
             mr_log :=
               log ++
               (if 0 <? retries then
                  [print_line "successfully mounted %s (%s) at %s after %zu %s"
                     (mount_args
                      ++ [ANum retries;
                          AStr (if retries =? 1 then "retry" else "retries")])]
                else []);
             mr_trace := trace ++ [MntFreeContext] |}
  end.

Definition robust_mount (fuel : nat) : mount_run :=
  robust_mount_retry fuel 0 0
    [print_line "mounting %s (%s) at %s" mount_args] [].

End RobustMount.

(** ** Sample inputs *)

(** A stand-in for [crypt_r]: the setting (the salt, closed by a '$' when it
    starts with one) followed by a digest of key and salt. *)
Definition toy_digest (key salt : list ascii) : list ascii :=
  chars "h" ++ filter (fun c => c <> "$"%char) (rev salt) ++ take 4 key.

Definition toy_crypt (key salt : list ascii) : option (list ascii) :=
  match salt with
  | [] => None
  | c :: _ =>
      if Ascii.eqb c "$" then Some (salt ++ chars "$" ++ toy_digest key salt)
      else Some (take 2 salt ++ toy_digest key (take 2 salt))
  end.

Definition empty_world : world := World ∅ [] [] [].

Definition world_of (fs : gmap string file) (faults : list fault) : world :=
  World fs faults [] [].

(** A valid record as [read_eeprom] leaves it. *)
Definition sample_globals : globals :=
  (read_eeprom (bus_of_image (eeprom_image 1 sample_payload)) stack_garbage
     initial_globals).1.

Definition shadow_file (content : string) : file :=
  File (Z.lor S_IFREG 0x1A0) 0 42 (chars content).

Definition newline : string := String "010" "".

(** tng holds the default password under the salt $6$abc. *)
Definition shadow_default : string :=
  "root:*:18000:0:99999:7:::" ++ newline
  ++ "tng:!$6$abc$hcba6defa:18000:0:99999:7:::" ++ newline.

(** tng holds another password. *)
Definition shadow_custom : string :=
  "root:*:18000:0:99999:7:::" ++ newline
  ++ "tng:!$6$abc$custom:18000:0:99999:7:::" ++ newline.

(** tng is locked with a one-character hash. *)
Definition shadow_short : string :=
  "tng:!x:18000:0:99999:7:::" ++ newline.

Definition cmdline_file : file :=
  File (Z.lor S_IFREG mode_0444) 0 0
    (chars ("console=tty1 root=/dev/sda1 rootfstype=ext3 root=/dev/mmcblk0p7 "
            ++ "init=/bin/sh rootwait" ++ newline)).

Definition cmdline_world : world :=
  world_of {[ "/proc/cmdline" := cmdline_file ]} [].

(** libmount contexts whose calls succeed, with a given result of
    [mnt_context_mount]. *)
Definition context_with (rc : Z) : mount_context :=
  {| ctx_is_null := false; rc_disable_helpers := 0; rc_set_fstype := 0;
     rc_set_source := 0; rc_set_target := 0; rc_set_mflags := 0;
     rc_mount := rc; excode := 32 |}.

(** The device shows up at the fourth attempt. *)
Definition late_device (attempt : nat) : mount_context :=
  context_with (if (attempt <? 3)%nat then - MNT_ERR_NOSOURCE else 0).

(** The setters of a context succeeded. *)
Definition context_ready (ctx : mount_context) : Prop :=
  ctx_is_null ctx = false
  /\ 0 <= rc_disable_helpers ctx /\ 0 <= rc_set_fstype ctx
  /\ 0 <= rc_set_source ctx /\ 0 <= rc_set_target ctx /\ 0 <= rc_set_mflags ctx.

(** What one failed attempt leaves in the trace and in the log. *)
Definition retry_cycle : list mount_event :=
  [MntNewContext; MntMount (- MNT_ERR_NOSOURCE); MntFreeContext; Usleep 500000].

Definition missing_line (source target type : string) : line :=
  error_line "could not mount %s (%s) at %s, device is missing, trying again in 500 msec"
    [AStr source; AStr type; AStr target].

Definition mounted_line (source target type : string) (retries : Z) : line :=
  print_line "successfully mounted %s (%s) at %s after %zu %s"
    [AStr source; AStr type; AStr target; ANum retries;
     AStr (if retries =? 1 then "retry" else "retries")].

(** ** Reading traces *)

(** The calls after which [create_file], [robust_write] and the rename
    steps call [panic]: a failed creation ([open], [fchown], [fchmod]), a
    failed or short write, a failed rename. *)
Definition fatal_event (e : event) : Prop :=
  match ev_call e with
  | SysCreate _ _ | SysFchown _ _ _ | SysFchmod _ _ | SysRename _ _ => ev_result e < 0
  | SysWrite _ buffer => ev_result e < Z.of_nat (length buffer)
  | _ => False
  end.

(** A call of the comparison with the existing file that failed: [stat],
    [open], or a read that failed or delivered less than was asked for. *)
Definition failed_check (e : event) : Prop :=
  match ev_call e with
  | SysStat _ | SysOpen _ => ev_result e < 0
  | SysRead _ count => ev_result e < Z.of_nat count
  | _ => False
  end.

(** A read that failed or delivered less than was asked for. *)
Definition short_read (e : event) : Prop :=
  match ev_call e with
  | SysRead _ count => ev_result e < Z.of_nat count
  | _ => False
  end.

Definition is_write (e : event) : bool :=
  match ev_call e with
  | SysWrite _ _ => true
  | _ => false
  end.

(** A call that changes the file system. *)
Definition modifies (e : event) : bool :=
  match ev_call e with
  | SysCreate _ _ | SysFchown _ _ _ | SysFchmod _ _ | SysWrite _ _ | SysRename _ _ => true
  | _ => false
  end.

(** The calls of [update_file] on a file that is up to date, and those of
    the code after the label [update] when every call succeeds. *)
Definition skip_trace (path : string) (size : nat) : list event :=
  [Event (SysStat path) 0; Event (SysOpen path) 0;
   Event (SysRead path size) (Z.of_nat size); Event (SysClose path) 0].

Definition write_trace (path : string) (content : list ascii) : list event :=
  let tmp_path := tmp_path_of path in
  [Event (SysCreate tmp_path mode_0444) 0; Event (SysFchown tmp_path 0 0) 0;
   Event (SysFchmod tmp_path mode_0444) 0;
   Event (SysWrite tmp_path content) (Z.of_nat (length content));
   Event (SysFsync tmp_path) 0; Event (SysClose tmp_path) 0;
   Event (SysRename tmp_path path) 0].

Definition count_writes (t : list event) : nat := length (List.filter is_write t).

(** The file [update_file] aims at. *)
Definition target_file (content : list ascii) : file :=
  File (Z.lor S_IFREG mode_0444) 0 0 content.

(** A call whose return value the program tests. *)
Definition reports (m : M Z) (c : call) : Prop :=
  forall w, exists rc w',
    m w = Returns rc w' /\ w_trace w' = w_trace w ++ [Event c rc].

(** A computation is [harmless] when it returns and records no fatal
    call; it is [guarded] when it panics exactly if it records one. *)
Definition harmless {A : Type} (m : M A) : Prop :=
  forall w, exists a w' evs,
    m w = Returns a w' /\ w_trace w' = w_trace w ++ evs
    /\ Forall (fun e => ~ fatal_event e) evs.

Definition verdict {A : Type} (o : outcome A) (evs : list event) : Prop :=
  match o with
  | Returns _ _ => Forall (fun e => ~ fatal_event e) evs
  | Panics _ => Exists fatal_event evs
  | Undefined _ => False
  end.

Definition guarded {A : Type} (m : M A) : Prop :=
  forall w, exists evs,
    w_trace (final_world (m w)) = w_trace w ++ evs /\ verdict (m w) evs.

Definition uid_path : string := "/mnt/etc/tng-base-uid".

Definition uid_content : list ascii := chars ("AB1234" ++ newline).

(** /mnt/etc/tng-base-uid is up to date, and the read of [update_file]
    delivers three of its seven bytes. *)
Definition short_read_world : world :=
  world_of {[ uid_path := target_file uid_content ]} [NoFault; NoFault; Short 3].

(** /mnt/etc/tng-base-uid is up to date and every call succeeds. *)
Definition up_to_date_world : world :=
  world_of {[ uid_path := target_file uid_content ]} [].

(** ** Reading the shadow file *)

(** [buffer] holds, after [before], the entry of the account with the
    locked hash [hash], and this is the entry [replace_password] finds. *)
Definition locked_entry (buffer before hash rest : list ascii) : Prop :=
  buffer = before ++ chars "tng:" ++ "!"%char :: hash ++ ":"%char :: rest
  /\ find_entry buffer = Some (length before)
  /\ Forall (fun c => c <> ":"%char /\ c <> NUL) hash.

(** The salt the code cuts out of the hash ("get salt from encrypted
    section"), for a hash of two characters or more. *)
Definition salt_of (encrypted : list ascii) : list ascii :=
  if negb (Ascii.eqb (char_at encrypted 0) "$") then take 2 encrypted
  else match strrchr encrypted "$" with
       | Some encrypted_prefix_end => take encrypted_prefix_end encrypted
       | None => []
       end.

(** The calls of [crypt_r] in a trace, each with key and salt. *)
Definition crypt_calls (t : list event) : list (list ascii * list ascii) :=
  flat_map (fun e => match ev_call e with
                     | LibCrypt key salt => [(key, salt)]
                     | _ => []
                     end) t.

(** Calls and log lines of [replace_password] up to "find entry for
    account", and of its two file writes, when every call succeeds. *)
Definition shadow_read_trace (size : nat) : list event :=
  [Event (SysOpen SHADOW_PATH) 0; Event (SysFstat SHADOW_PATH) 0;
   Event (SysMalloc (size + 1)) 1; Event (SysRead SHADOW_PATH size) (Z.of_nat size);
   Event (SysClose SHADOW_PATH) 0].

Definition shadow_read_log : list line :=
  [print_line "opening %s" [AStr SHADOW_PATH]; print_line "reading %s" [AStr SHADOW_PATH];
   print_line "closing %s" [AStr SHADOW_PATH]].

Definition created (path : string) (st : file) : list event :=
  [Event (SysCreate path (st_mode st)) 0;
   Event (SysFchown path (st_uid st) (st_gid st)) 0;
   Event (SysFchmod path (st_mode st)) 0].

Definition written (path : string) (buffer : list ascii) : event :=
  Event (SysWrite path buffer) (Z.of_nat (length buffer)).

Definition shadow_backup_trace (st : file) (buffer : list ascii) : list event :=
  created SHADOW_BACKUP_PATH st
  ++ [written SHADOW_BACKUP_PATH buffer;
      Event (SysFsync SHADOW_BACKUP_PATH) 0; Event (SysClose SHADOW_BACKUP_PATH) 0].

Definition shadow_replace_trace (st : file) (head password tail : list ascii)
  : list event :=
  created SHADOW_TMP_PATH st
  ++ [written SHADOW_TMP_PATH head; written SHADOW_TMP_PATH password;
      written SHADOW_TMP_PATH tail;
      Event (SysFsync SHADOW_TMP_PATH) 0; Event (SysClose SHADOW_TMP_PATH) 0;
      Event (SysRename SHADOW_TMP_PATH SHADOW_PATH) 0].

(** The password of the record, as [strlen] delimits it. *)
Definition record_password (g : globals) : list ascii :=
  cstr (map char_of_byte (encrypted_password (data_v1 (eeprom g)))).

(** Mode, owner and content of a file [create_file] made after [st]. *)
Definition copy_of (st : file) (content : list ascii) : file :=
  File (Z.lor S_IFREG (Z.land (st_mode st) permission_bits)) (st_uid st) (st_gid st)
    content.

(** What "create /etc/shadow-" and "create /etc/shadow+" leave when every
    call succeeds. *)
Definition migrated (fs : gmap string file) (st : file) (buffer replacement : list ascii)
  : gmap string file :=
  <[SHADOW_PATH := copy_of st replacement]>
    (delete SHADOW_TMP_PATH
       (<[SHADOW_TMP_PATH := copy_of st replacement]>
          (<[SHADOW_BACKUP_PATH := copy_of st buffer]> fs))).

Definition shadow_world (content : string) : world :=
  world_of {[ SHADOW_PATH := shadow_file content ]} [].

Definition crypt_event (crypt_r : list ascii -> list ascii -> option (list ascii))
    (salt : list ascii) : event :=
  Event (LibCrypt (chars DEFAULT_PASSWORD) salt)
    (match crypt_r (chars DEFAULT_PASSWORD) salt with Some _ => 1 | None => 0 end).

(** The parts of [shadow_default] and of [shadow_short]. *)
Definition sample_before : list ascii := chars ("root:*:18000:0:99999:7:::" ++ newline).
Definition sample_hash : list ascii := chars "$6$abc$hcba6defa".
Definition sample_rest : list ascii := chars ("18000:0:99999:7:::" ++ newline).

(** A locked hash that fills the array [encrypted] of [replace_password]. *)
Definition full_hash : list ascii := replicate SHADOW_ENCRYPTED_LENGTH "x"%char.

Definition shadow_full : string :=
  "tng:!" ++ string_of_list_ascii full_hash ++ ":18000:0:99999:7:::" ++ newline.

(** ** The record on the device

    What [read_eeprom] accepts, said of the device: [device_image] is the
    local union after [count] payload transfers, [device_stream] the bytes
    the checksum runs over (data_length, data_version, payload). *)

Definition device_image (bus : i2c_bus) (u0 : memory) (count : nat) : memory :=
  fun i => if (i <? Nat.min (sizeof_header + count) sizeof_eeprom)%nat
           then device_byte bus i else u0 i.

Definition device_stream (bus : i2c_bus) (count : nat) : list Z :=
  map (device_byte bus) (seq 8 (3 + count)).

Definition transfers_succeed (bus : i2c_bus) (count : nat) : Prop :=
  forall k, (k < count)%nat -> rx bus k <> None.

Record well_formed (bus : i2c_bus) (u0 : memory) : Prop := {
  wf_open : open_fails bus = false;
  wf_slave : slave_fails bus = false;
  wf_seek : seek_fails bus = false;
  wf_header : transfers_succeed bus sizeof_header;
  wf_magic :
    magic_number (header (overlay (device_image bus u0 0))) = EEPROM_MAGIC_NUMBER;
  wf_payload :
    transfers_succeed bus
      (sizeof_header
       + Z.to_nat (data_length (header (overlay (device_image bus u0 0)))));
  wf_checksum :
    checksum (header (overlay (device_image bus u0 0)))
    = crc32 (crc32 0 [])
        (device_stream bus
           (Z.to_nat (data_length (header (overlay (device_image bus u0 0))))));
  wf_version : 1 <= data_version (header (overlay (device_image bus u0 0)));
  wf_length :
    data_version (header (overlay (device_image bus u0 0))) = 1 ->
    Z.of_nat sizeof_data_v1 <= data_length (header (overlay (device_image bus u0 0)));
  wf_terminated :
    let d := data_v1 (overlay (device_image bus u0
                (Z.to_nat (data_length (header (overlay (device_image bus u0 0))))))) in
    last_char (uid d) = 0 /\ last_char (hostname d) = 0
    /\ last_char (encrypted_password d) = 0
}.

(** The same device with the byte at one address replaced. *)
Definition corrupt (bus : i2c_bus) (address : nat) (data : Z) : i2c_bus :=
  {| open_fails := open_fails bus; slave_fails := slave_fails bus;
     seek_fails := seek_fails bus;
     rx := fun k => if Nat.eqb k address then Some data else rx bus k |}.

(** ** Outcomes under arbitrary faults

    [ensures o Q P]: the outcome [o] is a return whose value and world
    satisfy [Q], or a panic whose world satisfies [P]. *)

Definition ensures {A : Type} (o : outcome A) (Q : A -> world -> Prop)
    (P : world -> Prop) : Prop :=
  match o with
  | Returns a w => Q a w
  | Panics w => P w
  | Undefined _ => False
  end.

(** [settles o Q F]: a return satisfies [Q]; the world in which the
    program panicked, or stored outside an array, satisfies [F]. *)
Definition settles {A : Type} (o : outcome A) (Q : A -> world -> Prop)
    (F : world -> Prop) : Prop :=
  match o with
  | Returns a w => Q a w
  | Panics w | Undefined w => F w
  end.

(** The section of [buffer] from offset [i] to offset [j] is a locked
    hash of the default password: a '!' at [i], the next ':' at [j], and
    between them what [crypt_r] makes of the default password under a salt
    cut from the front of the section. *)
Definition default_hash (crypt_r : list ascii -> list ascii -> option (list ascii))
    (buffer : list ascii) (i j : nat) : Prop :=
  char_at buffer i = "!"%char
  /\ (i <= j)%nat
  /\ strchr (drop i buffer) ":" = Some (j - i)%nat
  /\ exists salt_used crypt_result,
      crypt_r (chars DEFAULT_PASSWORD)
        (take salt_used (take (j - (i + 1)) (drop (i + 1) buffer)))
      = Some crypt_result
      /\ cstr crypt_result = cstr (take (j - (i + 1)) (drop (i + 1) buffer)).

(** The file systems [fs] and [fs'] agree outside the paths [ps]. *)
Definition same_outside (ps : list string) (fs fs' : gmap string file) : Prop :=
  forall p, p ∉ ps -> fs' !! p = fs !! p.

(** ** The identity files of [main]

    [printf]'s conversion [%0wX]: the digits of [x] in base 16, capitals,
    filled with zeros from the left to [width] characters. *)

Definition hex_digit (d : Z) : ascii :=
  nth (Z.to_nat d) (chars "0123456789ABCDEF") "0"%char.

Fixpoint hex_of (fuel : nat) (x : Z) : list ascii :=
  match fuel with
  | O => []
  | S fuel' =>
      if x <? 16 then [hex_digit x]
      else hex_of fuel' (x / 16) ++ [hex_digit (x mod 16)]
  end.

(** An [unsigned int] has eight digits at most. *)
Definition format_X (width : nat) (x : Z) : list ascii :=
  let digits := hex_of 8 x in
  replicate (width - length digits) "0"%char ++ digits.

Definition LF : ascii := "010"%char.

(** [snprintf(buffer, sizeof(buffer), ...)] with [char buffer[256]], and
    the content [main] passes on: [buffer] up to [strlen(buffer)]. *)
Definition snprintf_buffer (formatted : list ascii) : list ascii :=
  cstr (take 255 formatted).

(** "%04X-%02X-%02X\n" of the production date. *)
Definition production_date_line (date : Z) : list ascii :=
  format_X 4 (Z.shiftr date 16)
  ++ "-"%char :: format_X 2 (Z.land (Z.shiftr date 8) 0xFF)
  ++ "-"%char :: format_X 2 (Z.land date 0xFF)
  ++ [LF].

(** [%s] of a [char] array member: the characters before its first NUL;
    an array without one is read past its end. *)
Definition string_field (field : list Z) : M (list ascii) :=
  let s := map char_of_byte field in
  if (strlen s <? length s)%nat then ret (cstr s) else undefined.

Definition production_date_path : string := "/mnt/etc/tng-base-production-date".
Definition hostname_path : string := "/mnt/etc/tng-base-hostname".

(** "write /etc/tng-base-* files" *)
Definition update_identity_files (g : globals) : M unit :=
  if negb (eeprom_valid g) || (data_version (header (eeprom g)) <? 1) then
    error "required EEPROM data not available, skip updating /mnt/etc/tng-base-* files" []
  else
    print "updating /mnt/etc/tng-base-* files" [];;
    let d := data_v1 (eeprom g) in
    update_file production_date_path
      (snprintf_buffer (production_date_line (production_date d)));;
    do s <- string_field (uid d);
    update_file uid_path (snprintf_buffer (s ++ [LF]));;
    do s <- string_field (hostname d);
    update_file hostname_path (snprintf_buffer (s ++ [LF])).

(** The paths the block can touch. *)
Definition identity_paths : list string :=
  [production_date_path; tmp_path_of production_date_path;
   uid_path; tmp_path_of uid_path; hostname_path; tmp_path_of hostname_path].

(** What the three files hold for a record. *)
Definition identity_files (d : EEPROM_DataV1) (fs : gmap string file) : Prop :=
  fs !! production_date_path
  = Some (target_file (production_date_line (production_date d)))
  /\ fs !! uid_path = Some (target_file (cstr (map char_of_byte (uid d)) ++ [LF]))
  /\ fs !! hostname_path
     = Some (target_file (cstr (map char_of_byte (hostname d)) ++ [LF])).

(** The last [width] digits of [x] in base 16. *)
Fixpoint fixed_hex (width : nat) (x : Z) : list ascii :=
  match width with
  | O => []
  | S width' => fixed_hex width' (x / 16) ++ [hex_digit (x mod 16)]
  end.

(** The digit of [4 * k] to [4 * k + 3] of [x]. *)
Definition nibble (x : Z) (k : Z) : Z := Z.land (Z.shiftr x (4 * k)) 0xF.

(** ** [configure_ethernet]

    The system is an input: the result of [opendir] and [readdir], whether
    the two sockets open, and what the k-th SIOCETHTOOL request returns. *)

Definition ETHERNET_DEVICE_PATH : string :=
  "/sys/devices/platform/soc/3f980000.usb/usb1/1-1/1-1.7/1-1.7:1.0/".
Definition DT_DIR : Z := 4.            (* dirent.h *)
Definition IFNAMSIZ : nat := 16.       (* net/if.h *)
Definition ETHTOOL_GEEPROM : Z := 0xB. (* linux/ethtool.h *)
Definition ETHTOOL_SEEPROM : Z := 0xC.
Definition AF_INET : Z := 2.
Definition AF_NETLINK : Z := 16.

Record ethtool_eeprom : Type := {
  ee_cmd : Z;
  ee_magic : Z;
  ee_offset : Z;
  ee_len : Z;
  ee_data : list Z
}.

(** [opendir_result]: [None] when [opendir] returns NULL, [Some None] when
    [readdir] does, else [d_type] and [d_name] of the first entry.
    [ethtool k]: [None] when the k-th request fails, else the bytes the
    driver stores in [u.eeprom.data]. *)
Record ethernet_device : Type := {
  opendir_result : option (option (Z * list ascii));
  inet_socket : bool;
  netlink_socket : bool;
  ethtool : nat -> option (list Z)
}.

Inductive ethernet_event : Type :=
| EthOpendir
| EthReaddir
| EthClosedir
| EthSocket (domain : Z)
| EthIoctl (ifr_name : list ascii) (request : ethtool_eeprom)
| EthUsleep (usec : Z)
| EthClose.

Record ethernet_run : Type := {
  er_returns : bool;   (* [false]: [panic] was called *)
  er_log : list line;
  er_trace : list ethernet_event
}.

(** [u.eeprom.data] after a request that was answered with [answer]: the
    union was cleared before. *)
Definition ethtool_data (answer : list Z) : list Z :=
  pad ETHERNET_CONFIG_LENGTH (map (fun b => Z.land b 0xFF) answer).

Definition geeprom (len : Z) : ethtool_eeprom :=
  {| ee_cmd := ETHTOOL_GEEPROM; ee_magic := 0; ee_offset := 0; ee_len := len;
     ee_data := repeat 0 ETHERNET_CONFIG_LENGTH |}.

Definition seeprom (config : list Z) : ethtool_eeprom :=
  {| ee_cmd := ETHTOOL_SEEPROM; ee_magic := 0x7500; ee_offset := 0;
     ee_len := Z.of_nat ETHERNET_CONFIG_LENGTH; ee_data := config |}.

(** The part of [configure_ethernet] that talks to the controller, from
    "check if config is already set" on. *)
Definition configure_ethernet_eeprom (dev : ethernet_device) (g : globals)
    (ifr_name : list ascii) (log : list line) (trace : list ethernet_event)
  : ethernet_run :=
  let config := ethernet_config (data_v1 (eeprom g)) in
  let log := log ++ [print_line "reading first Ethernet config byte" []] in
  let trace := trace ++ [EthIoctl ifr_name (geeprom 1)] in
  match ethtool dev 0 with
  | None =>
      {| er_returns := false;
         er_log := log ++ [panic_line "could not read first Ethernet config byte: %s (%d)" []];
         er_trace := trace |}
  | Some answer =>
      if nth 0 (ethtool_data answer) 0 =? 0xA5 then
        {| er_returns := true;
           er_log := log ++ [print_line
                               "Ethernet already configured, skipping Ethernet configuration"
                               []];
           er_trace := trace ++ [EthClose] |}
      else
        let log := log ++ [print_line "writing Ethernet config" []] in
        let trace := trace ++ [EthIoctl ifr_name (seeprom config)] in
        match ethtool dev 1 with
        | None =>
            {| er_returns := false;
               er_log := log ++ [panic_line "could not write Ethernet config: %s (%d)" []];
               er_trace := trace |}
        | Some _ =>
            let trace := trace ++ [EthUsleep (100 * 1000)] in
            let log := log ++ [print_line "validating Ethernet config" []] in
            let trace :=
              trace ++ [EthIoctl ifr_name (geeprom (Z.of_nat ETHERNET_CONFIG_LENGTH))] in
            match ethtool dev 2 with
            | None =>
                {| er_returns := false;
                   er_log := log ++ [panic_line "could not read Ethernet config: %s (%d)" []];
                   er_trace := trace |}
            | Some answer =>
                if negb (bool_decide (ethtool_data answer = config)) then
                  {| er_returns := false;
                     er_log := log ++ [panic_line "Ethernet config validation failed" []];
                     er_trace := trace |}
                else
                  {| er_returns := true; er_log := log; er_trace := trace ++ [EthClose] |}
            end
        end
  end.

Definition configure_ethernet (dev : ethernet_device) (g : globals) : ethernet_run :=
  if negb (eeprom_valid g) || (data_version (header (eeprom g)) <? 1) then
    {| er_returns := true;
       er_log := [error_line
                    "required EEPROM data not available, skipping Ethernet configuration" []];
       er_trace := [] |}
  else
    let log := [print_line "looking up Ethernet device name" []] in
    match opendir_result dev with
    | None =>
        {| er_returns := false;
           er_log := log ++ [panic_line
                               "could not open net/ subdirectory of Ethernet device %s: %s (%d)"
                               [AStr ETHERNET_DEVICE_PATH]];
           er_trace := [EthOpendir] |}
    | Some None =>
        {| er_returns := false;
           er_log := log ++ [panic_line
                               "could not read net/ subdirectory of Ethernet device %s: %s (%d)"
                               [AStr ETHERNET_DEVICE_PATH]];
           er_trace := [EthOpendir; EthReaddir] |}
    | Some (Some (d_type, d_name)) =>
        let name := string_of_list_ascii (cstr d_name) in
        if negb (d_type =? DT_DIR) then
          {| er_returns := false;
             er_log := log ++ [panic_line
                                 "directory entry %s of %snet/ has unexpected type: %d"
                                 [AStr name; AStr ETHERNET_DEVICE_PATH; ANum d_type]];
             er_trace := [EthOpendir; EthReaddir] |}
        else if (IFNAMSIZ <=? strlen d_name)%nat then
          {| er_returns := false;
             er_log := log ++ [panic_line "Ethernet device name %s is too long: %u > %u"
                                 [AStr name; ANum (Z.of_nat (strlen d_name));
                                  ANum (Z.of_nat (IFNAMSIZ - 1))]];
             er_trace := [EthOpendir; EthReaddir] |}
        else
          let log := log ++ [print_line "found Ethernet device name: %s" [AStr name];
                             print_line "opening ethtool control socket" []] in
          let trace := [EthOpendir; EthReaddir; EthClosedir; EthSocket AF_INET] in
          if inet_socket dev then
            configure_ethernet_eeprom dev g (cstr d_name) log trace
          else if netlink_socket dev then
            configure_ethernet_eeprom dev g (cstr d_name) log
              (trace ++ [EthSocket AF_NETLINK])
          else
            {| er_returns := false;
               er_log := log ++ [panic_line
                                   "could not open ethtool control socket: %s (%d)" []];
               er_trace := trace ++ [EthSocket AF_NETLINK] |}
    end.

(** The requests of a run that store to the EEPROM of the controller. *)
Definition eeprom_writes (trace : list ethernet_event) : list ethtool_eeprom :=
  flat_map (fun e => match e with
                     | EthIoctl _ request =>
                         if ee_cmd request =? ETHTOOL_SEEPROM then [request] else []
                     | _ => []
                     end) trace.

(** A controller whose EEPROM is empty and takes what is written. *)
Definition blank_controller (config : list Z) : ethernet_device :=
  {| opendir_result := Some (Some (DT_DIR, chars "eth0"));
     inet_socket := true; netlink_socket := true;
     ethtool := fun k => match k with
                         | O => Some [0xFF]
                         | 1%nat => Some []
                         | _ => Some config
                         end |}.

(** ** [rtc_hctosys]

    The system is an input: whether /dev/rtc0 opens, what the k-th
    RTC_RD_TIME request and the k-th call of [time] return, the functions
    [timegm] and [localtime_r] of the C library, the variable [timezone]
    and whether [settimeofday] succeeds.  [time_t] is not bounded. *)

Definition RTC_PATH : string := "/dev/rtc0".

Record tm : Type := {
  tm_sec : Z;
  tm_min : Z;
  tm_hour : Z;
  tm_mday : Z;
  tm_mon : Z;
  tm_year : Z;
  tm_isdst : Z
}.

Record rtc_system : Type := {
  rtc_opens : bool;
  rtc_rd_time : nat -> option tm;
  time_null : nat -> Z;
  timegm : tm -> Z;
  localtime_r : Z -> tm;
  timezone : Z;
  settimeofday_fails : bool
}.

Inductive rtc_result : Type :=
| RtcGivesUp                          (* an error was logged, the clock is not set *)
| RtcSets (tv_sec minuteswest : Z)    (* [settimeofday] succeeded *)
| RtcPolling.                         (* the fuel is used up inside the loop *)

Record rtc_run : Type := {
  rr_result : rtc_result;
  rr_log : list line;
  rr_reads : nat    (* RTC_RD_TIME requests sent *)
}.

Inductive rtc_wait_result : Type :=
| WaitTicked (hc_now : tm) (reads : nat)
| WaitFailed (reads : nat)
| WaitStuck (reads : nat)
| WaitPolling.

(** The loop [while (true)]: [reads] requests were sent and [polls] calls
    of [time] were made before this iteration. *)
Fixpoint rtc_wait (sys : rtc_system) (fuel reads polls : nat) (hc_start : tm)
    (timeout_start : Z) : rtc_wait_result :=
  match fuel with
  | O => WaitPolling
  | S fuel' =>
      match rtc_rd_time sys reads with
      | None => WaitFailed (S reads)
      | Some hc_now =>
          if negb (tm_sec hc_start =? tm_sec hc_now) then WaitTicked hc_now (S reads)
          else
            let timeout_now := time_null sys polls in
            if 3 <? timeout_now - timeout_start then WaitStuck (S reads)
            else rtc_wait sys fuel' (S reads) (S polls) hc_start timeout_start
      end
  end.

(** [hc_now.tm_isdst = -1]: daylight saving time is undefined. *)
Definition undefined_dst (t : tm) : tm :=
  {| tm_sec := tm_sec t; tm_min := tm_min t; tm_hour := tm_hour t;
     tm_mday := tm_mday t; tm_mon := tm_mon t; tm_year := tm_year t;
     tm_isdst := -1 |}.

Definition rtc_date_args (t : tm) : list arg :=
  [ANum (tm_year t + 1900); ANum (tm_mon t + 1); ANum (tm_mday t);
   ANum (tm_hour t); ANum (tm_min t); ANum (tm_sec t)].

(** [minuteswest] as the program computes it; the division of C truncates. *)
Definition minutes_west (sys : rtc_system) (tv_sec : Z) : Z :=
  let minuteswest := Z.quot (timezone sys) 60 in
  if negb (tm_isdst (localtime_r sys tv_sec) =? 0) then minuteswest - 60
  else minuteswest.

Definition rtc_read_error : line := error_line "could not read RTC time: %s (%d)" [].

Definition rtc_hctosys (sys : rtc_system) (fuel : nat) : rtc_run :=
  if negb (rtc_opens sys) then
    {| rr_result := RtcGivesUp;
       rr_log := [error_line "could not open %s for reading: %s (%d)" [AStr RTC_PATH]];
       rr_reads := 0 |}
  else
    match rtc_rd_time sys 0 with
    | None => {| rr_result := RtcGivesUp; rr_log := [rtc_read_error]; rr_reads := 1 |}
    | Some hc_start =>
        let timeout_start := time_null sys 0 in
        match rtc_wait sys fuel 1 1 hc_start timeout_start with
        | WaitPolling => {| rr_result := RtcPolling; rr_log := []; rr_reads := S fuel |}
        | WaitFailed reads =>
            {| rr_result := RtcGivesUp; rr_log := [rtc_read_error]; rr_reads := reads |}
        | WaitStuck reads =>
            {| rr_result := RtcGivesUp;
               rr_log := [error_line "RTC time seems to be stuck, cannot set system time" []];
               rr_reads := reads |}
        | WaitTicked hc_now reads =>
            let hc_now := undefined_dst hc_now in
            let tv_sec := timegm sys hc_now in
            if tv_sec <? 0 then
              {| rr_result := RtcGivesUp;
                 rr_log := [error_line
                              "could not convert RTC time %d-%02d-%02d %02d:%02d:%02d UTC to system time: %s (%d)"
                              (rtc_date_args hc_now)];
                 rr_reads := reads |}
            else
              let sys_now_local := localtime_r sys tv_sec in
              let minuteswest := minutes_west sys tv_sec in
              let args :=
                rtc_date_args hc_now ++ rtc_date_args sys_now_local
                ++ [ANum (Z.quot (- minuteswest) 60);
                    ANum (Z.rem (Z.abs minuteswest) 60)] in
              if settimeofday_fails sys then
                {| rr_result := RtcGivesUp;
                   rr_log := [error_line
                                "could not use RTC time %d-%02d-%02d %02d:%02d:%02d UTC as system time %d-%02d-%02d %02d:%02d:%02d %+03d:%02d: %s (%d)"
                                args];
                   rr_reads := reads |}
              else
                {| rr_result := RtcSets tv_sec minuteswest;
                   rr_log := [print_line
                                "using RTC time %d-%02d-%02d %02d:%02d:%02d UTC as system time %d-%02d-%02d %02d:%02d:%02d %+03d:%02d"
                                args];
                   rr_reads := reads |}
        end
    end.

(** An RTC that shows the same second [still] times and then the next. *)
Definition sample_tm (sec : Z) : tm :=
  {| tm_sec := sec; tm_min := 30; tm_hour := 12; tm_mday := 27; tm_mon := 7;
     tm_year := 120; tm_isdst := 0 |}.

Definition ticking_rtc (still : nat) : rtc_system :=
  {| rtc_opens := true;
     rtc_rd_time := fun k => Some (sample_tm (if (k <=? still)%nat then 41 else 42));
     time_null := fun _ => 100;
     timegm := fun t => 1598531400 + tm_sec t;
     localtime_r := fun _ => sample_tm 0;
     timezone := -3600;
     settimeofday_fails := false |}.

(** An RTC whose seconds do not change, beside a system clock that runs. *)
Definition stuck_rtc : rtc_system :=
  {| rtc_opens := true;
     rtc_rd_time := fun _ => Some (sample_tm 41);
     time_null := fun k => Z.of_nat k;
     timegm := fun t => 1598531400 + tm_sec t;
     localtime_r := fun _ => sample_tm 0;
     timezone := 0;
     settimeofday_fails := false |}.

(** ** [modprobe]

    The system is an input: the result of [uname] and the kernel release,
    whether [kmod_new] returns a context, the return code of the lookup,
    and for each module of the list it delivers the return code of
    [kmod_module_probe_insert_module]. *)

Record kmod_system : Type := {
  uname_rc : Z;
  uname_release : string;
  kmod_new_null : bool;
  lookup_rc : Z;
  lookup_list : list Z
}.

Inductive kmod_event : Type :=
| KmodNew (base : string)
| KmodLookup (name : string)
| KmodProbe (index : nat)
| KmodUnref (index : nat)
| KmodUnrefList.

Record kmod_run : Type := {
  kr_returns : bool;   (* [false]: [panic] was called *)
  kr_log : list line;
  kr_trace : list kmod_event
}.

(** [kmod_list_foreach]: the modules from [index] on. *)
Fixpoint modprobe_list (name : string) (modules : list Z) (index : nat)
    (log : list line) (trace : list kmod_event) : kmod_run :=
  match modules with
  | [] => {| kr_returns := true; kr_log := log; kr_trace := trace ++ [KmodUnrefList] |}
  | rc :: modules' =>
      let trace := trace ++ [KmodProbe index] in
      if rc <? 0 then
        {| kr_returns := false;
           kr_log := log ++ [panic_line "could not load kernel module %s: %s (%d)"
                               [AStr name; ANum (- rc)]];
           kr_trace := trace |}
      else modprobe_list name modules' (S index) log (trace ++ [KmodUnref index])
  end.

Definition modprobe (sys : kmod_system) (name : string) : kmod_run :=
  let log := [print_line "loading kernel module %s" [AStr name]] in
  if uname_rc sys <? 0 then
    {| kr_returns := false;
       kr_log := log ++ [panic_line "could not get kernel release: %s (%d)" []];
       kr_trace := [] |}
  else
    (* snprintf(base, sizeof(base), ...) with char base[128] *)
    let base := String.substring 0 127 ("/mnt/lib/modules/" ++ uname_release sys) in
    let trace := [KmodNew base] in
    if kmod_new_null sys then
      {| kr_returns := false;
         kr_log := log ++ [panic_line "could not create kmod context" []];
         kr_trace := trace |}
    else
      let trace := trace ++ [KmodLookup name] in
      if lookup_rc sys <? 0 then
        {| kr_returns := false;
           kr_log := log ++ [panic_line "could not lookup kernel module %s: %s (%d)"
                               [AStr name; ANum (- lookup_rc sys)]];
           kr_trace := trace |}
      else
        match lookup_list sys with
        | [] =>
            {| kr_returns := false;
               kr_log := log ++ [panic_line "kernel module %s is missing" [AStr name]];
               kr_trace := trace |}
        | modules => modprobe_list name modules 0 log trace
        end.

(** The modules a run has tried to insert, and those it has released. *)
Definition probed (trace : list kmod_event) : list nat :=
  flat_map (fun e => match e with KmodProbe index => [index] | _ => [] end) trace.

Definition released (trace : list kmod_event) : list nat :=
  flat_map (fun e => match e with KmodUnref index => [index] | _ => [] end) trace.

(** A kernel whose lookup delivers the module and two modules it depends
    on, the second of which cannot be inserted. *)
Definition broken_dependency : kmod_system :=
  {| uname_rc := 0; uname_release := "4.19.97-v7+"; kmod_new_null := false;
     lookup_rc := 0; lookup_list := [0; -8; 0] |}.

(* ===================================================================== *)
(** * Part II: properties                                                 *)
(* ===================================================================== *)

Example crc32_check_value :
  crc32 (crc32 0 []) [49; 50; 51; 52; 53; 54; 55; 56; 57] = 0xCBF43926.
Proof. vm_compute. reflexivity. Qed.

(** ** Arithmetic of the checksum *)

#[global] Arguments crc_byte : simpl never.
#[global] Arguments crc32 : simpl never.
#[global] Arguments u32 : simpl never.


Lemma lxor_below (n a b : Z) :
  0 < n -> 0 <= a < 2 ^ n -> 0 <= b < 2 ^ n -> 0 <= Z.lxor a b < 2 ^ n.
Proof.
  intros Hn Ha Hb.
  assert (Hx : 0 <= Z.lxor a b) by (apply Z.lxor_nonneg; lia).
  split; [exact Hx|].
  destruct (Z.eq_dec (Z.lxor a b) 0) as [->|Hne]; [apply Z.pow_pos_nonneg; lia|].
  apply Z.log2_lt_pow2; [lia|].
  pose proof (Z.log2_lxor a b ltac:(lia) ltac:(lia)) as Hl.
  assert (Z.log2 a < n).
  { destruct (Z.eq_dec a 0) as [->|]; [simpl|apply Z.log2_lt_pow2]; lia. }
  assert (Z.log2 b < n).
  { destruct (Z.eq_dec b 0) as [->|]; [simpl|apply Z.log2_lt_pow2]; lia. }
  lia.
Qed.

Lemma is_u32_lxor a b : is_u32 a -> is_u32 b -> is_u32 (Z.lxor a b).
Proof. apply lxor_below. lia. Qed.

Lemma is_u32_byte b : is_byte b -> is_u32 b.
Proof. unfold is_byte, is_u32. lia. Qed.

Lemma is_u32_crc_shift c : is_u32 c -> is_u32 (crc_shift c).
Proof.
  intros Hc. unfold crc_shift. apply is_u32_lxor.
  - unfold is_u32 in *. rewrite Z.shiftr_div_pow2 by lia.
    change (2 ^ 1) with 2. split; [apply Z.div_pos; lia|].
    apply Z.div_lt_upper_bound; lia.
  - destruct (Z.testbit c 0); unfold is_u32, crc_poly; lia.
Qed.

Lemma is_u32_crc_byte c b : is_u32 c -> is_byte b -> is_u32 (crc_byte c b).
Proof.
  intros Hc Hb. unfold crc_byte.
  assert (H0 : is_u32 (Z.lxor c b)) by (apply is_u32_lxor; auto using is_u32_byte).
  generalize 8%nat. intros n.
  induction n as [|n IH]; cbn [Nat.iter nat_rect]; auto using is_u32_crc_shift.
Qed.

Lemma fold_left_preserves {A B : Type} (P : A -> Prop) (Q : B -> Prop)
    (f : A -> B -> A) :
  (forall a b, P a -> Q b -> P (f a b)) ->
  forall (l : list B) (a : A), P a -> Forall Q l -> P (fold_left f l a).
Proof.
  intros Hf l. induction l as [|b l IH]; intros a Ha Hl; cbn [fold_left]; [exact Ha|].
  inversion Hl; subst. apply IH; auto.
Qed.

Lemma is_u32_fold_crc_byte buf c :
  is_u32 c -> Forall is_byte buf -> is_u32 (fold_left crc_byte buf c).
Proof. apply fold_left_preserves. exact is_u32_crc_byte. Qed.

Lemma land_mask32 x : is_u32 x -> Z.land x mask32 = x.
Proof.
  intros Hx. change mask32 with (Z.ones 32).
  rewrite Z.land_ones by lia. apply Z.mod_small. exact Hx.
Qed.

Lemma is_u32_mask32 : is_u32 mask32.
Proof. unfold is_u32, mask32. lia. Qed.

Lemma is_u32_crc_start c : is_u32 (Z.lxor (Z.land c mask32) mask32).
Proof.
  apply is_u32_lxor; [|apply is_u32_mask32].
  change mask32 with (Z.ones 32). rewrite Z.land_ones by lia.
  apply Z.mod_pos_bound. lia.
Qed.

Lemma is_u32_crc32 c buf : Forall is_byte buf -> is_u32 (crc32 c buf).
Proof.
  intros Hb. unfold crc32. apply is_u32_lxor; [|apply is_u32_mask32].
  apply is_u32_fold_crc_byte; [apply is_u32_crc_start|exact Hb].
Qed.

Lemma u32_small x : is_u32 x -> u32 x = x.
Proof. intros Hx. unfold u32. apply Z.mod_small. exact Hx. Qed.

(** Feeding a stream to [crc32] in pieces gives the checksum of the whole. *)
Lemma crc32_app c buf1 buf2 :
  Forall is_byte buf1 ->
  crc32 (crc32 c buf1) buf2 = crc32 c (buf1 ++ buf2).
Proof.
  intros H1. unfold crc32 at 1 3. rewrite fold_left_app. do 2 f_equal.
  pose proof (is_u32_crc32 c buf1 H1) as Hr.
  rewrite land_mask32 by exact Hr.
  unfold crc32. rewrite Z.lxor_assoc, Z.lxor_nilpotent, Z.lxor_0_r. reflexivity.
Qed.

Lemma fold_left_step {A B : Type} (f : A -> B -> A) (b : B) (l : list B) (a : A) :
  fold_left f (b :: l) a = fold_left f l (f a b).
Proof. reflexivity. Qed.

Lemma crc32_streamed c buf1 buf2 :
  Forall is_byte buf1 -> Forall is_byte buf2 ->
  fold_left (fun sum byte => u32 (crc32 sum [byte])) buf2 (crc32 c buf1)
  = crc32 c (buf1 ++ buf2).
Proof.
  revert buf1. induction buf2 as [|b buf2 IH]; intros buf1 H1 H2.
  - rewrite app_nil_r. reflexivity.
  - rewrite fold_left_step. inversion H2; subst. rewrite crc32_app by exact H1.
    rewrite u32_small by (apply is_u32_crc32; apply Forall_app; auto).
    rewrite IH by (try apply Forall_app; auto).
    rewrite <- app_assoc. reflexivity.
Qed.

(** ** The read loops of [read_eeprom] *)

#[global] Arguments overlay : simpl never.
#[global] Arguments bytes_at : simpl never.

Lemma device_byte_is_byte bus i : is_byte (device_byte bus i).
Proof.
  unfold device_byte, i2c_read8, is_byte. destruct (rx bus i) as [data|]; [|lia].
  change 0xFF with (Z.ones 8). rewrite Z.land_ones by lia.
  apply Z.mod_pos_bound. lia.
Qed.

Ltac bytes_ok :=
  repeat first [ apply List.Forall_nil | apply List.Forall_cons
               | assumption | apply device_byte_is_byte ].

Lemma Forall_device_bytes bus (l : list nat) : Forall is_byte (map (device_byte bus) l).
Proof.
  apply List.Forall_forall. intros b Hb.
  apply in_map_iff in Hb as (i & <- & _). apply device_byte_is_byte.
Qed.

Lemma i2c_read8_device_byte bus k byte :
  i2c_read8 bus k = Some byte -> device_byte bus k = byte /\ rx bus k <> None.
Proof.
  unfold device_byte. intros H. rewrite H. split; [reflexivity|].
  intros Hn. unfold i2c_read8 in H. rewrite Hn in H. discriminate.
Qed.

Lemma bytes_at_ext (u u' : memory) offset count :
  (forall i, (offset <= i < offset + count)%nat -> u i = u' i) ->
  bytes_at u offset count = bytes_at u' offset count.
Proof.
  intros H. unfold bytes_at. apply map_ext_in. intros i Hi.
  apply in_seq in Hi. apply H. lia.
Qed.

Lemma header_overlay_ext (u u' : memory) :
  (forall i, (i < sizeof_header)%nat -> u i = u' i) ->
  header (overlay u) = header (overlay u').
Proof.
  intros H. unfold overlay. cbn [header].
  f_equal; f_equal; apply bytes_at_ext; intros i Hi; apply H;
    unfold sizeof_header; lia.
Qed.

Lemma overlay_ext (u u' : memory) :
  (forall i, (i < sizeof_eeprom)%nat -> u i = u' i) ->
  overlay u = overlay u'.
Proof.
  intros H. unfold overlay.
  repeat match goal with
         | |- context [bytes_at u ?o ?c] =>
             rewrite (bytes_at_ext u u' o c)
               by (intros i Hi; apply H;
                   unfold sizeof_eeprom, sizeof_header, sizeof_data_v1, sizeof_uid,
                     sizeof_hostname, sizeof_encrypted_password,
                     ETHERNET_CONFIG_LENGTH in *; lia)
         end.
  reflexivity.
Qed.

Lemma read_header_inr bus count :
  forall address u u',
    read_header bus count address u = inr u' ->
    (forall i, (address <= i < address + count)%nat -> rx bus i <> None) /\
    (forall i, u' i = if (address <=? i)%nat && (i <? address + count)%nat
                      then device_byte bus i else u i).
Proof.
  induction count as [|count IH]; intros address u u' H; cbn [read_header] in H.
  - injection H as <-. split; [lia|]. intros i.
    destruct (Nat.leb_spec address i), (Nat.ltb_spec i (address + 0)); cbn; auto; lia.
  - destruct (i2c_read8 bus address) as [byte|] eqn:Hb; [|discriminate].
    apply i2c_read8_device_byte in Hb as [Hb Hrx].
    apply IH in H as [H1 H2]. split.
    + intros i Hi. destruct (Nat.eq_dec i address) as [->|]; [exact Hrx|apply H1; lia].
    + intros i. rewrite H2. unfold upd.
      destruct (Nat.leb_spec (S address) i), (Nat.ltb_spec i (S address + count)),
        (Nat.leb_spec address i), (Nat.ltb_spec i (address + S count)),
        (Nat.eqb_spec i address); cbn; subst; auto; lia.
Qed.

Lemma read_data_inr bus count :
  forall address u sum u' sum',
    read_data bus count address u sum = inr (u', sum') ->
    (forall i, (address <= i < address + count)%nat -> rx bus i <> None) /\
    (forall i, u' i = if (address <=? i)%nat && (i <? address + count)%nat
                         && (i <? sizeof_eeprom)%nat
                      then device_byte bus i else u i) /\
    sum' = fold_left (fun sum byte => u32 (crc32 sum [byte]))
             (map (device_byte bus) (seq address count)) sum.
Proof.
  induction count as [|count IH]; intros address u sum u' sum' H; cbn [read_data] in H.
  - injection H as <- <-. split; [lia|]. split; [|reflexivity]. intros i.
    destruct (Nat.leb_spec address i), (Nat.ltb_spec i (address + 0)); cbn; auto; lia.
  - destruct (i2c_read8 bus address) as [byte|] eqn:Hb; [|discriminate].
    apply i2c_read8_device_byte in Hb as [Hb Hrx].
    apply IH in H as (H1 & H2 & H3). split; [|split].
    + intros i Hi. destruct (Nat.eq_dec i address) as [->|]; [exact Hrx|apply H1; lia].
    + intros i. rewrite H2.
      destruct (Nat.leb_spec (S address) i), (Nat.ltb_spec i (S address + count)),
        (Nat.leb_spec address i), (Nat.ltb_spec i (address + S count)),
        (Nat.ltb_spec i sizeof_eeprom), (Nat.ltb_spec address sizeof_eeprom);
        cbn [andb]; unfold upd; try lia; auto;
        destruct (Nat.eqb_spec i address); subst; auto; lia.
    + rewrite H3. cbn [seq map]. rewrite fold_left_step, Hb. reflexivity.
Qed.

(** The checksum [read_eeprom] starts the data loop with. *)
Lemma initial_sum_eq (b8 b9 b10 : Z) :
  is_byte b8 -> is_byte b9 -> is_byte b10 ->
  u32 (crc32 (u32 (crc32 (u32 (crc32 0 [])) [b8; b9])) [b10])
  = crc32 (crc32 0 []) [b8; b9; b10].
Proof.
  intros H8 H9 H10.
  rewrite (u32_small (crc32 0 [])) by (apply is_u32_crc32; bytes_ok).
  rewrite (u32_small (crc32 _ [b8; b9])) by (apply is_u32_crc32; bytes_ok).
  rewrite crc32_app by bytes_ok.
  apply u32_small, is_u32_crc32. bytes_ok.
Qed.

(** ** [read_eeprom]: the two ways it ends *)

Ltac rejected := left; split; reflexivity.

Lemma read_eeprom_cases bus u0 g :
  (eeprom_valid (read_eeprom bus u0 g).1 = false
   /\ eeprom (read_eeprom bus u0 g).1 = eeprom g)
  \/ exists u1 u2, accepted bus u0 (read_eeprom bus u0 g).1 u1 u2.
Proof.
  unfold read_eeprom.
  destruct (open_fails bus); [rejected|].
  destruct (slave_fails bus); [rejected|].
  destruct (seek_fails bus); [rejected|].
  destruct (read_header bus sizeof_header 0 u0) as [a|u1] eqn:Hh; [rejected|].
  destruct (Z.eqb_spec (magic_number (header (overlay u1))) EEPROM_MAGIC_NUMBER)
    as [Hm|Hm]; cbn [negb]; [|rejected].
  destruct (read_data _ _ _ _ _) as [a|[u2 sum]] eqn:Hd; [rejected|].
  destruct (Z.eqb_spec (checksum (header (overlay u2))) sum) as [Hc|Hc];
    cbn [negb]; [|rejected].
  destruct (Z.ltb_spec (data_version (header (overlay u2))) 1) as [Hv|Hv]; [rejected|].
  destruct (Z.eqb_spec (data_version (header (overlay u2))) 1) as [Hv1|Hv1];
    destruct (Z.ltb_spec (data_length (header (overlay u2))) (Z.of_nat sizeof_data_v1))
      as [Hl|Hl]; cbn [andb]; try rejected.
  all: destruct (Z.eqb_spec (last_char (uid (data_v1 (overlay u2)))) 0) as [H1|H1];
    cbn [negb]; [|rejected].
  all: destruct (Z.eqb_spec (last_char (hostname (data_v1 (overlay u2)))) 0) as [H2|H2];
    cbn [negb]; [|rejected].
  all: destruct (Z.eqb_spec (last_char (encrypted_password (data_v1 (overlay u2)))) 0)
    as [H3|H3]; cbn [negb]; [|rejected].
  all: right; exists u1, u2; subst sum; split; auto; try lia.
Qed.

Lemma accepted_header_stable bus u0 g' u1 u2 :
  accepted bus u0 g' u1 u2 -> header (overlay u2) = header (overlay u1).
Proof.
  intros [_ _ Hd _ _ _ _ _ _]. apply read_data_inr in Hd as (_ & Hu & _).
  apply header_overlay_ext. intros i Hi. rewrite Hu.
  destruct (Nat.leb_spec sizeof_header i); [lia|reflexivity].
Qed.

Lemma device_header_read bus u0 h :
  device_header bus = Some h ->
  exists u1, read_header bus sizeof_header 0 u0 = inr u1 /\ header (overlay u1) = h.
Proof.
  unfold device_header.
  destruct (read_header bus sizeof_header 0 (fun _ => 0)) as [a|v] eqn:Hv; [discriminate|].
  intros [= <-].
  destruct (read_header bus sizeof_header 0 u0) as [a|u1] eqn:Hu.
  - exfalso. apply read_header_inr in Hv as [Hrx _].
    clear -Hu Hrx. unfold sizeof_header in *. cbn [Nat.add] in Hu.
    cbn [read_header] in Hu. unfold i2c_read8 in Hu.
    repeat match type of Hu with
           | context [rx bus ?k] =>
               let E := fresh in
               destruct (rx bus k) eqn:E; [|apply (Hrx k); [lia|exact E]]
           end.
    discriminate.
  - exists u1. split; [reflexivity|].
    apply read_header_inr in Hv as [_ Hv]. apply read_header_inr in Hu as [_ Hu].
    apply header_overlay_ext. intros i Hi. rewrite Hv, Hu.
    destruct (Nat.leb_spec 0 i), (Nat.ltb_spec i (0 + sizeof_header)); cbn; auto; lia.
Qed.

Lemma bytes_at_device bus (u : memory) offset count :
  (forall i, (offset <= i < offset + count)%nat -> u i = device_byte bus i) ->
  bytes_at u offset count = map (device_byte bus) (seq offset count).
Proof.
  intros H. unfold bytes_at. apply map_ext_in. intros i Hi.
  apply in_seq in Hi. apply H. lia.
Qed.

Lemma last_char_elem (field : list Z) : field <> [] -> last_char field ∈ field.
Proof.
  unfold last_char. induction field as [|b [|b' field] IH]; intros Hne; [congruence| |].
  - cbn. apply list_elem_of_here.
  - change (List.last (b :: b' :: field) 0) with (List.last (b' :: field) 0).
    apply list_elem_of_further, IH. discriminate.
Qed.

Lemma bytes_at_nonempty (u : memory) offset count :
  (0 < count)%nat -> bytes_at u offset count <> [].
Proof.
  intros Hc He. apply (f_equal (@length Z)) in He. unfold bytes_at in He.
  rewrite length_map, length_seq in He. cbn in He. lia.
Qed.

(** ** Properties of the record reader *)

(** C1, as the code has it.  A record whose data_version is below 1, or
    whose data_version is 1 and whose data_length is below the size of the
    version-1 payload (439 bytes), is marked absent: [eeprom_valid] is false
    and the process-wide record keeps its previous value.  The length check
    of the code is guarded by [data_version == 1]. *)
Theorem read_eeprom_rejects_old_or_short_v1 bus u0 g h :
  device_header bus = Some h ->
  data_version h < 1
  \/ (data_version h = 1 /\ data_length h < Z.of_nat sizeof_data_v1) ->
  eeprom_valid (read_eeprom bus u0 g).1 = false
  /\ eeprom (read_eeprom bus u0 g).1 = eeprom g.
Proof.
  intros Hh Hbad.
  destruct (read_eeprom_cases bus u0 g) as [Hrej|(u1 & u2 & Hacc)]; [exact Hrej|].
  exfalso.
  pose proof (accepted_header_stable _ _ _ _ _ Hacc) as Hst.
  destruct (device_header_read bus u0 h Hh) as (u1' & Hu1 & Hh1).
  destruct Hacc as [Hu _ _ Hv Hl _ _ _ _].
  rewrite Hu in Hu1. injection Hu1 as <-.
  rewrite Hst, Hh1 in Hv, Hl. lia.
Qed.

(** C2.  When [read_eeprom] marks the record valid, every byte up to the
    end of the payload was transferred, and the checksum stored in the
    header is the CRC-32, started from the CRC of the empty stream, of the
    two bytes of data_length, the byte of data_version and the data_length
    payload bytes in the order of their addresses.  The record holds the
    transferred bytes that lie inside the structure; payload bytes beyond
    it enter the checksum only. *)
Theorem read_eeprom_checksum_covers_stream bus u0 g :
  eeprom_valid (read_eeprom bus u0 g).1 = true ->
  let e := eeprom (read_eeprom bus u0 g).1 in
  let count := Z.to_nat (data_length (header e)) in
  let length_bytes := map (device_byte bus) (seq 8 2) in
  let version_byte := device_byte bus 10 in
  let payload := map (device_byte bus) (seq sizeof_header count) in
  (forall k, (k < sizeof_header + count)%nat -> rx bus k <> None)
  /\ data_length (header e) = le_value length_bytes
  /\ data_version (header e) = version_byte
  /\ checksum (header e)
     = crc32 (crc32 0 []) (length_bytes ++ [version_byte] ++ payload)
  /\ e = overlay (fun i =>
                    if (i <? Nat.min (sizeof_header + count) sizeof_eeprom)%nat
                    then device_byte bus i else u0 i).
Proof.
  intros Hvalid.
  destruct (read_eeprom_cases bus u0 g) as [[Hrej _]|(u1 & u2 & Hacc)];
    [congruence|].
  pose proof (accepted_header_stable _ _ _ _ _ Hacc) as Hst.
  destruct Hacc as [Hu _ Hd _ _ _ _ _ Hg]. rewrite Hg. cbn [eeprom].
  set (count := Z.to_nat (data_length (header (overlay u2)))).
  set (length_bytes := map (device_byte bus) (seq 8 2)).
  set (version_byte := device_byte bus 10).
  apply read_header_inr in Hu as [Hrx1 Hu1].
  assert (Hdev : forall i, (i < sizeof_header)%nat -> u1 i = device_byte bus i).
  { intros i Hi. rewrite Hu1.
    destruct (Nat.leb_spec 0 i), (Nat.ltb_spec i (0 + sizeof_header)); cbn; auto; lia. }
  assert (H89 : bytes_at u1 8 2 = length_bytes).
  { apply bytes_at_device. intros i Hi. apply Hdev. unfold sizeof_header. lia. }
  assert (H10 : bytes_at u1 10 1 = [version_byte]).
  { unfold version_byte. rewrite (bytes_at_device bus); [reflexivity|].
    intros i Hi. apply Hdev. unfold sizeof_header. lia. }
  assert (Hcount : Z.to_nat (data_length (header (overlay u1))) = count).
  { unfold count. rewrite Hst. reflexivity. }
  rewrite Hcount, H89, H10 in Hd.
  apply read_data_inr in Hd as (Hrx2 & Hu2 & Hsum).
  split; [|split; [|split; [|split]]].
  - intros k Hk. destruct (Nat.lt_ge_cases k sizeof_header);
      [apply Hrx1|apply Hrx2]; lia.
  - rewrite Hst. unfold overlay. cbn [header data_length]. rewrite H89. reflexivity.
  - rewrite Hst. unfold overlay. cbn [header data_version]. rewrite H10.
    cbn [le_value]. rewrite Z.shiftl_0_l, Z.lor_0_r. reflexivity.
  - rewrite Hsum. unfold length_bytes. cbn [seq map].
    rewrite initial_sum_eq by apply device_byte_is_byte.
    rewrite crc32_streamed; [reflexivity| |apply Forall_device_bytes].
    bytes_ok.
  - apply overlay_ext. intros i Hi. rewrite Hu2, Hu1.
    destruct (Nat.leb_spec sizeof_header i),
      (Nat.ltb_spec i (sizeof_header + count)),
      (Nat.ltb_spec i sizeof_eeprom), (Nat.leb_spec 0 i),
      (Nat.ltb_spec i (0 + sizeof_header)),
      (Nat.ltb_spec i (Nat.min (sizeof_header + count) sizeof_eeprom));
      cbn [andb]; auto; lia.
Qed.

(** C8.  A record whose uid, hostname or encrypted_password field holds no
    NUL anywhere in its 7, 65 or 107 bytes is marked absent, whatever the
    other checks say. *)
Theorem read_eeprom_rejects_unterminated bus u0 g e :
  loaded_record bus u0 = Some e ->
  0 ∉ uid (data_v1 e)
  \/ 0 ∉ hostname (data_v1 e)
  \/ 0 ∉ encrypted_password (data_v1 e) ->
  eeprom_valid (read_eeprom bus u0 g).1 = false.
Proof.
  intros Hload Hfield.
  destruct (read_eeprom_cases bus u0 g) as [[Hrej _]|(u1 & u2 & Hacc)];
    [exact Hrej|].
  exfalso. destruct Hacc as [Hu _ Hd _ _ H1 H2 H3 _].
  unfold loaded_record in Hload. rewrite Hu in Hload. cbv zeta in Hload.
  rewrite Hd in Hload. injection Hload as <-.
  destruct Hfield as [Hf|[Hf|Hf]]; apply Hf.
  - rewrite <- H1. apply last_char_elem, bytes_at_nonempty. unfold sizeof_uid. lia.
  - rewrite <- H2. apply last_char_elem, bytes_at_nonempty. unfold sizeof_hostname. lia.
  - rewrite <- H3. apply last_char_elem, bytes_at_nonempty.
    unfold sizeof_encrypted_password. lia.
Qed.

Lemma read_eeprom_rejects_version0 :
  eeprom_valid (read_eeprom (bus_of_image version0_image) stack_garbage initial_globals).1
  = false
  /\ eeprom (read_eeprom (bus_of_image version0_image) stack_garbage initial_globals).1
     = eeprom initial_globals.
Proof.
  eapply read_eeprom_rejects_old_or_short_v1.
  - vm_compute. reflexivity.
  - left. vm_compute. reflexivity.
Defined.

(** C1, as the specification has it, fails: a version-2 record of 183
    payload bytes (less than the 439 of the version-1 payload) with a
    matching checksum is marked valid, and the exposed record holds what
    the local union held before where no byte was transferred. *)
Lemma short_v2_record_accepted :
  let bus := bus_of_image short_v2_image in
  let g' := (read_eeprom bus stack_garbage initial_globals).1 in
  data_version <$> device_header bus = Some 2
  /\ data_length <$> device_header bus = Some 183
  /\ 183 < Z.of_nat sizeof_data_v1
  /\ eeprom_valid g' = true
  /\ ethernet_config (data_v1 (eeprom g')) = repeat 0xAA 256.
Proof. vm_compute. repeat split; reflexivity. Qed.

Lemma long_v1_checksum :
  let bus := bus_of_image long_v1_image in
  let e := eeprom (read_eeprom bus stack_garbage initial_globals).1 in
  data_length (header e) = 444
  /\ checksum (header e)
     = crc32 (crc32 0 [])
         (map (device_byte bus) (seq 8 2) ++ [device_byte bus 10]
          ++ map (device_byte bus) (seq sizeof_header 444))
  /\ e = overlay (fun i => if (i <? sizeof_eeprom)%nat then device_byte bus i
                           else stack_garbage i).
Proof.
  intros bus e.
  assert (Hvalid : eeprom_valid (read_eeprom bus stack_garbage initial_globals).1 = true)
    by (vm_compute; reflexivity).
  assert (Hlen : data_length (header e) = 444) by (vm_compute; reflexivity).
  pose proof (read_eeprom_checksum_covers_stream bus stack_garbage initial_globals Hvalid)
    as (_ & _ & _ & Hsum & He).
  fold e in Hsum, He. rewrite Hlen in Hsum, He.
  split; [exact Hlen|]. split; [exact Hsum|exact He].
Defined.

Lemma read_eeprom_rejects_full_uid :
  eeprom_valid
    (read_eeprom (bus_of_image unterminated_uid_image) stack_garbage initial_globals).1
  = false.
Proof.
  eapply read_eeprom_rejects_unterminated.
  - vm_compute. reflexivity.
  - left. vm_compute. intros H.
    repeat (apply elem_of_cons in H as [H|H]; [discriminate H|]).
    inversion H.
Defined.

(** ** The command line parser *)

Lemma has_prefix_true (prefix : list ascii) :
  forall s, has_prefix prefix s = true <-> exists rest, s = prefix ++ rest.
Proof.
  induction prefix as [|p prefix IH]; intros s; cbn [has_prefix].
  - split; [intros _; exists s; reflexivity|reflexivity].
  - destruct s as [|c s].
    + split; [discriminate|]. intros [rest H]. discriminate H.
    + rewrite andb_true_iff, IH. split.
      * intros [Hc [rest ->]]. apply Ascii.eqb_eq in Hc. subst. exists rest. reflexivity.
      * intros [rest H]. injection H as -> ->. split; [apply Ascii.eqb_refl|eauto].
Qed.

Lemma rootfstype_not_root (option : list ascii) :
  has_prefix (chars "rootfstype=") option = true ->
  has_prefix (chars "root=") option = false.
Proof. intros H. apply has_prefix_true in H as [rest ->]. reflexivity. Qed.

Lemma init_not_root (option : list ascii) :
  has_prefix (chars "init=") option = true ->
  has_prefix (chars "root=") option = false
  /\ has_prefix (chars "rootfstype=") option = false.
Proof. intros H. apply has_prefix_true in H as [rest ->]. split; reflexivity. Qed.

Lemma root_not_rootfstype (option : list ascii) :
  has_prefix (chars "root=") option = true ->
  has_prefix (chars "rootfstype=") option = false.
Proof.
  intros H. destruct (has_prefix (chars "rootfstype=") option) eqn:E; [|reflexivity].
  apply rootfstype_not_root in E. congruence.
Qed.

Lemma read_option_keeps_root (rest : list (list ascii)) :
  forall c,
    Forall (fun option => has_prefix (chars "root=") option = false) rest ->
    root (fold_left read_option rest c) = root c.
Proof.
  induction rest as [|option rest IH]; intros c H; [reflexivity|].
  inversion H as [|? ? Ho Hrest]; subst. rewrite fold_left_step, IH by exact Hrest.
  unfold read_option. rewrite Ho.
  destruct (has_prefix (chars "rootfstype=") option); [reflexivity|].
  destruct (has_prefix (chars "init=") option); reflexivity.
Qed.

Lemma read_option_keeps_rootfstype (rest : list (list ascii)) :
  forall c,
    Forall (fun option => has_prefix (chars "rootfstype=") option = false) rest ->
    rootfstype (fold_left read_option rest c) = rootfstype c.
Proof.
  induction rest as [|option rest IH]; intros c H; [reflexivity|].
  inversion H as [|? ? Ho Hrest]; subst. rewrite fold_left_step, IH by exact Hrest.
  unfold read_option. rewrite Ho.
  destruct (has_prefix (chars "root=") option); [reflexivity|].
  destruct (has_prefix (chars "init=") option); reflexivity.
Qed.

Lemma read_option_keeps_init (rest : list (list ascii)) :
  forall c,
    Forall (fun option => has_prefix (chars "init=") option = false) rest ->
    init (fold_left read_option rest c) = init c.
Proof.
  induction rest as [|option rest IH]; intros c H; [reflexivity|].
  inversion H as [|? ? Ho Hrest]; subst. rewrite fold_left_step, IH by exact Hrest.
  unfold read_option. rewrite Ho.
  destruct (has_prefix (chars "root=") option); [reflexivity|].
  destruct (has_prefix (chars "rootfstype=") option); reflexivity.
Qed.

Lemma read_cmdline_returns w st :
  w_faults w = [] ->
  w_fs w !! "/proc/cmdline" = Some st ->
  exists w', read_cmdline w
             = Returns (parse_cmdline (take 2047 (contents st))) w'.
Proof.
  destruct w as [fs faults log trace]. cbn [w_faults w_fs]. intros -> Hst.
  unfold read_cmdline, bind, print, sys_open, sys_read, sys_close, ret, next_fault.
  cbn [w_faults w_fs log_line record_call]. rewrite Hst.
  cbn [w_faults w_fs log_line record_call]. rewrite Hst.
  destruct (Z.ltb_spec (Z.of_nat (length (take (2048 - 1) (contents st)))) 0); [lia|].
  eexists. reflexivity.
Qed.

(** C10.  When the command line holds several tokens for one of the keys
    root=, rootfstype= and init=, [read_cmdline] returns for that key the
    value of the last such token: [t] is a token for the key and no token
    after it is one. *)
Theorem read_cmdline_last_occurrence_wins w st before t after :
  w_faults w = [] ->
  w_fs w !! "/proc/cmdline" = Some st ->
  strtok_all (take 2047 (contents st)) [] = before ++ t :: after ->
  exists c w',
    read_cmdline w = Returns c w'
    /\ (has_prefix (chars "root=") t = true ->
        Forall (fun option => has_prefix (chars "root=") option = false) after ->
        root c = Some (drop 5 t))
    /\ (has_prefix (chars "rootfstype=") t = true ->
        Forall (fun option => has_prefix (chars "rootfstype=") option = false) after ->
        rootfstype c = Some (drop 11 t))
    /\ (has_prefix (chars "init=") t = true ->
        Forall (fun option => has_prefix (chars "init=") option = false) after ->
        init c = Some (drop 5 t)).
Proof.
  intros Hf Hst Htok.
  destruct (read_cmdline_returns w st Hf Hst) as [w' Hr].
  exists (parse_cmdline (take 2047 (contents st))), w'. split; [exact Hr|].
  unfold parse_cmdline. rewrite Htok, fold_left_app, fold_left_step.
  split; [|split]; intros Ht Hafter.
  - rewrite read_option_keeps_root by exact Hafter.
    unfold read_option. rewrite Ht. reflexivity.
  - rewrite read_option_keeps_rootfstype by exact Hafter.
    unfold read_option. rewrite Ht, (rootfstype_not_root t Ht). reflexivity.
  - rewrite read_option_keeps_init by exact Hafter.
    destruct (init_not_root t Ht) as [H1 H2].
    unfold read_option. rewrite Ht, H1, H2. reflexivity.
Qed.

Lemma cmdline_second_root_wins :
  exists c w',
    read_cmdline cmdline_world = Returns c w'
    /\ root c = Some (chars "/dev/mmcblk0p7").
Proof.
  destruct (read_cmdline_last_occurrence_wins cmdline_world cmdline_file
              [chars "console=tty1"; chars "root=/dev/sda1"; chars "rootfstype=ext3"]
              (chars "root=/dev/mmcblk0p7")
              [chars "init=/bin/sh"; chars "rootwait"])
    as (c & w' & Hr & Hroot & _).
  - reflexivity.
  - vm_compute. reflexivity.
  - vm_compute. reflexivity.
  - exists c, w'. split; [exact Hr|]. apply Hroot.
    + vm_compute. reflexivity.
    + repeat constructor.
Defined.

(** ** The mount retry loop *)

Section RobustMountFacts.

Variable size_bits : Z.
Variable libmount : nat -> mount_context.
Variables source target type : string.
Variable flags : Z.

Local Abbreviation retry :=
  (robust_mount_retry size_bits libmount source target type flags).
Local Abbreviation wrap n := (Z.of_nat n mod 2 ^ size_bits).

Lemma wrap_succ n : (wrap n + 1) mod 2 ^ size_bits = wrap (S n).
Proof.
  rewrite Nat2Z.inj_succ. unfold Z.succ.
  destruct (Z.eq_dec (2 ^ size_bits) 0) as [->|Hne].
  - rewrite !Z.mod_0_r. reflexivity.
  - rewrite Z.add_mod_idemp_l by exact Hne. reflexivity.
Qed.

Lemma retry_missing fuel attempt log trace :
  context_ready (libmount attempt) ->
  rc_mount (libmount attempt) = - MNT_ERR_NOSOURCE ->
  retry (S fuel) attempt (wrap attempt) log trace
  = retry fuel (S attempt) (wrap (S attempt))
      (log ++ [missing_line source target type]) (trace ++ retry_cycle).
Proof.
  intros (H0 & H1 & H2 & H3 & H4 & H5) Hrc.
  cbn [robust_mount_retry]. rewrite H0, Hrc.
  rewrite (proj2 (Z.ltb_ge _ _) H1), (proj2 (Z.ltb_ge _ _) H2),
    (proj2 (Z.ltb_ge _ _) H3), (proj2 (Z.ltb_ge _ _) H4), (proj2 (Z.ltb_ge _ _) H5).
  change (negb (- MNT_ERR_NOSOURCE =? 0)) with true.
  rewrite Z.eqb_refl. cbv iota. rewrite wrap_succ.
  unfold retry_cycle. rewrite <- !app_assoc. reflexivity.
Qed.

Lemma retry_missing_n n :
  forall fuel attempt log trace,
    (forall k, (attempt <= k < attempt + n)%nat ->
               context_ready (libmount k)
               /\ rc_mount (libmount k) = - MNT_ERR_NOSOURCE) ->
    retry (n + fuel) attempt (wrap attempt) log trace
    = retry fuel (attempt + n) (wrap (attempt + n))
        (log ++ repeat (missing_line source target type) n)
        (trace ++ concat (repeat retry_cycle n)).
Proof.
  induction n as [|n IH]; intros fuel attempt log trace H.
  - cbn [repeat concat Nat.add]. rewrite !app_nil_r, Nat.add_0_r. reflexivity.
  - destruct (H attempt ltac:(lia)) as [Hready Hrc].
    change (S n + fuel)%nat with (S (n + fuel)).
    rewrite retry_missing by assumption.
    rewrite IH by (intros k Hk; apply H; lia).
    cbn [repeat concat]. rewrite <- !app_assoc, Nat.add_succ_r. reflexivity.
Qed.

Lemma retry_mounted fuel attempt retries log trace :
  context_ready (libmount attempt) ->
  rc_mount (libmount attempt) = 0 ->
  retry (S fuel) attempt retries log trace
  = {| mr_result := MountReturns; mr_retries := retries;
       mr_log := log ++ (if 0 <? retries
                         then [mounted_line source target type retries] else []);
       mr_trace := trace ++ [MntNewContext; MntMount 0; MntFreeContext] |}.
Proof.
  intros (H0 & H1 & H2 & H3 & H4 & H5) Hrc.
  cbn [robust_mount_retry]. rewrite H0, Hrc.
  rewrite (proj2 (Z.ltb_ge _ _) H1), (proj2 (Z.ltb_ge _ _) H2),
    (proj2 (Z.ltb_ge _ _) H3), (proj2 (Z.ltb_ge _ _) H4), (proj2 (Z.ltb_ge _ _) H5).
  cbn [Z.eqb negb]. rewrite <- !app_assoc. reflexivity.
Qed.

Lemma retry_other_error fuel attempt retries log trace :
  context_ready (libmount attempt) ->
  rc_mount (libmount attempt) <> 0 ->
  rc_mount (libmount attempt) <> - MNT_ERR_NOSOURCE ->
  retry (S fuel) attempt retries log trace
  = {| mr_result := MountPanics; mr_retries := retries;
       mr_log := log ++ [panic_line "could not mount %s (%s) at %s: %s (%d -> %d)"
                           ([AStr source; AStr type; AStr target]
                            ++ [ANum (rc_mount (libmount attempt));
                                ANum (excode (libmount attempt))])];
       mr_trace := trace ++ [MntNewContext; MntMount (rc_mount (libmount attempt))] |}.
Proof.
  intros (H0 & H1 & H2 & H3 & H4 & H5) Hrc Hrc'.
  cbn [robust_mount_retry]. rewrite H0.
  rewrite (proj2 (Z.ltb_ge _ _) H1), (proj2 (Z.ltb_ge _ _) H2),
    (proj2 (Z.ltb_ge _ _) H3), (proj2 (Z.ltb_ge _ _) H4), (proj2 (Z.ltb_ge _ _) H5).
  rewrite (proj2 (Z.eqb_neq _ _) Hrc), (proj2 (Z.eqb_neq _ _) Hrc').
  cbn [negb]. rewrite <- !app_assoc. reflexivity.
Qed.

End RobustMountFacts.

(** C7.  As long as [mnt_context_mount] answers "source not found",
    [robust_mount] frees the context, sleeps 500 ms, counts the retry and
    starts over with a new context: after any number [n] of such failures it
    is at the label [retry] again.  When attempt [n + 1] succeeds it returns,
    having made exactly [n] retries, and logs their number if there were
    any (the number the variable of type size_t holds).  When attempt
    [n + 1] fails otherwise it panics, without freeing, sleeping or
    retrying. *)
Theorem robust_mount_retries_while_missing
    (size_bits : Z) (libmount : nat -> mount_context)
    (source target type : string) (flags : Z) (n : nat) :
  (forall k, (k < n)%nat ->
             context_ready (libmount k)
             /\ rc_mount (libmount k) = - MNT_ERR_NOSOURCE) ->
  let run := robust_mount size_bits libmount source target type flags in
  let start := print_line "mounting %s (%s) at %s" [AStr source; AStr type; AStr target] in
  let retries := Z.of_nat n mod 2 ^ size_bits in
  (mr_result (run n) = MountRetrying
   /\ mr_trace (run n) = concat (repeat retry_cycle n))
  /\ (context_ready (libmount n) -> rc_mount (libmount n) = 0 ->
      forall fuel, (n < fuel)%nat ->
        mr_result (run fuel) = MountReturns
        /\ mr_trace (run fuel)
           = concat (repeat retry_cycle n)
             ++ [MntNewContext; MntMount 0; MntFreeContext]
        /\ mr_log (run fuel)
           = start :: repeat (missing_line source target type) n
             ++ (if 0 <? retries then [mounted_line source target type retries] else [])
        /\ (0 < Z.of_nat n < 2 ^ size_bits ->
            In (mounted_line source target type (Z.of_nat n)) (mr_log (run fuel))))
  /\ (context_ready (libmount n) ->
      rc_mount (libmount n) <> 0 -> rc_mount (libmount n) <> - MNT_ERR_NOSOURCE ->
      forall fuel, (n < fuel)%nat ->
        mr_result (run fuel) = MountPanics
        /\ mr_trace (run fuel)
           = concat (repeat retry_cycle n)
             ++ [MntNewContext; MntMount (rc_mount (libmount n))]).
Proof.
  intros Hmissing run start retries.
  assert (Hloop : forall fuel,
             run (n + fuel)%nat
             = robust_mount_retry size_bits libmount source target type flags fuel n
                 retries (start :: repeat (missing_line source target type) n)
                 (concat (repeat retry_cycle n))).
  { intros fuel. unfold run, robust_mount.
    pose proof (retry_missing_n size_bits libmount source target type flags n fuel 0
                  [start] []) as H.
    cbn [Nat.add Z.of_nat] in H. rewrite Zmod_0_l in H.
    apply H. intros k Hk. apply Hmissing. lia. }
  split; [|split].
  - specialize (Hloop 0%nat). rewrite Nat.add_0_r in Hloop. rewrite Hloop.
    split; reflexivity.
  - intros Hready Hrc fuel Hfuel.
    replace fuel with (n + S (fuel - n - 1))%nat by lia.
    rewrite Hloop, retry_mounted by assumption. cbn [mr_result mr_trace mr_log].
    split; [reflexivity|]. split; [reflexivity|]. split; [reflexivity|].
    intros Hn. unfold retries. rewrite Z.mod_small by lia.
    destruct (Z.ltb_spec 0 (Z.of_nat n)); [|lia].
    apply in_cons, in_or_app. right. left. reflexivity.
  - intros Hready Hrc Hrc' fuel Hfuel.
    replace fuel with (n + S (fuel - n - 1))%nat by lia.
    rewrite Hloop, retry_other_error by assumption. split; reflexivity.
Qed.

Lemma late_device_mounted_after_three_retries :
  let run := robust_mount 32 late_device "/dev/mmcblk0p2" "/mnt" "ext4" 1024 in
  mr_result (run 10%nat) = MountReturns
  /\ mr_trace (run 10%nat)
     = concat (repeat retry_cycle 3) ++ [MntNewContext; MntMount 0; MntFreeContext]
  /\ In (mounted_line "/dev/mmcblk0p2" "/mnt" "ext4" 3) (mr_log (run 10%nat)).
Proof.
  intros run.
  destruct (robust_mount_retries_while_missing 32 late_device
              "/dev/mmcblk0p2" "/mnt" "ext4" 1024 3) as (_ & Hmount & _).
  - intros k Hk. unfold context_ready.
    destruct k as [|[|[|k]]]; [| | |lia]; vm_compute; intuition discriminate.
  - destruct (Hmount ltac:(vm_compute; intuition discriminate) eq_refl 10%nat ltac:(lia))
      as (H1 & H2 & _ & H4).
    split; [exact H1|]. split; [exact H2|]. apply H4. lia.
Defined.

(** ** The system-call monad *)

Ltac run :=
  unfold create_file, robust_write;
  unfold bind, ret, print, error, panic, undefined, sys_stat, sys_open, sys_fstat,
    sys_malloc, sys_read, sys_close, sys_fsync, sys_create, sys_fchown, sys_fchmod,
    sys_write, sys_rename, next_fault, st_size;
  try change (0 <? 0) with false;
  cbn [record_call log_line set_fs w_faults w_fs w_log w_trace
       st_mode st_uid st_gid contents final_world negb orb andb].

Ltac worlds :=
  unfold record_call, log_line, set_fs; cbn [w_fs w_faults w_log w_trace].

Lemma bind_returns {A B : Type} (m : M A) (k : A -> M B) w a w' :
  m w = Returns a w' -> bind m k w = k a w'.
Proof. intros H. unfold bind. rewrite H. reflexivity. Qed.

Lemma harmless_guarded {A : Type} (m : M A) : harmless m -> guarded m.
Proof.
  intros H w. destruct (H w) as (a & w' & evs & Hm & Ht & Hev).
  exists evs. rewrite Hm. split; [exact Ht|exact Hev].
Qed.

Lemma guarded_ret {A : Type} (a : A) : guarded (ret a).
Proof. intros w. exists []. cbn. rewrite app_nil_r. split; [reflexivity|constructor]. Qed.

Lemma guarded_bind {A B : Type} (m : M A) (k : A -> M B) :
  guarded m -> (forall a, guarded (k a)) -> guarded (bind m k).
Proof.
  intros Hm Hk w. destruct (Hm w) as (evs1 & Ht1 & Hv1). unfold bind.
  destruct (m w) as [a w1|w1|w1]; cbn [final_world verdict] in *.
  - destruct (Hk a w1) as (evs2 & Ht2 & Hv2). exists (evs1 ++ evs2).
    rewrite Ht2, Ht1, app_assoc. split; [reflexivity|].
    destruct (k a w1); cbn [verdict] in *.
    + apply Forall_app. split; assumption.
    + apply Exists_app. right. exact Hv2.
    + exact Hv2.
  - exists evs1. split; assumption.
  - contradiction.
Qed.

Ltac harmless_call :=
  let w := fresh "w" in
  intros w; destruct w as [fs [|[|e|n] faults] log trace]; run;
  repeat match goal with
         | |- context [match ?fs !! ?p with _ => _ end] => destruct (fs !! p)
         end;
  do 2 eexists; eexists [_]; worlds;
  (split; [reflexivity|]); (split; [reflexivity|]);
  repeat constructor; cbn; tauto.

Lemma harmless_print format args : harmless (print format args).
Proof.
  intros w. exists tt, (log_line (print_line format args) w), [].
  cbn. rewrite app_nil_r. repeat split. constructor.
Qed.

Lemma harmless_error format args : harmless (error format args).
Proof.
  intros w. exists tt, (log_line (error_line format args) w), [].
  cbn. rewrite app_nil_r. repeat split. constructor.
Qed.

Lemma harmless_ret {A : Type} (a : A) : harmless (ret a).
Proof. intros w. exists a, w, []. cbn. rewrite app_nil_r. repeat split. constructor. Qed.

Lemma harmless_stat path : harmless (sys_stat path).
Proof. harmless_call. Qed.

Lemma harmless_open path : harmless (sys_open path).
Proof. harmless_call. Qed.

Lemma harmless_read fd count : harmless (sys_read fd count).
Proof. harmless_call. Qed.

Lemma harmless_close fd : harmless (sys_close fd).
Proof.
  intros w. do 2 eexists. eexists [_]. unfold sys_close. worlds.
  repeat split. repeat constructor. cbn. tauto.
Qed.

Lemma harmless_fsync fd : harmless (sys_fsync fd).
Proof.
  intros w. do 2 eexists. eexists [_]. unfold sys_fsync. worlds.
  repeat split. repeat constructor. cbn. tauto.
Qed.

Ltac reporting_call :=
  let w := fresh "w" in
  intros w; destruct w as [fs [|[|e|n] faults] log trace]; run;
  repeat match goal with
         | |- context [match ?fs !! ?p with _ => _ end] => destruct (fs !! p)
         end;
  do 2 eexists; worlds; split; reflexivity.

Lemma reports_fchown fd uid gid : reports (sys_fchown fd uid gid) (SysFchown fd uid gid).
Proof. reporting_call. Qed.

Lemma reports_fchmod fd mode : reports (sys_fchmod fd mode) (SysFchmod fd mode).
Proof. reporting_call. Qed.

Lemma reports_write fd buffer : reports (sys_write fd buffer) (SysWrite fd buffer).
Proof. reporting_call. Qed.

Lemma reports_rename oldpath newpath :
  reports (sys_rename oldpath newpath) (SysRename oldpath newpath).
Proof. reporting_call. Qed.

Lemma guarded_checked {B : Type} (m : M Z) (c : call) (k : M B) format args :
  reports m c ->
  (forall rc, fatal_event (Event c rc) <-> rc < 0) ->
  guarded k ->
  guarded (do rc <- m; if rc <? 0 then panic format args else k).
Proof.
  intros Hm Hc Hk w. destruct (Hm w) as (rc & w1 & Hr & Ht). unfold bind. rewrite Hr.
  destruct (Z.ltb_spec rc 0) as [Hneg|Hpos].
  - exists [Event c rc]. cbn. split; [exact Ht|]. constructor. apply Hc. exact Hneg.
  - destruct (Hk w1) as (evs & Ht' & Hv). exists (Event c rc :: evs).
    rewrite Ht', Ht, <- app_assoc. split; [reflexivity|].
    assert (Hok : ~ fatal_event (Event c rc)) by (rewrite Hc; lia).
    destruct (k w1); cbn [verdict] in *.
    + constructor; assumption.
    + apply Exists_cons_tl. exact Hv.
    + exact Hv.
Qed.

Lemma sys_create_cases path mode w :
  (exists e w', sys_create path mode w = Returns (inl e) w'
                /\ w_trace w' = w_trace w ++ [Event (SysCreate path mode) (-1)])
  \/ (exists w', sys_create path mode w = Returns (inr path) w'
                 /\ w_trace w' = w_trace w ++ [Event (SysCreate path mode) 0]).
Proof.
  destruct w as [fs [|[|e|n] faults] log trace]; run.
  3: left; do 2 eexists; worlds; split; reflexivity.
  all: right; eexists; worlds; split; reflexivity.
Qed.

Lemma guarded_create_file path uid gid mode : guarded (create_file path uid gid mode).
Proof.
  unfold create_file. apply guarded_bind; [apply harmless_guarded, harmless_print|].
  intros _ w.
  assert (Hrest : forall fd, guarded
            (do rc <- sys_fchown fd uid gid;
             if rc <? 0
             then panic "could not change owner of %s to %u:%u: %s (%d)"
                    [AStr path; ANum uid; ANum gid]
             else do rc0 <- sys_fchmod fd mode;
                  if rc0 <? 0
                  then panic "could not change mode of %s to 0o%03o: %s (%d)"
                         [AStr path; ANum mode]
                  else ret fd)).
  { intros fd. eapply guarded_checked; [apply reports_fchown|intros rc; reflexivity|].
    eapply guarded_checked;
      [apply reports_fchmod|intros rc; reflexivity|apply guarded_ret]. }
  destruct (sys_create_cases path mode w) as [(e & w1 & Hr & Ht)|(w1 & Hr & Ht)];
    rewrite (bind_returns _ _ _ _ _ Hr).
  - exists [Event (SysCreate path mode) (-1)]. unfold panic.
    cbn [final_world verdict log_line w_trace]. split; [exact Ht|].
    constructor. cbn. lia.
  - destruct (Hrest path w1) as (evs & Ht' & Hv).
    exists (Event (SysCreate path mode) 0 :: evs).
    rewrite Ht', Ht, <- app_assoc. split; [reflexivity|].
    match goal with |- verdict ?o _ => destruct o end; cbn [verdict] in *.
    + constructor; [cbn; lia|assumption].
    + apply Exists_cons_tl. assumption.
    + assumption.
Qed.

Lemma guarded_robust_write path fd buffer : guarded (robust_write path fd buffer).
Proof.
  intros w. unfold robust_write, bind.
  destruct (reports_write fd buffer w) as (rc & w1 & Hr & Ht). rewrite Hr.
  exists [Event (SysWrite fd buffer) rc].
  destruct (Z.ltb_spec rc 0); [|destruct (Z.ltb_spec rc (Z.of_nat (length buffer)))];
    cbn [final_world panic ret log_line w_trace verdict]; (split; [exact Ht|]);
    repeat constructor; cbn; lia.
Qed.

Lemma guarded_update_file_write path content : guarded (update_file_write path content).
Proof.
  unfold update_file_write. cbv zeta.
  apply guarded_bind; [apply guarded_create_file|]. intros fd.
  apply guarded_bind; [apply guarded_robust_write|]. intros _.
  apply guarded_bind; [apply harmless_guarded, harmless_fsync|]. intros _.
  apply guarded_bind; [apply harmless_guarded, harmless_close|]. intros _.
  apply guarded_bind; [apply harmless_guarded, harmless_print|]. intros _.
  eapply guarded_checked;
    [apply reports_rename|intros rc; reflexivity|apply guarded_ret].
Qed.

Lemma guarded_update_file path content : guarded (update_file path content).
Proof.
  unfold update_file. cbv zeta.
  apply guarded_bind; [apply harmless_guarded, harmless_stat|]. intros [errno|st].
  - apply guarded_bind; [|intros _; apply guarded_update_file_write].
    apply harmless_guarded. destruct (negb (errno =? ENOENT));
      [apply harmless_error|apply harmless_ret].
  - destruct (_ || _); [apply guarded_update_file_write|].
    apply guarded_bind; [apply harmless_guarded, harmless_open|]. intros [errno|fd].
    + apply guarded_bind; [apply harmless_guarded, harmless_error|].
      intros _. apply guarded_update_file_write.
    + apply guarded_bind; [apply harmless_guarded, harmless_read|]. intros [len buffer].
      apply guarded_bind; [apply harmless_guarded, harmless_close|]. intros _.
      destruct (len <? 0);
        [apply guarded_bind;
         [apply harmless_guarded, harmless_error|intros _; apply guarded_update_file_write]|].
      destruct (len <? Z.of_nat (st_size st));
        [apply guarded_bind;
         [apply harmless_guarded, harmless_error|intros _; apply guarded_update_file_write]|].
      destruct (bool_decide (buffer = content));
        [apply harmless_guarded, harmless_print|apply guarded_update_file_write].
Qed.

(** ** [update_file] when every call succeeds *)

Lemma update_file_up_to_date path content fs log trace :
  fs !! path = Some (target_file content) ->
  update_file path content (World fs [] log trace)
  = Returns tt
      (World fs []
         (log ++ [print_line "%s is already up-to-date, skipping update" [AStr path]])
         (trace ++ skip_trace path (length content))).
Proof.
  intros H. unfold update_file, target_file in *. run. rewrite H. run.
  rewrite !Z.eqb_refl, Nat.eqb_refl. run. rewrite H. run. rewrite H. run.
  rewrite take_ge by lia.
  destruct (Z.ltb_spec (Z.of_nat (length content)) 0); [lia|].
  rewrite Z.ltb_irrefl, bool_decide_eq_true_2 by reflexivity. run.
  unfold skip_trace. worlds. rewrite <- !app_assoc. reflexivity.
Qed.

(** The calls in a world without faults. *)

Lemma print_returns format args w :
  print format args w = Returns tt (log_line (print_line format args) w).
Proof. reflexivity. Qed.

Lemma sys_fsync_returns fd w : sys_fsync fd w = Returns tt (record_call (SysFsync fd) 0 w).
Proof. reflexivity. Qed.

Lemma sys_close_returns fd w : sys_close fd w = Returns tt (record_call (SysClose fd) 0 w).
Proof. reflexivity. Qed.

Lemma regular_mode (m mode : Z) :
  Z.lor (Z.land (Z.lor S_IFREG (Z.land m permission_bits)) S_IFMT)
    (Z.land mode permission_bits)
  = Z.lor S_IFREG (Z.land mode permission_bits).
Proof.
  rewrite Z.land_lor_distr_l, <- Z.land_assoc.
  change (Z.land permission_bits S_IFMT) with 0. rewrite Z.land_0_r, Z.lor_0_r.
  reflexivity.
Qed.

Lemma create_file_succeeds path uid gid mode fs log trace :
  create_file path uid gid mode (World fs [] log trace)
  = Returns path
      (World (<[path := File (Z.lor S_IFREG (Z.land mode permission_bits)) uid gid []]> fs)
         [] (log ++ [print_line "creating %s" [AStr path]])
         (trace ++ [Event (SysCreate path mode) 0; Event (SysFchown path uid gid) 0;
                    Event (SysFchmod path mode) 0])).
Proof.
  run. destruct (fs !! path) as [st|];
    do 2 (rewrite !lookup_insert_eq; run);
    worlds; rewrite !insert_insert_eq, regular_mode, <- !app_assoc; reflexivity.
Qed.

Lemma robust_write_succeeds path fd buffer fs log trace st :
  fs !! fd = Some st ->
  robust_write path fd buffer (World fs [] log trace)
  = Returns tt
      (World (<[fd := File (st_mode st) (st_uid st) (st_gid st) (contents st ++ buffer)]> fs)
         [] log (trace ++ [Event (SysWrite fd buffer) (Z.of_nat (length buffer))])).
Proof.
  intros H. run. rewrite H. run.
  destruct (Z.ltb_spec (Z.of_nat (length buffer)) 0); [lia|].
  rewrite Z.ltb_irrefl. reflexivity.
Qed.

Lemma sys_rename_succeeds oldpath newpath fs log trace st :
  fs !! oldpath = Some st ->
  sys_rename oldpath newpath (World fs [] log trace)
  = Returns 0
      (World (if String.eqb oldpath newpath then fs
              else <[newpath := st]> (delete oldpath fs))
         [] log (trace ++ [Event (SysRename oldpath newpath) 0])).
Proof. intros H. run. rewrite H. reflexivity. Qed.

Ltac step_with lemma :=
  erewrite bind_returns by (apply lemma); cbv beta.

Ltac step_io :=
  first [ step_with print_returns | step_with sys_fsync_returns
        | step_with sys_close_returns ];
  worlds.

Lemma update_file_write_succeeds path content fs log trace :
  exists fs' log',
    update_file_write path content (World fs [] log trace)
    = Returns tt (World fs' [] log' (trace ++ write_trace path content))
    /\ fs' !! path = Some (target_file content).
Proof.
  unfold update_file_write, target_file. cbv zeta.
  step_with create_file_succeeds.
  erewrite bind_returns by (apply robust_write_succeeds, lookup_insert_eq). cbv beta.
  cbn [st_mode st_uid st_gid contents app]. rewrite insert_insert_eq.
  do 3 step_io.
  erewrite bind_returns by (apply sys_rename_succeeds, lookup_insert_eq). cbv beta.
  change (0 <? 0) with false. cbv iota. unfold ret.
  do 2 eexists. unfold write_trace. rewrite <- !app_assoc.
  split; [reflexivity|].
  change (Z.land mode_0444 permission_bits) with mode_0444.
  destruct (String.eqb_spec (tmp_path_of path) path) as [He|Hne].
  - rewrite He at 1. apply lookup_insert_eq.
  - apply lookup_insert_eq.
Qed.

Lemma count_writes_write_trace prefix path content :
  count_writes prefix = 0%nat ->
  count_writes ((prefix ++ write_trace path content)
                ++ skip_trace path (length content)) = 1%nat.
Proof.
  unfold count_writes. intros H. rewrite !List.filter_app, !length_app, H. reflexivity.
Qed.

Ltac write_path path content fs1 log1 Hw Hfs1 :=
  worlds;
  match goal with
  | |- context [update_file_write path content (World ?f [] ?l ?t)] =>
      destruct (update_file_write_succeeds path content f l t)
        as (fs1 & log1 & Hw & Hfs1);
      rewrite Hw
  end.

Lemma update_file_returns path content fs log trace :
  exists fs1 log1 evs,
    update_file path content (World fs [] log trace)
    = Returns tt (World fs1 [] log1 (trace ++ evs))
    /\ fs1 !! path = Some (target_file content)
    /\ (fs !! path <> Some (target_file content) ->
        count_writes (evs ++ skip_trace path (length content)) = 1%nat).
Proof.
  destruct (fs !! path) as [st|] eqn:Hst.
  - unfold update_file. run. rewrite Hst. run.
    destruct (_ || _) eqn:Hattr.
    + write_path path content fs1 log1 Hw Hfs1.
      exists fs1, log1, ([Event (SysStat path) 0] ++ write_trace path content).
      rewrite <- !app_assoc. split; [reflexivity|]. split; [exact Hfs1|].
      intros _. apply (count_writes_write_trace [_]). reflexivity.
    + run. rewrite Hst. run. rewrite Hst. run.
      apply orb_false_iff in Hattr as [Hattr H4].
      apply orb_false_iff in Hattr as [Hattr H3].
      apply orb_false_iff in Hattr as [H1 H2].
      apply negb_false_iff in H1, H2, H3, H4.
      apply Z.eqb_eq in H1, H2, H3. apply Nat.eqb_eq in H4.
      rewrite take_ge by lia.
      destruct (Z.ltb_spec (Z.of_nat (length (contents st))) 0); [lia|].
      rewrite Z.ltb_irrefl.
      destruct (bool_decide_reflect (contents st = content)) as [Hc|Hc].
      * assert (Htarget : st = target_file content).
        { destruct st as [m u g c]. unfold target_file. cbn in *. congruence. }
        run. worlds. do 2 eexists. exists (skip_trace path (length (contents st))).
        unfold skip_trace. rewrite <- !app_assoc. split; [reflexivity|].
        split; [congruence|]. intros Hneq. congruence.
      * run. write_path path content fs1 log1 Hw Hfs1.
        exists fs1, log1, (skip_trace path (length (contents st))
                           ++ write_trace path content).
        unfold skip_trace at 1. rewrite <- !app_assoc.
        split; [reflexivity|]. split; [exact Hfs1|].
        intros _. apply (count_writes_write_trace [_; _; _; _]). reflexivity.
  - unfold update_file. run. rewrite Hst. run.
    change (negb (ENOENT =? ENOENT)) with false. cbv iota.
    write_path path content fs1 log1 Hw Hfs1.
    exists fs1, log1, ([Event (SysStat path) (-1)] ++ write_trace path content).
    rewrite <- !app_assoc. split; [reflexivity|]. split; [exact Hfs1|].
    intros _. apply (count_writes_write_trace [_]). reflexivity.
Qed.

Lemma update_file_rewrites_after_short_read path content w st w1 w2 w3 len buffer :
  sys_stat path w = Returns (inr st) w1 ->
  st = File (Z.lor S_IFREG mode_0444) 0 0 (contents st) ->
  st_size st = length content ->
  sys_open path w1 = Returns (inr path) w2 ->
  sys_read path (st_size st) w2 = Returns (len, buffer) w3 ->
  len < Z.of_nat (st_size st) ->
  update_file path content w
  = update_file_write path content
      (log_line
         (error_line (if len <? 0 then "could not read from %s: %s (%d)"
                      else "short read from %s: %s (%d)") [AStr path])
         (record_call (SysClose path) 0 w3)).
Proof.
  intros Hstat Hst Hsize Hopen Hread Hlen. unfold update_file. cbv zeta.
  rewrite (bind_returns _ _ _ _ _ Hstat). cbv beta iota.
  assert (Hattr : negb (st_mode st =? Z.lor S_IFREG mode_0444) || negb (st_uid st =? 0)
                  || negb (st_gid st =? 0)
                  || negb (st_size st =? length content)%nat = false).
  { rewrite Hsize, Nat.eqb_refl, Hst. reflexivity. }
  rewrite Hattr.
  rewrite (bind_returns _ _ _ _ _ Hopen). cbv beta iota.
  rewrite (bind_returns _ _ _ _ _ Hread). cbv beta iota.
  rewrite (bind_returns _ _ _ _ _ (sys_close_returns path w3)).
  destruct (Z.ltb_spec len 0).
  - reflexivity.
  - destruct (Z.ltb_spec len (Z.of_nat (st_size st))); [reflexivity|lia].
Qed.

(** C5, as the code has it.  [update_file] panics exactly when it has made
    a call of its write path that failed: creating the temporary file
    ([open], [fchown], [fchmod]), a failed or short write to it, or the
    rename onto the target path.  A failed or short read of the existing
    file is not fatal: the program logs an error and goes on to write the
    file. *)
Theorem update_file_panics_on_failed_write_path path content w :
  (exists evs,
     w_trace (final_world (update_file path content w)) = w_trace w ++ evs
     /\ ((exists w', update_file path content w = Panics w')
         <-> Exists fatal_event evs))
  /\ (forall st w1 w2 w3 len buffer,
        sys_stat path w = Returns (inr st) w1 ->
        st = File (Z.lor S_IFREG mode_0444) 0 0 (contents st) ->
        st_size st = length content ->
        sys_open path w1 = Returns (inr path) w2 ->
        sys_read path (st_size st) w2 = Returns (len, buffer) w3 ->
        len < Z.of_nat (st_size st) ->
        update_file path content w
        = update_file_write path content
            (log_line
               (error_line (if len <? 0 then "could not read from %s: %s (%d)"
                            else "short read from %s: %s (%d)") [AStr path])
               (record_call (SysClose path) 0 w3))).
Proof.
  split; [|apply update_file_rewrites_after_short_read].
  destruct (guarded_update_file path content w) as (evs & Ht & Hv).
  exists evs. split; [exact Ht|].
  destruct (update_file path content w) as [[] w'|w'|w']; cbn [verdict] in Hv.
  - split; [intros [w'' H]; discriminate H|].
    intros He. exfalso. apply Exists_exists in He as (e & Hin & Hfatal).
    rewrite Forall_forall in Hv. exact (Hv e Hin Hfatal).
  - split; [intros _; exact Hv|intros _; exists w'; reflexivity].
  - contradiction.
Qed.

(** C5, as the specification has it, fails: with an up-to-date file and a
    read that delivers three of the seven bytes, [update_file] returns. *)
Lemma update_file_survives_short_read :
  let o := update_file uid_path uid_content short_read_world in
  Exists short_read (w_trace (final_world o))
  /\ (exists w', o = Returns tt w')
  /\ contents <$> (w_fs (final_world o) !! uid_path) = Some uid_content.
Proof.
  vm_compute. split; [|split; [eexists; reflexivity|reflexivity]].
  do 2 apply Exists_cons_tl. apply Exists_cons_hd. reflexivity.
Qed.

Lemma update_file_short_read_goes_to_write :
  exists w', update_file uid_path uid_content short_read_world
             = update_file_write uid_path uid_content w'.
Proof.
  eexists.
  eapply (proj2 (update_file_panics_on_failed_write_path uid_path uid_content
                   short_read_world)).
  - vm_compute. reflexivity.
  - reflexivity.
  - reflexivity.
  - vm_compute. reflexivity.
  - vm_compute. reflexivity.
  - vm_compute. reflexivity.
Defined.

(** ** C strings *)

Lemma drop_app_add {A : Type} (l1 l2 : list A) (k : nat) :
  drop (length l1 + k) (l1 ++ l2) = drop k l2.
Proof. induction l1 as [|a l1 IH]; [reflexivity|exact IH]. Qed.

Lemma take_app_add {A : Type} (l1 l2 : list A) (k : nat) :
  take (length l1 + k) (l1 ++ l2) = l1 ++ take k l2.
Proof. induction l1 as [|a l1 IH]; [reflexivity|]. cbn. rewrite IH. reflexivity. Qed.

Lemma char_at_app (l1 l2 : list ascii) (k : nat) :
  char_at (l1 ++ l2) (length l1 + k) = char_at l2 k.
Proof. unfold char_at. induction l1 as [|a l1 IH]; [reflexivity|exact IH]. Qed.

Lemma strchr_skip (s rest : list ascii) (c : ascii) :
  Forall (fun x => x <> c /\ x <> NUL) s ->
  strchr (s ++ c :: rest) c = Some (length s).
Proof.
  induction s as [|x s IH]; intros H; cbn [strchr app length].
  - rewrite Ascii.eqb_refl. reflexivity.
  - inversion H as [|? ? [Hc Hn] Hs]; subst.
    destruct (Ascii.eqb_spec x c); [contradiction|].
    destruct (Ascii.eqb_spec x NUL); [contradiction|].
    rewrite IH by exact Hs. reflexivity.
Qed.

Lemma strrchr_none (s : list ascii) (c : ascii) :
  Forall (fun x => x <> NUL) s -> strrchr s c = None -> c ∉ s.
Proof.
  induction s as [|y s IH]; intros Hs Hi; [apply not_elem_of_nil|].
  inversion Hs as [|? ? Hy Hs']; subst. cbn [strrchr] in Hi.
  destruct (Ascii.eqb_spec y NUL); [contradiction|].
  destruct (strrchr s c) eqn:E; [discriminate|].
  destruct (Ascii.eqb_spec y c); [discriminate|].
  apply not_elem_of_cons. split; [congruence|]. apply IH; [exact Hs'|reflexivity].
Qed.

Lemma strrchr_last (s : list ascii) (c : ascii) :
  Forall (fun x => x <> NUL) s ->
  forall k, strrchr s c = Some k ->
            exists tail, s = take k s ++ c :: tail /\ c ∉ tail.
Proof.
  induction s as [|x s IH]; intros H k Hk; cbn [strrchr] in Hk; [discriminate|].
  inversion H as [|? ? Hx Hs]; subst.
  destruct (Ascii.eqb_spec x NUL); [contradiction|].
  destruct (strrchr s c) as [i|] eqn:Hi.
  - injection Hk as <-. destruct (IH Hs i eq_refl) as (tail & Heq & Hnot).
    exists tail. cbn [take]. rewrite <- app_comm_cons, <- Heq. split; [reflexivity|exact Hnot].
  - destruct (Ascii.eqb_spec x c) as [->|]; [|discriminate]. injection Hk as <-.
    exists s. split; [reflexivity|]. apply strrchr_none; assumption.
Qed.

Lemma strrchr_found (s : list ascii) (c : ascii) :
  Forall (fun x => x <> NUL) s -> c ∈ s -> exists k, strrchr s c = Some k.
Proof.
  induction s as [|x s IH]; intros H Hin; [inversion Hin|].
  inversion H as [|? ? Hx Hs]; subst. cbn [strrchr].
  destruct (Ascii.eqb_spec x NUL); [contradiction|].
  destruct (strrchr s c) as [i|] eqn:Hi; [eauto|].
  apply elem_of_cons in Hin as [->|Hin].
  - rewrite Ascii.eqb_refl. eauto.
  - destruct (IH Hs Hin) as [k Hk]. discriminate.
Qed.

Lemma cstr_no_nul (s : list ascii) : Forall (fun x => x <> NUL) s -> cstr s = s.
Proof.
  unfold cstr. induction s as [|x s IH]; intros H; [reflexivity|].
  inversion H as [|? ? Hx Hs]; subst. cbn [strlen].
  destruct (Ascii.eqb_spec x NUL); [contradiction|]. cbn [take]. rewrite IH by exact Hs.
  reflexivity.
Qed.

(** ** The entry of the account in the shadow file *)

Lemma locked_entry_parse buffer before hash rest :
  locked_entry buffer before hash rest ->
  let entry_begin := length before in
  let encrypted_begin := (entry_begin + 3 + 1)%nat in
  let encrypted_end := (encrypted_begin + S (length hash))%nat in
  strchr (drop entry_begin buffer) ":" = Some 3%nat
  /\ char_at buffer encrypted_begin = "!"%char
  /\ strchr (drop encrypted_begin buffer) ":" = Some (S (length hash))
  /\ (encrypted_end - (encrypted_begin + 1))%nat = length hash
  /\ take (length hash) (drop (encrypted_begin + 1) buffer) = hash
  /\ take encrypted_begin buffer = before ++ chars "tng:"
  /\ drop encrypted_end buffer = ":"%char :: rest.
Proof.
  intros (-> & _ & Hhash). cbv zeta.
  replace (length before + 3 + 1 + S (length hash))%nat
    with (length before + (5 + length hash))%nat by lia.
  replace (length before + 3 + 1 + 1)%nat with (length before + 5)%nat by lia.
  replace (length before + 3 + 1)%nat with (length before + 4)%nat by lia.
  rewrite drop_app_length, char_at_app, !drop_app_add, take_app_add.
  change (chars "tng:" ++ "!"%char :: hash ++ ":"%char :: rest)
    with ("t"%char :: "n"%char :: "g"%char :: ":"%char :: "!"%char
          :: hash ++ ":"%char :: rest).
  split; [reflexivity|]. split; [reflexivity|]. split; [|split; [lia|split; [|split]]].
  - cbn [drop strchr]. change (Ascii.eqb "!" ":") with false.
    change (Ascii.eqb "!" NUL) with false. cbv iota.
    rewrite strchr_skip by exact Hhash. reflexivity.
  - cbn [drop]. apply take_app_length.
  - reflexivity.
  - cbn [drop Nat.add]. apply drop_app_length.
Qed.

Section ReplacePasswordFacts.

Variable crypt_r : list ascii -> list ascii -> option (list ascii).
Variable g : globals.

Hypothesis Hvalid : eeprom_valid g = true.
Hypothesis Hversion : 1 <= data_version (header (eeprom g)).

(** Up to "find entry for account". *)
Lemma replace_password_reads st fs log trace :
  fs !! SHADOW_PATH = Some st ->
  (st_size st <= SHADOW_BUFFER_LENGTH)%nat ->
  replace_password crypt_r g (World fs [] log trace)
  = replace_password_entry crypt_r g st (contents st)
      (World fs [] (log ++ shadow_read_log)
         (trace ++ shadow_read_trace (st_size st))).
Proof.
  intros Hst Hsize. unfold replace_password. rewrite Hvalid.
  destruct (Z.ltb_spec (data_version (header (eeprom g))) 1); [lia|].
  cbn [negb orb]. run. rewrite Hst. run. rewrite Hst. run.
  destruct (Nat.ltb_spec SHADOW_BUFFER_LENGTH (length (contents st)));
    [unfold st_size in Hsize; lia|].
  run. rewrite Hst. run. rewrite take_ge by lia.
  destruct (Z.ltb_spec (Z.of_nat (length (contents st))) 0); [lia|].
  rewrite Z.ltb_irrefl. run. worlds.
  unfold shadow_read_log, shadow_read_trace, st_size. rewrite <- !app_assoc.
  reflexivity.
Qed.

(** A locked hash of less than two characters. *)
Lemma replace_password_entry_short st buffer before hash rest w :
  locked_entry buffer before hash rest ->
  (length hash < 2)%nat ->
  replace_password_entry crypt_r g st buffer w = malformed w.
Proof.
  intros Hentry Hshort.
  destruct (locked_entry_parse _ _ _ _ Hentry) as (H1 & H2 & H3 & H4 & H5 & _).
  destruct Hentry as (_ & Hfind & _).
  unfold replace_password_entry. rewrite Hfind, H1. cbv zeta. rewrite H2.
  change (Ascii.eqb "!" "*") with false. change (Ascii.eqb "!" "!") with true.
  cbn [negb]. rewrite H3, H4.
  destruct (Nat.ltb_spec SHADOW_ENCRYPTED_LENGTH (length hash));
    [unfold SHADOW_ENCRYPTED_LENGTH in *; lia|].
  destruct (Nat.eqb_spec (length hash) SHADOW_ENCRYPTED_LENGTH);
    [unfold SHADOW_ENCRYPTED_LENGTH in *; lia|].
  destruct (Nat.ltb_spec (length hash) 2); [reflexivity|lia].
Qed.

(** A locked hash of usual length: the salt is cut out, the default
    password is hashed with it and compared. *)
Lemma replace_password_entry_hashes st buffer before hash rest w :
  locked_entry buffer before hash rest ->
  (2 <= length hash < SHADOW_ENCRYPTED_LENGTH)%nat ->
  replace_password_entry crypt_r g st buffer w
  = let result := crypt_r (chars DEFAULT_PASSWORD) (salt_of hash) in
    let w' := record_call (LibCrypt (chars DEFAULT_PASSWORD) (salt_of hash))
                (match result with Some _ => 1 | None => 0 end) w in
    match result with
    | None => panic "could not encrypt default password: %s (%d)" [] w'
    | Some crypt_result =>
        if strcmp_eq crypt_result hash then
          replace_password_write g st buffer (length before + 3 + 1)
            (length before + 3 + 1 + S (length hash))
            (log_line
               (print_line
                  "account %s has default password set, replacing with device specific password"
                  [AStr ACCOUNT_NAME]) w')
        else
          print
            "account %s does not have the default password set, skipping password replacement"
            [AStr ACCOUNT_NAME] w'
    end.
Proof.
  intros Hentry Hlen.
  destruct (locked_entry_parse _ _ _ _ Hentry) as (H1 & H2 & H3 & H4 & H5 & _).
  destruct Hentry as (_ & Hfind & Hhash).
  unfold replace_password_entry. rewrite Hfind, H1. cbv zeta. rewrite H2.
  change (Ascii.eqb "!" "*") with false. change (Ascii.eqb "!" "!") with true.
  cbn [negb]. rewrite H3, H4, H5.
  destruct (Nat.ltb_spec SHADOW_ENCRYPTED_LENGTH (length hash)); [lia|].
  destruct (Nat.eqb_spec (length hash) SHADOW_ENCRYPTED_LENGTH); [lia|].
  destruct (Nat.ltb_spec (length hash) 2); [lia|].
  assert (Hsalt : exists salt_used,
             (if negb (Ascii.eqb (char_at hash 0) "$") then ret 2%nat
              else match strrchr hash "$" with
                   | Some encrypted_prefix_end => ret encrypted_prefix_end
                   | None => malformed
                   end) w = Returns salt_used w
             /\ take salt_used hash = salt_of hash).
  { unfold salt_of. destruct (Ascii.eqb_spec (char_at hash 0) "$") as [Hd|Hd]; cbn [negb].
    - destruct (strrchr_found hash "$") as [k Hk].
      + eapply Forall_impl; [exact Hhash|]. intros c [_ Hc]. exact Hc.
      + destruct hash as [|c hash]; [cbn in Hlen; lia|]. cbn in Hd. subst c.
        apply list_elem_of_here.
      + rewrite Hk. exists k. split; reflexivity.
    - exists 2%nat. split; reflexivity. }
  destruct Hsalt as (salt_used & Hret & Hsalt).
  rewrite (bind_returns _ _ _ _ _ Hret). cbv beta zeta. rewrite Hsalt.
  unfold bind, lib_crypt.
  destruct (crypt_r (chars DEFAULT_PASSWORD) (salt_of hash)) as [r|]; [|reflexivity].
  destruct (strcmp_eq r hash); reflexivity.
Qed.

End ReplacePasswordFacts.

Lemma shadow_paths_distinct :
  SHADOW_BACKUP_PATH <> SHADOW_PATH /\ SHADOW_TMP_PATH <> SHADOW_PATH
  /\ SHADOW_BACKUP_PATH <> SHADOW_TMP_PATH.
Proof. repeat split; intros H; vm_compute in H; discriminate H. Qed.

Lemma migrated_lookup fs st buffer replacement :
  migrated fs st buffer replacement !! SHADOW_BACKUP_PATH = Some (copy_of st buffer)
  /\ migrated fs st buffer replacement !! SHADOW_PATH = Some (copy_of st replacement)
  /\ migrated fs st buffer replacement !! SHADOW_TMP_PATH = None
  /\ (forall path, path <> SHADOW_PATH -> path <> SHADOW_BACKUP_PATH ->
                   path <> SHADOW_TMP_PATH ->
                   migrated fs st buffer replacement !! path = fs !! path).
Proof.
  destruct shadow_paths_distinct as (H1 & H2 & H3). unfold migrated.
  split; [|split; [|split]].
  - rewrite lookup_insert_ne, lookup_delete_ne, lookup_insert_ne by congruence.
    apply lookup_insert_eq.
  - apply lookup_insert_eq.
  - rewrite lookup_insert_ne by congruence. apply lookup_delete_eq.
  - intros path Hp1 Hp2 Hp3.
    rewrite lookup_insert_ne, lookup_delete_ne, !lookup_insert_ne by congruence.
    reflexivity.
Qed.

Lemma replace_password_write_succeeds g st buffer encrypted_begin encrypted_end
    fs log trace :
  let replacement :=
    take encrypted_begin buffer ++ record_password g ++ drop encrypted_end buffer in
  exists log',
    replace_password_write g st buffer encrypted_begin encrypted_end
      (World fs [] log trace)
    = Returns tt
        (World (migrated fs st buffer replacement) [] log'
           (trace ++ shadow_backup_trace st buffer
            ++ shadow_replace_trace st (take encrypted_begin buffer)
                 (record_password g) (drop encrypted_end buffer))).
Proof.
  cbv zeta. unfold replace_password_write.
  step_with create_file_succeeds.
  erewrite bind_returns by (apply robust_write_succeeds, lookup_insert_eq). cbv beta.
  cbn [st_mode st_uid st_gid contents app]. rewrite insert_insert_eq.
  do 3 step_io.
  step_with create_file_succeeds.
  do 3 (erewrite bind_returns by (apply robust_write_succeeds, lookup_insert_eq);
        cbv beta; cbn [st_mode st_uid st_gid contents app]; rewrite insert_insert_eq).
  do 4 step_io.
  erewrite bind_returns by (apply sys_rename_succeeds, lookup_insert_eq). cbv beta.
  change (String.eqb SHADOW_TMP_PATH SHADOW_PATH) with false.
  change (0 <? 0) with false. cbv iota. unfold ret.
  eexists. unfold migrated, copy_of, shadow_backup_trace, shadow_replace_trace, created,
    written, record_password.
  rewrite <- !app_assoc. reflexivity.
Qed.

Lemma crypt_calls_app t1 t2 : crypt_calls (t1 ++ t2) = crypt_calls t1 ++ crypt_calls t2.
Proof. apply flat_map_app. Qed.

(** ** Properties of the password replacement *)

(** C9.  When the entry of the account is found and locked and both colons
    are there, but less than two characters stand between the '!' and the
    next ':', [replace_password] panics over a malformed entry; the shadow
    file is not touched. *)
Theorem replace_password_short_hash_panics crypt_r g w st before hash rest :
  eeprom_valid g = true ->
  1 <= data_version (header (eeprom g)) ->
  w_faults w = [] ->
  w_fs w !! SHADOW_PATH = Some st ->
  (st_size st <= SHADOW_BUFFER_LENGTH)%nat ->
  locked_entry (contents st) before hash rest ->
  (length hash < 2)%nat ->
  exists w',
    replace_password crypt_r g w = Panics w'
    /\ w_fs w' = w_fs w
    /\ w_log w' = w_log w ++ shadow_read_log
                  ++ [panic_line "encrypted section for account %s is malformed"
                        [AStr ACCOUNT_NAME]].
Proof.
  intros Hvalid Hversion Hfaults Hst Hsize Hentry Hshort.
  destruct w as [fs faults log trace]. cbn [w_faults w_fs w_log] in *. subst faults.
  rewrite (replace_password_reads crypt_r g Hvalid Hversion st fs log trace Hst Hsize).
  rewrite (replace_password_entry_short crypt_r g st _ _ _ _ _ Hentry Hshort).
  eexists. unfold malformed, panic. worlds. rewrite <- app_assoc.
  split; [reflexivity|]. split; reflexivity.
Qed.

(** C3, as the code has it.  For a locked hash of 2 to 511 characters,
    [replace_password] calls [crypt_r] once, with the default password and
    a salt which is the first two characters of the hash when the hash does
    not begin with '$', and otherwise the part of the hash before its last
    '$': that '$' is not part of the salt. *)
Theorem crypt_salt_of_locked_hash crypt_r g w st before hash rest :
  eeprom_valid g = true ->
  1 <= data_version (header (eeprom g)) ->
  w_faults w = [] ->
  w_fs w !! SHADOW_PATH = Some st ->
  (st_size st <= SHADOW_BUFFER_LENGTH)%nat ->
  locked_entry (contents st) before hash rest ->
  (2 <= length hash < SHADOW_ENCRYPTED_LENGTH)%nat ->
  exists evs salt,
    w_trace (final_world (replace_password crypt_r g w)) = w_trace w ++ evs
    /\ crypt_calls evs = [(chars DEFAULT_PASSWORD, salt)]
    /\ (char_at hash 0 <> "$"%char -> salt = take 2 hash)
    /\ (char_at hash 0 = "$"%char ->
        exists tail, hash = salt ++ "$"%char :: tail /\ "$"%char ∉ tail).
Proof.
  intros Hvalid Hversion Hfaults Hst Hsize Hentry Hlen.
  destruct w as [fs faults log trace]. cbn [w_faults w_fs w_trace] in *. subst faults.
  rewrite (replace_password_reads crypt_r g Hvalid Hversion st fs log trace Hst Hsize).
  rewrite (replace_password_entry_hashes crypt_r g st _ _ _ _ _ Hentry Hlen). cbv zeta.
  assert (Hnul : Forall (fun c => c <> NUL) hash).
  { destruct Hentry as (_ & _ & Hhash). eapply Forall_impl; [exact Hhash|].
    intros c [_ Hc]. exact Hc. }
  assert (Hcalls : forall tail,
             crypt_calls tail = [] ->
             crypt_calls (shadow_read_trace (st_size st)
                          ++ crypt_event crypt_r (salt_of hash) :: tail)
             = [(chars DEFAULT_PASSWORD, salt_of hash)]).
  { intros tail Htail. rewrite crypt_calls_app.
    change (crypt_calls (crypt_event crypt_r (salt_of hash) :: tail))
      with ((chars DEFAULT_PASSWORD, salt_of hash) :: crypt_calls tail).
    rewrite Htail. reflexivity. }
  assert (Hsalt : (char_at hash 0 <> "$"%char -> salt_of hash = take 2 hash)
                  /\ (char_at hash 0 = "$"%char ->
                      exists tail, hash = salt_of hash ++ "$"%char :: tail
                                   /\ "$"%char ∉ tail)).
  { unfold salt_of. split; intros Hd.
    - destruct (Ascii.eqb_spec (char_at hash 0) "$"); [contradiction|reflexivity].
    - rewrite Hd. cbn [Ascii.eqb negb].
      destruct (strrchr_found hash "$" Hnul) as [k Hk].
      + destruct hash as [|c hash]; [cbn in Hlen; lia|]. cbn in Hd. subst c.
        apply list_elem_of_here.
      + change (negb (Ascii.eqb "$" "$")) with false. cbv iota. rewrite Hk.
        apply strrchr_last; assumption. }
  fold (crypt_event crypt_r (salt_of hash)).
  destruct (crypt_r (chars DEFAULT_PASSWORD) (salt_of hash)) as [r|] eqn:Hr.
  - destruct (strcmp_eq r hash).
    + worlds.
      match goal with
      | |- context [replace_password_write g st ?b ?i ?j (World ?f [] ?l ?t)] =>
          destruct (replace_password_write_succeeds g st b i j f l t) as (log' & Hw)
      end.
      cbv zeta in Hw. rewrite Hw. cbn [final_world w_trace].
      eexists _, (salt_of hash). rewrite <- !app_assoc.
      split; [reflexivity|]. split; [|exact Hsalt].
      apply Hcalls. rewrite crypt_calls_app. reflexivity.
    + unfold print. worlds. cbn [final_world w_trace].
      eexists _, (salt_of hash). rewrite <- !app_assoc.
      split; [reflexivity|]. split; [|exact Hsalt]. apply Hcalls. reflexivity.
  - unfold panic. worlds. cbn [final_world w_trace].
    eexists _, (salt_of hash). rewrite <- !app_assoc.
    split; [reflexivity|]. split; [|exact Hsalt]. apply Hcalls. reflexivity.
Qed.

(** C4.  For a shadow file whose entry for the account is locked with a
    hash of 2 to 511 characters.  When the hash is what [crypt_r] gives for
    the default password under the extracted salt, [replace_password] first
    writes /etc/shadow- with the bytes of the original, then writes
    /etc/shadow+ with the original in which the record's password stands in
    place of '!' and hash, every other byte kept, and renames it onto
    /etc/shadow; no other file changes.  When the hash is not that of the
    default password, no file is created or changed. *)
Theorem replace_password_migrates crypt_r g w st before hash rest :
  eeprom_valid g = true ->
  1 <= data_version (header (eeprom g)) ->
  w_faults w = [] ->
  w_fs w !! SHADOW_PATH = Some st ->
  (st_size st <= SHADOW_BUFFER_LENGTH)%nat ->
  locked_entry (contents st) before hash rest ->
  (2 <= length hash < SHADOW_ENCRYPTED_LENGTH)%nat ->
  let replacement := before ++ chars "tng:" ++ record_password g ++ ":"%char :: rest in
  let o := replace_password crypt_r g w in
  let read := shadow_read_trace (st_size st) ++ [crypt_event crypt_r (salt_of hash)] in
  (forall r, crypt_r (chars DEFAULT_PASSWORD) (salt_of hash) = Some r ->
             cstr r = hash ->
     exists w',
       o = Returns tt w'
       /\ w_fs w' !! SHADOW_BACKUP_PATH = Some (copy_of st (contents st))
       /\ w_fs w' !! SHADOW_PATH = Some (copy_of st replacement)
       /\ w_fs w' !! SHADOW_TMP_PATH = None
       /\ (forall path, path <> SHADOW_PATH -> path <> SHADOW_BACKUP_PATH ->
                        path <> SHADOW_TMP_PATH -> w_fs w' !! path = w_fs w !! path)
       /\ w_trace w'
          = w_trace w ++ read ++ shadow_backup_trace st (contents st)
            ++ shadow_replace_trace st (before ++ chars "tng:") (record_password g)
                 (":"%char :: rest))
  /\ ((forall r, crypt_r (chars DEFAULT_PASSWORD) (salt_of hash) = Some r ->
                 cstr r <> hash) ->
      w_fs (final_world o) = w_fs w
      /\ w_trace (final_world o) = w_trace w ++ read).
Proof.
  intros Hvalid Hversion Hfaults Hst Hsize Hentry Hlen replacement o read.
  subst replacement o read.
  destruct w as [fs faults log trace]. cbn [w_faults w_fs w_trace] in *. subst faults.
  rewrite (replace_password_reads crypt_r g Hvalid Hversion st fs log trace Hst Hsize).
  rewrite (replace_password_entry_hashes crypt_r g st _ _ _ _ _ Hentry Hlen). cbv zeta.
  destruct (locked_entry_parse _ _ _ _ Hentry) as (_ & _ & _ & _ & _ & Htake & Hdrop).
  cbv zeta in Htake, Hdrop.
  assert (Hnul : cstr hash = hash).
  { apply cstr_no_nul. destruct Hentry as (_ & _ & Hhash).
    eapply Forall_impl; [exact Hhash|]. intros c [_ Hc]. exact Hc. }
  unfold crypt_event. split.
  - intros r Hr Heq. rewrite Hr. unfold strcmp_eq.
    rewrite bool_decide_eq_true_2 by congruence. worlds.
    match goal with
    | |- context [replace_password_write g st ?b ?i ?j (World ?f [] ?l ?t)] =>
        destruct (replace_password_write_succeeds g st b i j f l t) as (log' & Hw)
    end.
    cbv zeta in Hw. rewrite Hw, Htake, Hdrop. eexists. split; [reflexivity|].
    cbn [w_fs w_trace].
    destruct (migrated_lookup fs st (contents st)
                ((before ++ chars "tng:") ++ record_password g ++ ":"%char :: rest))
      as (H1 & H2 & H3 & H4).
    rewrite <- !app_assoc in *. repeat (split; [assumption|]). reflexivity.
  - intros Hne.
    destruct (crypt_r (chars DEFAULT_PASSWORD) (salt_of hash)) as [r|] eqn:Hr.
    + unfold strcmp_eq. rewrite bool_decide_eq_false_2.
      * unfold print. worlds. cbn [final_world w_fs w_trace].
        rewrite <- !app_assoc. split; reflexivity.
      * rewrite Hnul. apply Hne. reflexivity.
    + unfold panic. worlds. cbn [final_world w_fs w_trace].
      rewrite <- !app_assoc. split; reflexivity.
Qed.

(** ** The sample shadow files *)

Ltac plain_hash :=
  vm_compute; repeat (apply List.Forall_cons; [split; discriminate|]);
  apply List.Forall_nil.

Lemma sample_entry :
  locked_entry (contents (shadow_file shadow_default)) sample_before sample_hash
    sample_rest.
Proof.
  split; [vm_compute; reflexivity|]. split; [vm_compute; reflexivity|]. plain_hash.
Qed.

Lemma short_entry :
  locked_entry (contents (shadow_file shadow_short)) [] (chars "x") sample_rest.
Proof.
  split; [vm_compute; reflexivity|]. split; [vm_compute; reflexivity|]. plain_hash.
Qed.

Lemma sample_globals_valid :
  eeprom_valid sample_globals = true
  /\ 1 <= data_version (header (eeprom sample_globals)).
Proof. split; vm_compute; [reflexivity|discriminate]. Qed.

Lemma shadow_file_fits content :
  Nat.leb (st_size (shadow_file content)) SHADOW_BUFFER_LENGTH = true ->
  (st_size (shadow_file content) <= SHADOW_BUFFER_LENGTH)%nat.
Proof. apply Nat.leb_le. Qed.

Lemma replace_password_panics_on_one_character_hash :
  exists w',
    replace_password toy_crypt sample_globals (shadow_world shadow_short) = Panics w'
    /\ w_fs w' = w_fs (shadow_world shadow_short).
Proof.
  destruct (replace_password_short_hash_panics toy_crypt sample_globals
              (shadow_world shadow_short) (shadow_file shadow_short)
              [] (chars "x") sample_rest) as (w' & Hp & Hfs & _).
  - apply sample_globals_valid.
  - apply sample_globals_valid.
  - reflexivity.
  - vm_compute. reflexivity.
  - apply shadow_file_fits. vm_compute. reflexivity.
  - apply short_entry.
  - vm_compute. lia.
  - exists w'. split; assumption.
Defined.

Lemma sample_hash_salt :
  exists evs salt tail,
    w_trace (final_world
               (replace_password toy_crypt sample_globals (shadow_world shadow_default)))
    = evs
    /\ crypt_calls evs = [(chars DEFAULT_PASSWORD, salt)]
    /\ sample_hash = salt ++ "$"%char :: tail
    /\ "$"%char ∉ tail.
Proof.
  destruct (crypt_salt_of_locked_hash toy_crypt sample_globals
              (shadow_world shadow_default) (shadow_file shadow_default)
              sample_before sample_hash sample_rest)
    as (evs & salt & Ht & Hcalls & _ & Hsalt).
  - apply sample_globals_valid.
  - apply sample_globals_valid.
  - reflexivity.
  - vm_compute. reflexivity.
  - apply shadow_file_fits. vm_compute. reflexivity.
  - apply sample_entry.
  - vm_compute. lia.
  - destruct (Hsalt eq_refl) as (tail & Hhash & Hnot).
    exists evs, salt, tail. repeat split; assumption.
Defined.

(** C3, as the specification has it, fails: for the hash $6$abc$hcba6defa
    the salt passed to [crypt_r] is $6$abc, without the last '$' of the
    hash. *)
Lemma salt_stops_before_last_delimiter :
  let o := replace_password toy_crypt sample_globals (shadow_world shadow_default) in
  sample_hash = chars "$6$abc$" ++ chars "hcba6defa"
  /\ ("$"%char ∉ chars "hcba6defa")
  /\ crypt_calls (w_trace (final_world o)) = [(chars DEFAULT_PASSWORD, chars "$6$abc")]
  /\ chars "$6$abc" <> chars "$6$abc$".
Proof.
  vm_compute. split; [reflexivity|]. split; [|split; [reflexivity|discriminate]].
  intros H. repeat (apply elem_of_cons in H as [H|H]; [discriminate H|]). inversion H.
Qed.

Lemma sample_shadow_is_migrated :
  exists w',
    replace_password toy_crypt sample_globals (shadow_world shadow_default)
    = Returns tt w'
    /\ contents <$> (w_fs w' !! SHADOW_BACKUP_PATH) = Some (chars shadow_default)
    /\ contents <$> (w_fs w' !! SHADOW_PATH)
       = Some (sample_before ++ chars "tng:$6$abc$device:" ++ sample_rest).
Proof.
  destruct (replace_password_migrates toy_crypt sample_globals
              (shadow_world shadow_default) (shadow_file shadow_default)
              sample_before sample_hash sample_rest) as [Hdefault _].
  - apply sample_globals_valid.
  - apply sample_globals_valid.
  - reflexivity.
  - vm_compute. reflexivity.
  - apply shadow_file_fits. vm_compute. reflexivity.
  - apply sample_entry.
  - vm_compute. lia.
  - destruct (Hdefault sample_hash) as (w' & Hr & Hbackup & Hshadow & _).
    + vm_compute. reflexivity.
    + vm_compute. reflexivity.
    + exists w'. split; [exact Hr|]. rewrite Hbackup, Hshadow.
      split; vm_compute; reflexivity.
Defined.

(* ===================================================================== *)
(** * Part III: further properties of the code                             *)
(* ===================================================================== *)

(** ** The record reader, seen from the device *)

Lemma read_header_total bus count :
  forall address u,
    (forall i, (address <= i < address + count)%nat -> rx bus i <> None) ->
    exists u', read_header bus count address u = inr u'.
Proof.
  induction count as [|count IH]; intros address u H; cbn [read_header]; [eauto|].
  unfold i2c_read8. destruct (rx bus address) as [data|] eqn:E.
  - apply IH. intros i Hi. apply H. lia.
  - exfalso. apply (H address); [lia|exact E].
Qed.

Lemma read_data_total bus count :
  forall address u sum,
    (forall i, (address <= i < address + count)%nat -> rx bus i <> None) ->
    exists u' sum', read_data bus count address u sum = inr (u', sum').
Proof.
  induction count as [|count IH]; intros address u sum H; cbn [read_data]; [eauto|].
  unfold i2c_read8. destruct (rx bus address) as [data|] eqn:E.
  - apply IH. intros i Hi. apply H. lia.
  - exfalso. apply (H address); [lia|exact E].
Qed.

(** The header loop leaves the header of the device in the union. *)
Lemma read_header_image bus u0 u1 :
  read_header bus sizeof_header 0 u0 = inr u1 ->
  transfers_succeed bus sizeof_header
  /\ header (overlay u1) = header (overlay (device_image bus u0 0))
  /\ bytes_at u1 8 2 = map (device_byte bus) (seq 8 2)
  /\ bytes_at u1 10 1 = [device_byte bus 10]
  /\ forall i, u1 i = if (i <? sizeof_header)%nat then device_byte bus i else u0 i.
Proof.
  intros H. apply read_header_inr in H as [Hrx Hu].
  assert (Hu1 : forall i, u1 i = if (i <? sizeof_header)%nat
                                 then device_byte bus i else u0 i).
  { intros i. rewrite Hu.
    destruct (Nat.leb_spec 0 i), (Nat.ltb_spec i (0 + sizeof_header)),
      (Nat.ltb_spec i sizeof_header); cbn [andb]; auto; lia. }
  split; [intros k Hk; apply Hrx; lia|]. split; [|split; [|split]].
  - apply header_overlay_ext. intros i Hi. rewrite Hu1. unfold device_image.
    destruct (Nat.ltb_spec i sizeof_header); [|lia].
    destruct (Nat.ltb_spec i (Nat.min (sizeof_header + 0) sizeof_eeprom)); [reflexivity|].
    unfold sizeof_eeprom, sizeof_header in *. lia.
  - apply bytes_at_device. intros i Hi. rewrite Hu1.
    destruct (Nat.ltb_spec i sizeof_header); [reflexivity|]. unfold sizeof_header in *. lia.
  - rewrite (bytes_at_device bus); [reflexivity|]. intros i Hi. rewrite Hu1.
    destruct (Nat.ltb_spec i sizeof_header); [reflexivity|]. unfold sizeof_header in *. lia.
  - exact Hu1.
Qed.

(** The data loop leaves the device image in the union and the CRC of the
    stream in the checksum. *)
Lemma read_data_image bus u0 u1 u2 count sum :
  read_header bus sizeof_header 0 u0 = inr u1 ->
  read_data bus count sizeof_header u1
    (u32 (crc32 (u32 (crc32 (u32 (crc32 0 [])) (bytes_at u1 8 2))) (bytes_at u1 10 1)))
  = inr (u2, sum) ->
  transfers_succeed bus (sizeof_header + count)
  /\ sum = crc32 (crc32 0 []) (device_stream bus count)
  /\ overlay u2 = overlay (device_image bus u0 count)
  /\ header (overlay u2) = header (overlay (device_image bus u0 0)).
Proof.
  intros Hh Hd.
  destruct (read_header_image bus u0 u1 Hh) as (Hrx1 & Hhdr & H89 & H10 & Hu1).
  rewrite H89, H10 in Hd. apply read_data_inr in Hd as (Hrx2 & Hu2 & Hsum).
  split; [|split; [|split]].
  - intros k Hk. destruct (Nat.lt_ge_cases k sizeof_header); [apply Hrx1|apply Hrx2]; lia.
  - rewrite Hsum. cbn [seq map]. rewrite initial_sum_eq by apply device_byte_is_byte.
    rewrite crc32_streamed; [|bytes_ok|apply Forall_device_bytes].
    unfold device_stream. reflexivity.
  - apply overlay_ext. intros i Hi. rewrite Hu2, Hu1. unfold device_image.
    destruct (Nat.leb_spec sizeof_header i), (Nat.ltb_spec i (sizeof_header + count)),
      (Nat.ltb_spec i sizeof_eeprom), (Nat.ltb_spec i sizeof_header),
      (Nat.ltb_spec i (Nat.min (sizeof_header + count) sizeof_eeprom));
      cbn [andb]; auto; lia.
  - rewrite <- Hhdr. apply header_overlay_ext. intros i Hi. rewrite Hu2.
    destruct (Nat.leb_spec sizeof_header i); [lia|reflexivity].
Qed.

Lemma read_eeprom_valid_bus bus u0 g :
  eeprom_valid (read_eeprom bus u0 g).1 = true ->
  open_fails bus = false /\ slave_fails bus = false /\ seek_fails bus = false.
Proof.
  unfold read_eeprom.
  destruct (open_fails bus); [discriminate|].
  destruct (slave_fails bus); [discriminate|].
  destruct (seek_fails bus); [discriminate|]. auto.
Qed.

Lemma read_eeprom_sound bus u0 g :
  eeprom_valid (read_eeprom bus u0 g).1 = true ->
  well_formed bus u0
  /\ eeprom (read_eeprom bus u0 g).1
     = overlay (device_image bus u0
                  (Z.to_nat (data_length (header (overlay (device_image bus u0 0)))))).
Proof.
  intros Hvalid. destruct (read_eeprom_valid_bus bus u0 g Hvalid) as (Ho & Hs & Hk).
  destruct (read_eeprom_cases bus u0 g) as [[Hrej _]|(u1 & u2 & Hacc)]; [congruence|].
  destruct Hacc as [Hh Hm Hd Hv Hl H1 H2 H3 Hg].
  destruct (read_header_image bus u0 u1 Hh) as (Hrx1 & Hhdr & _).
  destruct (read_data_image bus u0 u1 u2 _ _ Hh Hd) as (Hrx2 & Hsum & Hov & Hhdr2).
  rewrite Hhdr in Hrx2, Hsum, Hov. rewrite Hhdr2 in Hsum, Hv, Hl. rewrite Hhdr in Hm.
  rewrite Hov in H1, H2, H3. rewrite Hg. cbn [eeprom]. split; [|exact Hov].
  constructor; auto.
Qed.

Lemma read_eeprom_complete bus u0 g :
  well_formed bus u0 ->
  (read_eeprom bus u0 g).1
  = {| eeprom := overlay (device_image bus u0
                   (Z.to_nat (data_length (header (overlay (device_image bus u0 0))))));
       eeprom_valid := true |}.
Proof.
  intros [Ho Hs Hk Hrx1 Hm Hrx2 Hsum Hv Hl (H1 & H2 & H3)].
  destruct (read_header_total bus sizeof_header 0 u0) as [u1 Hh].
  { intros i Hi. apply Hrx1. lia. }
  destruct (read_header_image bus u0 u1 Hh) as (_ & Hhdr & _).
  destruct (read_data_total bus
              (Z.to_nat (data_length (header (overlay (device_image bus u0 0)))))
              sizeof_header u1
              (u32 (crc32 (u32 (crc32 (u32 (crc32 0 [])) (bytes_at u1 8 2)))
                      (bytes_at u1 10 1))))
    as (u2 & sum & Hd).
  { intros i Hi. apply Hrx2. lia. }
  destruct (read_data_image bus u0 u1 u2 _ _ Hh Hd) as (_ & Hsum' & Hov & Hhdr2).
  unfold read_eeprom. rewrite Ho, Hs, Hk, Hh, Hhdr. cbv zeta.
  rewrite (proj2 (Z.eqb_eq _ _) Hm). cbn [negb]. rewrite Hd. rewrite Hhdr2, Hov.
  rewrite <- Hsum' in Hsum. rewrite (proj2 (Z.eqb_eq _ _) Hsum). cbn [negb].
  destruct (Z.ltb_spec (data_version (header (overlay (device_image bus u0 0)))) 1);
    [lia|].
  destruct (Z.eqb_spec (data_version (header (overlay (device_image bus u0 0)))) 1)
    as [Hv1|Hv1];
    [destruct (Z.ltb_spec (data_length (header (overlay (device_image bus u0 0))))
                 (Z.of_nat sizeof_data_v1)); [specialize (Hl Hv1); lia|]|];
    cbn [andb]; rewrite H1, H2, H3; reflexivity.
Qed.

Lemma device_image_header bus u0 count :
  header (overlay (device_image bus u0 count)) = header (overlay (device_byte bus)).
Proof.
  apply header_overlay_ext. intros i Hi. unfold device_image.
  destruct (Nat.ltb_spec i (Nat.min (sizeof_header + count) sizeof_eeprom));
    [reflexivity|].
  unfold sizeof_eeprom, sizeof_header in *. lia.
Qed.

Lemma device_image_full bus u0 u0' count :
  (sizeof_data_v1 <= count)%nat ->
  overlay (device_image bus u0 count) = overlay (device_image bus u0' count).
Proof.
  intros Hc. apply overlay_ext. intros i Hi. unfold device_image.
  destruct (Nat.ltb_spec i (Nat.min (sizeof_header + count) sizeof_eeprom));
    [reflexivity|].
  unfold sizeof_eeprom in *. lia.
Qed.

Lemma read_eeprom_valid_header bus u0 g :
  eeprom_valid (read_eeprom bus u0 g).1 = true ->
  header (eeprom (read_eeprom bus u0 g).1) = header (overlay (device_byte bus)).
Proof.
  intros H. destruct (read_eeprom_sound bus u0 g H) as [_ ->].
  apply device_image_header.
Qed.

(** X1.  [read_eeprom] marks the record valid exactly when the device can
    be opened and addressed, the header and the announced payload can be
    transferred, the magic number is the constant, the stored checksum is
    the CRC-32 of the bytes from offset 8 to the end of the payload, the
    version is at least 1, a version 1 payload is at least as long as
    [EEPROM_DataV1], and the three string fields end in a zero byte. *)
Theorem read_eeprom_valid_iff_well_formed bus u0 g :
  eeprom_valid (read_eeprom bus u0 g).1 = true <-> well_formed bus u0.
Proof.
  split.
  - intros H. apply (read_eeprom_sound bus u0 g H).
  - intros H. rewrite (read_eeprom_complete bus u0 g H). reflexivity.
Qed.

(** X2.  When [read_eeprom] does not mark the record valid, the global
    record is what it was before the call: the local union is copied to it
    only after the last check. *)
Theorem read_eeprom_failure_keeps_record bus u0 g :
  eeprom_valid (read_eeprom bus u0 g).1 = false ->
  eeprom (read_eeprom bus u0 g).1 = eeprom g.
Proof.
  intros H. destruct (read_eeprom_cases bus u0 g) as [[_ He]|(u1 & u2 & Hacc)];
    [exact He|].
  rewrite (acc_globals _ _ _ _ _ Hacc) in H. discriminate.
Qed.

Lemma version0_record_kept :
  eeprom (read_eeprom (bus_of_image version0_image) stack_garbage initial_globals).1
  = eeprom initial_globals.
Proof. apply read_eeprom_failure_keeps_record. vm_compute. reflexivity. Defined.

Lemma strlen_terminated (field : list Z) :
  field <> [] -> last_char field = 0 ->
  (strlen (map char_of_byte field) < length field)%nat.
Proof.
  unfold last_char. induction field as [|b [|b' field] IH]; intros Hne Hl; [congruence| |].
  - cbn in Hl. subst b. cbn. lia.
  - change (List.last (b :: b' :: field) 0) with (List.last (b' :: field) 0) in Hl.
    specialize (IH ltac:(discriminate) Hl).
    change (map char_of_byte (b :: b' :: field))
      with (char_of_byte b :: map char_of_byte (b' :: field)).
    cbn [strlen length] in *. destruct (Ascii.eqb (char_of_byte b) NUL); lia.
Qed.

Lemma bytes_at_length (u : memory) offset count : length (bytes_at u offset count) = count.
Proof. unfold bytes_at. rewrite length_map, length_seq. reflexivity. Qed.

(** X3.  In a record marked valid every string field holds a C string
    that ends inside the field: [strlen] of the UID is below 7, of the
    hostname below 65 and of the encrypted password below 107. *)
Theorem read_eeprom_valid_strings_fit bus u0 g :
  eeprom_valid (read_eeprom bus u0 g).1 = true ->
  let d := data_v1 (eeprom (read_eeprom bus u0 g).1) in
  (strlen (map char_of_byte (uid d)) < sizeof_uid)%nat
  /\ (strlen (map char_of_byte (hostname d)) < sizeof_hostname)%nat
  /\ (strlen (map char_of_byte (encrypted_password d)) < sizeof_encrypted_password)%nat.
Proof.
  intros H. destruct (read_eeprom_cases bus u0 g) as [[Hrej _]|(u1 & u2 & Hacc)];
    [congruence|].
  destruct Hacc as [_ _ _ _ _ H1 H2 H3 ->]. cbv zeta. cbn [eeprom] in *.
  unfold overlay in *. cbn [data_v1 uid hostname encrypted_password] in *.
  repeat split.
  - rewrite <- (bytes_at_length u2 15 sizeof_uid) at 2.
    apply strlen_terminated; [apply bytes_at_nonempty; unfold sizeof_uid; lia|exact H1].
  - rewrite <- (bytes_at_length u2 22 sizeof_hostname) at 2.
    apply strlen_terminated; [apply bytes_at_nonempty; unfold sizeof_hostname; lia|exact H2].
  - rewrite <- (bytes_at_length u2 87 sizeof_encrypted_password) at 2.
    apply strlen_terminated;
      [apply bytes_at_nonempty; unfold sizeof_encrypted_password; lia|exact H3].
Qed.

Lemma sample_record_strings_fit :
  let d := data_v1 (eeprom sample_globals) in
  (strlen (map char_of_byte (uid d)) < sizeof_uid)%nat
  /\ (strlen (map char_of_byte (hostname d)) < sizeof_hostname)%nat
  /\ (strlen (map char_of_byte (encrypted_password d)) < sizeof_encrypted_password)%nat.
Proof.
  apply (read_eeprom_valid_strings_fit (bus_of_image (eeprom_image 1 sample_payload))
           stack_garbage initial_globals).
  vm_compute. reflexivity.
Defined.

(** X4.  A valid record whose announced payload covers the whole of
    [EEPROM_DataV1] does not depend on what the local union and the global
    record held before the call. *)
Theorem read_eeprom_full_record_ignores_stack bus u0 g u0' g' :
  eeprom_valid (read_eeprom bus u0 g).1 = true ->
  Z.of_nat sizeof_data_v1 <= data_length (header (eeprom (read_eeprom bus u0 g).1)) ->
  (read_eeprom bus u0' g').1 = (read_eeprom bus u0 g).1.
Proof.
  intros H Hlen. rewrite (read_eeprom_valid_header bus u0 g H) in Hlen.
  destruct (read_eeprom_sound bus u0 g H) as [Hwf _].
  assert (Hwf' : well_formed bus u0').
  { destruct Hwf as [Ho Hs Hk Hrx1 Hm Hrx2 Hsum Hv Hl Ht].
    cbv zeta in Ht. rewrite device_image_header in *.
    constructor; auto; cbv zeta; rewrite ?device_image_header; auto.
    rewrite (device_image_full bus u0' u0) by lia. exact Ht. }
  rewrite (read_eeprom_complete bus u0' g' Hwf'), (read_eeprom_complete bus u0 g Hwf).
  rewrite !device_image_header. f_equal. apply device_image_full. lia.
Qed.

Lemma sample_record_ignores_stack :
  (read_eeprom (bus_of_image (eeprom_image 1 sample_payload)) (fun _ => 0)
     sample_globals).1
  = sample_globals.
Proof.
  apply (read_eeprom_full_record_ignores_stack
           (bus_of_image (eeprom_image 1 sample_payload)) stack_garbage initial_globals).
  - vm_compute. reflexivity.
  - vm_compute. discriminate.
Defined.

(** ** What the checksum detects *)

Lemma lxor_cancel_r a b c : Z.lxor a c = Z.lxor b c -> a = b.
Proof.
  intros H. apply (f_equal (fun x => Z.lxor x c)) in H.
  rewrite !Z.lxor_assoc, Z.lxor_nilpotent, !Z.lxor_0_r in H. exact H.
Qed.

Lemma lxor_cancel_l a b c : Z.lxor c a = Z.lxor c b -> a = b.
Proof. rewrite !(Z.lxor_comm c). apply lxor_cancel_r. Qed.

Lemma crc_shift_top_bit c : is_u32 c -> Z.testbit (crc_shift c) 31 = Z.testbit c 0.
Proof.
  intros Hc. unfold crc_shift. rewrite Z.lxor_spec, Z.shiftr_spec by lia.
  replace (Z.testbit c (31 + 1)) with false.
  - destruct (Z.testbit c 0); reflexivity.
  - symmetry. apply Z.testbit_false; [lia|].
    unfold is_u32 in Hc. rewrite Z.div_small by (change (31 + 1) with 32; lia).
    reflexivity.
Qed.

Lemma crc_shift_inj a b : is_u32 a -> is_u32 b -> crc_shift a = crc_shift b -> a = b.
Proof.
  intros Ha Hb H.
  assert (H0 : Z.testbit a 0 = Z.testbit b 0).
  { rewrite <- (crc_shift_top_bit a Ha), <- (crc_shift_top_bit b Hb), H. reflexivity. }
  unfold crc_shift in H. rewrite H0 in H. apply lxor_cancel_r in H.
  apply Z.bits_inj'. intros n Hn.
  destruct (Z.eq_dec n 0) as [->|Hne]; [exact H0|].
  replace n with (n - 1 + 1) by lia.
  rewrite <- !Z.shiftr_spec by lia. rewrite H. reflexivity.
Qed.

Lemma is_u32_iter_crc_shift n c : is_u32 c -> is_u32 (Nat.iter n crc_shift c).
Proof.
  intros Hc. induction n as [|n IH]; cbn [Nat.iter nat_rect];
    auto using is_u32_crc_shift.
Qed.

Lemma iter_crc_shift_inj n a b :
  is_u32 a -> is_u32 b -> Nat.iter n crc_shift a = Nat.iter n crc_shift b -> a = b.
Proof.
  intros Ha Hb. induction n as [|n IH]; cbn [Nat.iter nat_rect]; [auto|].
  intros H. apply IH. apply crc_shift_inj; auto using is_u32_iter_crc_shift.
Qed.

Lemma crc_byte_inj_state c c' b :
  is_u32 c -> is_u32 c' -> is_byte b -> crc_byte c b = crc_byte c' b -> c = c'.
Proof.
  intros Hc Hc' Hb. unfold crc_byte. generalize 8%nat. intros n H.
  apply iter_crc_shift_inj in H;
    [|apply is_u32_lxor; [assumption|apply is_u32_byte; assumption]..].
  exact (lxor_cancel_r _ _ _ H).
Qed.

Lemma crc_byte_inj_byte c b b' :
  is_u32 c -> is_byte b -> is_byte b' -> crc_byte c b = crc_byte c b' -> b = b'.
Proof.
  intros Hc Hb Hb'. unfold crc_byte. generalize 8%nat. intros n H.
  apply iter_crc_shift_inj in H;
    [|apply is_u32_lxor; [assumption|apply is_u32_byte; assumption]..].
  exact (lxor_cancel_l _ _ _ H).
Qed.

Lemma fold_crc_byte_inj buf :
  Forall is_byte buf ->
  forall c c', is_u32 c -> is_u32 c' ->
    fold_left crc_byte buf c = fold_left crc_byte buf c' -> c = c'.
Proof.
  induction 1 as [|b buf Hb Hbuf IH]; intros c c' Hc Hc'; [auto|].
  rewrite !fold_left_step. intros H.
  apply IH in H; auto using is_u32_crc_byte.
  eapply crc_byte_inj_state; eauto.
Qed.

(** Two streams that differ in one byte have different checksums. *)
Lemma crc32_differs c pre b b' post :
  Forall is_byte pre -> is_byte b -> is_byte b' -> Forall is_byte post ->
  crc32 c (pre ++ b :: post) = crc32 c (pre ++ b' :: post) -> b = b'.
Proof.
  intros Hpre Hb Hb' Hpost H. unfold crc32 in H. apply lxor_cancel_r in H.
  rewrite !fold_left_app, !fold_left_step in H.
  assert (Hs : is_u32 (fold_left crc_byte pre (Z.lxor (Z.land c mask32) mask32)))
    by (apply is_u32_fold_crc_byte; [apply is_u32_crc_start|exact Hpre]).
  apply fold_crc_byte_inj in H; auto using is_u32_crc_byte.
  eapply crc_byte_inj_byte; eauto.
Qed.

Lemma le_value_cons b v :
  is_byte b ->
  Z.land (Z.lor b (Z.shiftl v 8)) 0xFF = b /\ Z.shiftr (Z.lor b (Z.shiftl v 8)) 8 = v.
Proof.
  intros Hb. unfold is_byte in Hb. split.
  - rewrite Z.land_lor_distr_l. change 0xFF with (Z.ones 8).
    rewrite !Z.land_ones by lia. rewrite Z.shiftl_mul_pow2 by lia.
    rewrite Z.mod_mul by lia. rewrite Z.lor_0_r. apply Z.mod_small.
    change (2 ^ 8) with 256. lia.
  - rewrite Z.shiftr_lor, Z.shiftr_shiftl_l by lia. rewrite Z.sub_diag, Z.shiftl_0_r.
    rewrite Z.shiftr_div_pow2 by lia. rewrite Z.div_small by (change (2 ^ 8) with 256; lia).
    reflexivity.
Qed.

Lemma le_value_inj l :
  Forall is_byte l ->
  forall l', Forall is_byte l' -> length l = length l' ->
    le_value l = le_value l' -> l = l'.
Proof.
  induction 1 as [|b l Hb Hl IH]; intros l' Hl' Hlen H.
  - destruct l'; [reflexivity|discriminate].
  - destruct l' as [|b' l']; [discriminate|]. inversion Hl' as [|? ? Hb' Hl'']; subst.
    cbn [le_value] in H.
    destruct (le_value_cons b (le_value l) Hb) as [E1 E2].
    destruct (le_value_cons b' (le_value l') Hb') as [E1' E2'].
    rewrite H in E1, E2. f_equal; [congruence|].
    apply IH; [exact Hl''|cbn in Hlen; lia|congruence].
Qed.

Lemma device_byte_corrupt bus address data i :
  device_byte (corrupt bus address data) i
  = if Nat.eqb i address then Z.land data 0xFF else device_byte bus i.
Proof.
  unfold device_byte, i2c_read8, corrupt. cbn [rx].
  destruct (Nat.eqb i address); reflexivity.
Qed.

Lemma map_device_byte_corrupt bus address data (l : list nat) :
  address ∉ l ->
  map (device_byte (corrupt bus address data)) l = map (device_byte bus) l.
Proof.
  intros Hn. apply map_ext_in. intros i Hi. rewrite device_byte_corrupt.
  destruct (Nat.eqb_spec i address) as [->|]; [|reflexivity].
  exfalso. apply Hn. apply list_elem_of_In. exact Hi.
Qed.

Lemma not_elem_of_seq (a start len : nat) :
  (a < start \/ start + len <= a)%nat -> a ∉ seq start len.
Proof. intros H Hin. apply list_elem_of_In, in_seq in Hin. lia. Qed.

Lemma bytes_at_corrupt bus address data offset count :
  (address < offset \/ offset + count <= address)%nat ->
  bytes_at (device_byte (corrupt bus address data)) offset count
  = bytes_at (device_byte bus) offset count.
Proof. intros H. apply map_device_byte_corrupt, not_elem_of_seq, H. Qed.

(** The checksummed stream of the corrupted device. *)
Lemma device_stream_corrupt bus address data count :
  (8 <= address < 11 + count)%nat ->
  exists pre post,
    Forall is_byte pre /\ Forall is_byte post
    /\ device_stream bus count = pre ++ device_byte bus address :: post
    /\ device_stream (corrupt bus address data) count
       = pre ++ Z.land data 0xFF :: post.
Proof.
  intros Ha.
  exists (map (device_byte bus) (seq 8 (address - 8))),
    (map (device_byte bus) (seq (S address) (10 + count - address))).
  split; [apply Forall_device_bytes|]. split; [apply Forall_device_bytes|].
  unfold device_stream.
  replace (3 + count)%nat with ((address - 8) + S (10 + count - address))%nat by lia.
  rewrite seq_app. replace (8 + (address - 8))%nat with address by lia.
  cbn [seq]. rewrite !map_app. cbn [map]. split; [reflexivity|].
  rewrite !map_device_byte_corrupt by (apply not_elem_of_seq; lia).
  rewrite device_byte_corrupt, Nat.eqb_refl. reflexivity.
Qed.

Lemma device_stream_intact bus address data count :
  (address < 8)%nat ->
  device_stream (corrupt bus address data) count = device_stream bus count.
Proof.
  intros Ha. unfold device_stream. apply map_device_byte_corrupt, not_elem_of_seq. lia.
Qed.

Lemma bytes_at_differ bus address data offset count :
  (offset <= address < offset + count)%nat ->
  bytes_at (device_byte (corrupt bus address data)) offset count
  = bytes_at (device_byte bus) offset count ->
  Z.land data 0xFF = device_byte bus address.
Proof.
  intros Ha H. unfold bytes_at in H.
  pose proof (proj1 (@map_ext_in_iff nat Z _ _ _) H address) as Hb.
  rewrite device_byte_corrupt, Nat.eqb_refl in Hb. apply Hb, in_seq. lia.
Qed.

Lemma Forall_bytes_at_device bus offset count :
  Forall is_byte (bytes_at (device_byte bus) offset count).
Proof. unfold bytes_at. apply Forall_device_bytes. Qed.

(** X5.  The checks of [read_eeprom] detect every change of one byte of a
    valid record outside the length field: once the byte at an address in
    the magic number, the checksum, the version or the announced payload
    reads differently, the record is no longer marked valid. *)
Theorem read_eeprom_detects_corrupt_byte bus u0 g address data u0' g' :
  eeprom_valid (read_eeprom bus u0 g).1 = true ->
  (address < 8
   \/ 10 <= address
      < sizeof_header
        + Z.to_nat (data_length (header (eeprom (read_eeprom bus u0 g).1))))%nat ->
  Z.land data 0xFF <> device_byte bus address ->
  eeprom_valid (read_eeprom (corrupt bus address data) u0' g').1 = false.
Proof.
  intros H Ha Hd. rewrite (read_eeprom_valid_header bus u0 g H) in Ha.
  destruct (eeprom_valid (read_eeprom (corrupt bus address data) u0' g').1) eqn:H';
    [|reflexivity].
  exfalso. apply Hd.
  destruct (read_eeprom_sound _ _ _ H) as [Hwf _].
  destruct (read_eeprom_sound _ _ _ H') as [Hwf' _].
  pose proof (wf_magic _ _ Hwf) as Hm. pose proof (wf_magic _ _ Hwf') as Hm'.
  pose proof (wf_checksum _ _ Hwf) as Hc. pose proof (wf_checksum _ _ Hwf') as Hc'.
  clear Hwf Hwf' H H'.
  rewrite !device_image_header in Hm, Hm', Hc, Hc'.
  unfold overlay in Hm, Hm', Hc, Hc', Ha.
  cbn [header magic_number checksum data_length] in Hm, Hm', Hc, Hc', Ha.
  destruct (Nat.lt_ge_cases address 4) as [H4|H4].
  - apply (bytes_at_differ bus address data 0 4); [lia|].
    apply le_value_inj;
      [apply Forall_bytes_at_device..|rewrite !bytes_at_length; reflexivity|congruence].
  - rewrite (bytes_at_corrupt bus address data 8 2) in Hc' by lia.
    destruct Ha as [Ha|Ha].
    + rewrite device_stream_intact in Hc' by lia.
      apply (bytes_at_differ bus address data 4 4); [lia|].
      apply le_value_inj;
        [apply Forall_bytes_at_device..|rewrite !bytes_at_length; reflexivity|congruence].
    + rewrite (bytes_at_corrupt bus address data 4 4) in Hc' by lia.
      destruct (device_stream_corrupt bus address data
                  (Z.to_nat (le_value (bytes_at (device_byte bus) 8 2))))
        as (pre & post & Hpre & Hpost & E & E');
        [unfold sizeof_header in Ha; lia|].
      rewrite E in Hc. rewrite E' in Hc'.
      apply (crc32_differs (crc32 0 []) pre _ _ post); auto using device_byte_is_byte.
      * change 0xFF with (Z.ones 8). rewrite Z.land_ones by lia.
        unfold is_byte. apply Z.mod_pos_bound. lia.
      * rewrite <- Hc, <- Hc'. reflexivity.
Qed.

Lemma sample_record_corrupt_uid_rejected :
  eeprom_valid
    (read_eeprom (corrupt (bus_of_image (eeprom_image 1 sample_payload)) 15 0x5A)
       (fun _ => 0) initial_globals).1
  = false.
Proof.
  apply (read_eeprom_detects_corrupt_byte _ stack_garbage initial_globals).
  - vm_compute. reflexivity.
  - right. vm_compute. lia.
  - vm_compute. discriminate.
Defined.

(** ** Files under arbitrary faults *)

Lemma ensures_bind {A B : Type} (m : M A) (k : A -> M B) w Q P :
  ensures (m w) (fun a w1 => ensures (k a w1) Q P) P -> ensures (bind m k w) Q P.
Proof. unfold bind. destruct (m w); auto. Qed.

Lemma ensures_weaken {A : Type} (o : outcome A) (Q Q' : A -> world -> Prop)
    (P P' : world -> Prop) :
  ensures o Q P -> (forall a w, Q a w -> Q' a w) -> (forall w, P w -> P' w) ->
  ensures o Q' P'.
Proof. destruct o; cbn; auto. Qed.

Lemma same_outside_refl ps fs : same_outside ps fs fs.
Proof. intros p _. reflexivity. Qed.

Lemma same_outside_trans ps fs1 fs2 fs3 :
  same_outside ps fs1 fs2 -> same_outside ps fs2 fs3 -> same_outside ps fs1 fs3.
Proof. intros H1 H2 p Hp. rewrite H2, H1 by exact Hp. reflexivity. Qed.

Lemma same_outside_insert ps fs p f : p ∈ ps -> same_outside ps fs (<[p := f]> fs).
Proof.
  intros Hp q Hq. apply lookup_insert_ne. intros ->. contradiction.
Qed.

Lemma same_outside_weaken ps ps' fs fs' :
  ps ⊆ ps' -> same_outside ps fs fs' -> same_outside ps' fs fs'.
Proof. intros Hs H p Hp. apply H. intros Hin. apply Hp, Hs, Hin. Qed.

Ltac faults w :=
  unfold next_fault; destruct (w_faults w) as [|[|errno|short] script];
  cbn [fst snd w_fs].

Lemma print_fs format args w :
  ensures (print format args w) (fun _ w' => w_fs w' = w_fs w) (fun _ => False).
Proof. reflexivity. Qed.

Lemma error_fs format args w :
  ensures (error format args w) (fun _ w' => w_fs w' = w_fs w) (fun _ => False).
Proof. reflexivity. Qed.

Lemma panic_fs {A : Type} format args w (Q : A -> world -> Prop) (P : world -> Prop) :
  P (log_line (panic_line format args) w) -> ensures (panic format args w) Q P.
Proof. auto. Qed.

Lemma sys_close_fs fd w :
  ensures (sys_close fd w) (fun _ w' => w_fs w' = w_fs w) (fun _ => False).
Proof. reflexivity. Qed.

Lemma sys_fsync_fs fd w :
  ensures (sys_fsync fd w) (fun _ w' => w_fs w' = w_fs w) (fun _ => False).
Proof. reflexivity. Qed.

Lemma sys_stat_fs path w :
  ensures (sys_stat path w)
    (fun r w' => w_fs w' = w_fs w
                 /\ forall st, r = inr st -> w_fs w !! path = Some st)
    (fun _ => False).
Proof.
  unfold sys_stat. faults w; destruct (w_fs w !! path) eqn:E; cbn;
    (split; [reflexivity|intros st Hst; congruence]).
Qed.

Lemma sys_open_fs path w :
  ensures (sys_open path w)
    (fun r w' => w_fs w' = w_fs w /\ forall fd, r = inr fd -> fd = path)
    (fun _ => False).
Proof.
  unfold sys_open. faults w; destruct (w_fs w !! path) eqn:E; cbn;
    (split; [reflexivity|intros st Hst; congruence]).
Qed.

Lemma sys_fstat_fs fd w :
  ensures (sys_fstat fd w)
    (fun r w' => w_fs w' = w_fs w
                 /\ forall st, r = inr st -> w_fs w !! fd = Some st)
    (fun _ => False).
Proof.
  unfold sys_fstat. faults w; destruct (w_fs w !! fd) eqn:E; cbn;
    (split; [reflexivity|intros st Hst; congruence]).
Qed.

Lemma sys_malloc_fs size w :
  ensures (sys_malloc size w) (fun _ w' => w_fs w' = w_fs w) (fun _ => False).
Proof. unfold sys_malloc. faults w; reflexivity. Qed.

(** A read that delivers [count] bytes or more delivers the first [count]
    bytes of the file. *)
Lemma sys_read_fs fd count w :
  ensures (sys_read fd count w)
    (fun r w' => w_fs w' = w_fs w
                 /\ (Z.of_nat count <= r.1 ->
                     exists st, w_fs w !! fd = Some st
                                /\ r.2 = take count (contents st)))
    (fun _ => False).
Proof.
  unfold sys_read. faults w; destruct (w_fs w !! fd) as [st|] eqn:E; cbn;
    (split; [reflexivity|intros Hlen; try lia]).
  all: exists st; split; [reflexivity|]; try reflexivity.
  rewrite length_take in Hlen.
  destruct (Nat.le_gt_cases count short).
  - rewrite Nat.min_r by lia. reflexivity.
  - rewrite Nat.min_l by lia. rewrite !take_ge; [reflexivity|lia..].
Qed.

Lemma sys_create_fs path mode w :
  ensures (sys_create path mode w)
    (fun r w' =>
       match r with
       | inl _ => w_fs w' = w_fs w
       | inr fd =>
           fd = path
           /\ exists m uid gid,
               w_fs w'
               = <[path := File (Z.lor S_IFREG (Z.land m permission_bits)) uid gid []]>
                   (w_fs w)
       end)
    (fun _ => False).
Proof.
  unfold sys_create. faults w; try reflexivity;
    (split; [reflexivity|]); destruct (w_fs w !! path) as [st|]; cbn; eauto.
Qed.

Lemma sys_fchown_fs fd uid gid w :
  ensures (sys_fchown fd uid gid w)
    (fun rc w' =>
       (rc < 0 /\ w_fs w' = w_fs w)
       \/ (rc = 0 /\ exists st, w_fs w !! fd = Some st
                     /\ w_fs w' = <[fd := File (st_mode st) uid gid (contents st)]>
                                    (w_fs w)))
    (fun _ => False).
Proof.
  unfold sys_fchown. faults w; destruct (w_fs w !! fd) as [st|]; cbn;
    first [left; split; [lia|reflexivity] | right; eauto].
Qed.

Lemma sys_fchmod_fs fd mode w :
  ensures (sys_fchmod fd mode w)
    (fun rc w' =>
       (rc < 0 /\ w_fs w' = w_fs w)
       \/ (rc = 0 /\ exists st, w_fs w !! fd = Some st
                     /\ w_fs w'
                        = <[fd := File (Z.lor (Z.land (st_mode st) S_IFMT)
                                          (Z.land mode permission_bits))
                                    (st_uid st) (st_gid st) (contents st)]> (w_fs w)))
    (fun _ => False).
Proof.
  unfold sys_fchmod. faults w; destruct (w_fs w !! fd) as [st|]; cbn;
    first [left; split; [lia|reflexivity] | right; eauto].
Qed.

(** A write that reports [length buffer] bytes or more has appended the
    buffer; any other write has changed at most the file written to. *)
Lemma sys_write_fs fd buffer w :
  ensures (sys_write fd buffer w)
    (fun len w' =>
       same_outside [fd] (w_fs w) (w_fs w')
       /\ (Z.of_nat (length buffer) <= len ->
           exists st, w_fs w !! fd = Some st
                      /\ w_fs w' = <[fd := File (st_mode st) (st_uid st) (st_gid st)
                                             (contents st ++ buffer)]> (w_fs w)))
    (fun _ => False).
Proof.
  unfold sys_write. faults w; destruct (w_fs w !! fd) as [st|]; cbn;
    (split; [first [apply same_outside_refl
                   |apply same_outside_insert, list_elem_of_here]
            |intros Hlen; try lia]).
  all: exists st; split; [reflexivity|]; try reflexivity.
  rewrite length_take in Hlen. rewrite take_ge by lia. reflexivity.
Qed.

Lemma sys_rename_fs oldpath newpath w :
  ensures (sys_rename oldpath newpath w)
    (fun rc w' =>
       (rc < 0 /\ w_fs w' = w_fs w)
       \/ (rc = 0 /\ exists st, w_fs w !! oldpath = Some st
                     /\ w_fs w' = if String.eqb oldpath newpath then w_fs w
                                  else <[newpath := st]> (delete oldpath (w_fs w))))
    (fun _ => False).
Proof.
  unfold sys_rename. faults w; destruct (w_fs w !! oldpath) as [st|]; cbn;
    first [left; split; [lia|reflexivity] | right; eauto].
Qed.

(** One step of a computation: the specification of the call, then the
    continuation with its result. *)
Ltac step_fs lemma :=
  apply ensures_bind; eapply ensures_weaken;
  [apply lemma | cbv beta | cbv beta; intros ? []].

(** [create_file] returns the path with an empty regular file of the mode
    and owner asked for behind it; when it panics, no other path has
    changed. *)
Lemma create_file_fs path uid gid mode w :
  ensures (create_file path uid gid mode w)
    (fun fd w' =>
       fd = path
       /\ w_fs w' = <[path := File (Z.lor S_IFREG (Z.land mode permission_bits))
                                uid gid []]> (w_fs w))
    (fun w' => same_outside [path] (w_fs w) (w_fs w')).
Proof.
  unfold create_file.
  step_fs print_fs. intros _ w0 H0.
  step_fs sys_create_fs. intros [errno|fd] w1 H1.
  { apply panic_fs. cbn [w_fs log_line]. rewrite H1, H0. apply same_outside_refl. }
  destruct H1 as (-> & m & u & g & H1). rewrite H0 in H1.
  step_fs sys_fchown_fs. intros rc w2 [[Hrc H2]|(-> & st & Hst & H2)].
  { destruct (Z.ltb_spec rc 0); [|lia].
    apply panic_fs. cbn [w_fs log_line]. rewrite H2, H1.
    apply same_outside_insert, list_elem_of_here. }
  rewrite H1, lookup_insert_eq in Hst. injection Hst as <-.
  rewrite H1, insert_insert_eq in H2. cbn [st_mode contents] in H2.
  change (0 <? 0) with false. cbv iota.
  step_fs sys_fchmod_fs. intros rc w3 [[Hrc H3]|(-> & st & Hst & H3)].
  { destruct (Z.ltb_spec rc 0); [|lia].
    apply panic_fs. cbn [w_fs log_line]. rewrite H3, H2.
    apply same_outside_insert, list_elem_of_here. }
  rewrite H2, lookup_insert_eq in Hst. injection Hst as <-.
  rewrite H2, insert_insert_eq in H3. cbn [st_mode st_uid st_gid contents] in H3.
  rewrite regular_mode in H3.
  change (0 <? 0) with false. cbv iota. cbn. auto.
Qed.

(** [robust_write] returns only when the whole buffer was appended; when it
    panics, no other path has changed. *)
Lemma robust_write_fs path fd buffer w :
  ensures (robust_write path fd buffer w)
    (fun _ w' =>
       exists st, w_fs w !! fd = Some st
                  /\ w_fs w' = <[fd := File (st_mode st) (st_uid st) (st_gid st)
                                         (contents st ++ buffer)]> (w_fs w))
    (fun w' => same_outside [fd] (w_fs w) (w_fs w')).
Proof.
  unfold robust_write.
  step_fs sys_write_fs. intros len w1 [Hsame Hfull].
  destruct (Z.ltb_spec len 0); [apply panic_fs; exact Hsame|].
  destruct (Z.ltb_spec len (Z.of_nat (length buffer))); [apply panic_fs; exact Hsame|].
  cbn. apply Hfull. lia.
Qed.

Ltac step_panicking lemma :=
  apply ensures_bind; eapply ensures_weaken; [apply lemma | cbv beta | cbv beta].

(** The code after the label [update]: when it returns, [path] names the
    target file and the temporary file is gone; when it panics, only the
    temporary file can have changed. *)
Lemma update_file_write_fs path content w :
  ensures (update_file_write path content w)
    (fun _ w' =>
       w_fs w' !! path = Some (target_file content)
       /\ same_outside [path; tmp_path_of path] (w_fs w) (w_fs w')
       /\ (tmp_path_of path <> path -> w_fs w' !! tmp_path_of path = None))
    (fun w' => same_outside [tmp_path_of path] (w_fs w) (w_fs w')).
Proof.
  unfold update_file_write. cbv zeta.
  step_panicking create_file_fs; [|auto]. intros fd w1 [-> H1].
  change (Z.land mode_0444 permission_bits) with mode_0444 in H1.
  step_panicking robust_write_fs.
  2:{ intros w2 H2. eapply same_outside_trans; [|exact H2].
      rewrite H1. apply same_outside_insert, list_elem_of_here. }
  intros _ w2 (st & Hst & H2).
  rewrite H1, lookup_insert_eq in Hst. injection Hst as <-.
  rewrite H1, insert_insert_eq in H2. cbn [st_mode st_uid st_gid contents app] in H2.
  fold (target_file content) in H2.
  step_fs sys_fsync_fs. intros _ w3 H3.
  step_fs sys_close_fs. intros _ w4 H4.
  step_fs print_fs. intros _ w5 H5.
  rewrite H4, H3, H2 in H5. clear H1 H2 H3 H4.
  step_fs sys_rename_fs. intros rc w6 [[Hrc H6]|(-> & st & Hst & H6)].
  { destruct (Z.ltb_spec rc 0); [|lia]. apply panic_fs. cbn [w_fs log_line].
    rewrite H6, H5. apply same_outside_insert, list_elem_of_here. }
  change (0 <? 0) with false. cbv iota. cbn [ensures ret].
  rewrite H5, lookup_insert_eq in Hst. injection Hst as <-.
  rewrite H6, H5. clear H5 H6.
  destruct (String.eqb_spec (tmp_path_of path) path) as [E|E].
  - split; [rewrite E at 1; apply lookup_insert_eq|].
    split; [apply same_outside_insert; rewrite E; apply list_elem_of_here|].
    intros Hne. contradiction.
  - split; [apply lookup_insert_eq|]. split.
    + intros p Hp. apply not_elem_of_cons in Hp as [Hp1 Hp2].
      apply not_elem_of_cons in Hp2 as [Hp2 _].
      rewrite lookup_insert_ne, lookup_delete_ne, lookup_insert_ne by congruence.
      reflexivity.
    + intros _. rewrite lookup_insert_ne by congruence. apply lookup_delete_eq.
Qed.

(** The same from a world whose file system is known. *)
Lemma update_file_write_after path content fs w :
  w_fs w = fs ->
  ensures (update_file_write path content w)
    (fun _ w' =>
       w_fs w' !! path = Some (target_file content)
       /\ same_outside [path; tmp_path_of path] fs (w_fs w'))
    (fun w' => same_outside [tmp_path_of path] fs (w_fs w')).
Proof.
  intros <-. eapply ensures_weaken; [apply update_file_write_fs|cbv beta|auto].
  intros _ w' (H1 & H2 & _). auto.
Qed.

Lemma update_file_fs path content w :
  ensures (update_file path content w)
    (fun _ w' =>
       w_fs w' !! path = Some (target_file content)
       /\ same_outside [path; tmp_path_of path] (w_fs w) (w_fs w'))
    (fun w' => same_outside [tmp_path_of path] (w_fs w) (w_fs w')).
Proof.
  unfold update_file. cbv zeta.
  step_fs sys_stat_fs. intros [errno|st] w1 [H1 Hst].
  { apply ensures_bind.
    destruct (negb (errno =? ENOENT)); cbn [ensures error ret];
      apply update_file_write_after; exact H1. }
  specialize (Hst st eq_refl).
  destruct (negb (st_mode st =? Z.lor S_IFREG mode_0444) || negb (st_uid st =? 0)
            || negb (st_gid st =? 0) || negb (st_size st =? length content)%nat)
    eqn:Hcheck; [apply update_file_write_after; exact H1|].
  step_fs sys_open_fs. intros [errno|fd] w2 [H2 Hfd].
  { step_fs error_fs. intros _ w3 H3. apply update_file_write_after. congruence. }
  specialize (Hfd fd eq_refl). subst fd.
  step_fs sys_read_fs. intros [len buffer] w3 [H3 Hread]. cbn [fst snd] in Hread.
  step_fs sys_close_fs. intros _ w4 H4.
  destruct (Z.ltb_spec len 0).
  { step_fs error_fs. intros _ w5 H5. apply update_file_write_after. congruence. }
  destruct (Z.ltb_spec len (Z.of_nat (st_size st))).
  { step_fs error_fs. intros _ w5 H5. apply update_file_write_after. congruence. }
  destruct (bool_decide_reflect (buffer = content)) as [Hb|Hb];
    [|apply update_file_write_after; congruence].
  cbn [ensures print]. cbn [w_fs log_line].
  rewrite H4, H3, H2, H1. split; [|apply same_outside_refl].
  destruct (Hread ltac:(lia)) as (st' & Hst' & Hbuf).
  rewrite H2, H1, Hst in Hst'. injection Hst' as <-.
  unfold st_size in Hbuf. rewrite take_ge in Hbuf by lia.
  rewrite Hst. f_equal.
  apply orb_false_elim in Hcheck as [Hcheck _].
  apply orb_false_elim in Hcheck as [Hcheck Hgid].
  apply orb_false_elim in Hcheck as [Hmode Huid].
  apply negb_false_iff, Z.eqb_eq in Hmode, Huid, Hgid.
  destruct st as [mode uid gid data]. cbn in *. unfold target_file. congruence.
Qed.

Lemma tmp_path_longer (suffix : string) (path : string) :
  forall n, (String.length path < n)%nat -> suffix <> EmptyString ->
    String.substring 0 n (path ++ suffix) <> path.
Proof.
  induction path as [|c path IH]; intros n Hn Hs.
  - destruct n as [|n]; [cbn in Hn; lia|].
    destruct suffix; [congruence|]. cbn. discriminate.
  - destruct n as [|n]; [cbn in Hn; lia|]. cbn in Hn |- *.
    intros H. injection H as H. revert H. apply IH; [lia|exact Hs].
Qed.

(** X6.  Whatever the system calls answer: when [update_file] returns,
    [path] names a regular file with mode 0444, owner root:root and exactly
    the content asked for, and no path other than [path] and the temporary
    path has changed; when it panics, no path other than the temporary path
    has changed. *)
Theorem update_file_outcome path content w :
  ensures (update_file path content w)
    (fun _ w' =>
       w_fs w' !! path = Some (target_file content)
       /\ same_outside [path; tmp_path_of path] (w_fs w) (w_fs w'))
    (fun w' => same_outside [tmp_path_of path] (w_fs w) (w_fs w')).
Proof. apply update_file_fs. Qed.

(** X7.  [update_file] replaces the file atomically: for a path of fewer
    than 255 characters, whatever the system calls answer and whether the
    call returns or panics, [path] names afterwards either what it named
    before or the complete target file. *)
Theorem update_file_atomic path content w :
  (String.length path < 255)%nat ->
  let fs' := w_fs (final_world (update_file path content w)) in
  fs' !! path = w_fs w !! path \/ fs' !! path = Some (target_file content).
Proof.
  intros Hlen. cbv zeta.
  pose proof (update_file_fs path content w) as H.
  destruct (update_file path content w) as [[] w'|w'|w']; cbn [ensures final_world] in *.
  - right. apply H.
  - left. apply H. intros Hin. apply list_elem_of_singleton in Hin.
    symmetry in Hin. revert Hin. apply tmp_path_longer; [exact Hlen|discriminate].
  - contradiction.
Qed.

Lemma update_file_atomic_after_short_read :
  let fs' := w_fs (final_world (update_file uid_path uid_content short_read_world)) in
  fs' !! uid_path = w_fs short_read_world !! uid_path
  \/ fs' !! uid_path = Some (target_file uid_content).
Proof. apply update_file_atomic. vm_compute. lia. Defined.

(** ** The shadow file under arbitrary faults *)

Lemma ensures_settles {A : Type} (o : outcome A) Q P : ensures o Q P -> settles o Q P.
Proof. destruct o; cbn; auto. intros []. Qed.

Lemma settles_weaken {A : Type} (o : outcome A) (Q Q' : A -> world -> Prop)
    (F F' : world -> Prop) :
  settles o Q F -> (forall a w, Q a w -> Q' a w) -> (forall w, F w -> F' w) ->
  settles o Q' F'.
Proof. destruct o; cbn; auto. Qed.

(** A call that always returns, then the rest. *)
Lemma settles_step {A B : Type} (m : M A) (k : A -> M B) w R Q F :
  ensures (m w) R (fun _ => False) ->
  (forall a w1, R a w1 -> settles (k a w1) Q F) ->
  settles (bind m k w) Q F.
Proof. unfold bind. destruct (m w); cbn; auto; intros []. Qed.

Lemma replace_password_write_fs g st buffer encrypted_begin encrypted_end w :
  ensures (replace_password_write g st buffer encrypted_begin encrypted_end w)
    (fun _ w' =>
       w_fs w'
       = migrated (w_fs w) st buffer
           (take encrypted_begin buffer ++ record_password g
            ++ drop encrypted_end buffer))
    (fun w' => same_outside [SHADOW_BACKUP_PATH; SHADOW_TMP_PATH] (w_fs w) (w_fs w')).
Proof.
  destruct shadow_paths_distinct as (Hbs & Hts & Hbt).
  assert (Hb : SHADOW_BACKUP_PATH ∈ [SHADOW_BACKUP_PATH; SHADOW_TMP_PATH])
    by apply list_elem_of_here.
  assert (Ht : SHADOW_TMP_PATH ∈ [SHADOW_BACKUP_PATH; SHADOW_TMP_PATH])
    by apply list_elem_of_further, list_elem_of_here.
  assert (Hweak : forall p fs fs',
             p ∈ [SHADOW_BACKUP_PATH; SHADOW_TMP_PATH] -> same_outside [p] fs fs' ->
             same_outside [SHADOW_BACKUP_PATH; SHADOW_TMP_PATH] fs fs').
  { intros p fs fs' Hp. apply same_outside_weaken. intros q Hq.
    apply list_elem_of_singleton in Hq. subst q. exact Hp. }
  unfold replace_password_write.
  step_panicking create_file_fs; [|intros w1; apply Hweak, Hb]. intros fd w1 [-> H1].
  step_panicking robust_write_fs.
  2:{ intros w2 H2. eapply same_outside_trans; [|apply (Hweak _ _ _ Hb), H2].
      rewrite H1. apply same_outside_insert, Hb. }
  intros _ w2 (st1 & Hst1 & H2).
  rewrite H1, lookup_insert_eq in Hst1. injection Hst1 as <-.
  rewrite H1, insert_insert_eq in H2. cbn [st_mode st_uid st_gid contents app] in H2.
  fold (copy_of st buffer) in H2. clear H1.
  step_fs print_fs. intros _ w3 H3.
  step_fs sys_fsync_fs. intros _ w4 H4.
  step_fs sys_close_fs. intros _ w5 H5.
  rewrite H4, H3, H2 in H5. clear H2 H3 H4.
  assert (Hbackup : same_outside [SHADOW_BACKUP_PATH; SHADOW_TMP_PATH] (w_fs w) (w_fs w5))
    by (rewrite H5; apply same_outside_insert, Hb).
  step_panicking create_file_fs.
  2:{ intros w6 H6. eapply same_outside_trans; [exact Hbackup|apply (Hweak _ _ _ Ht), H6]. }
  intros fd w6 [-> H6].
  step_panicking robust_write_fs.
  2:{ intros w7 H7. eapply same_outside_trans; [|apply (Hweak _ _ _ Ht), H7].
      eapply same_outside_trans; [exact Hbackup|].
      rewrite H6. apply same_outside_insert, Ht. }
  intros _ w7 (st1 & Hst1 & H7).
  rewrite H6, lookup_insert_eq in Hst1. injection Hst1 as <-.
  rewrite H6, insert_insert_eq in H7. cbn [st_mode st_uid st_gid contents app] in H7.
  step_panicking robust_write_fs.
  2:{ intros w8 H8. eapply same_outside_trans; [|apply (Hweak _ _ _ Ht), H8].
      rewrite H7. eapply same_outside_trans; [exact Hbackup|].
      apply same_outside_insert, Ht. }
  intros _ w8 (st1 & Hst1 & H8).
  rewrite H7, lookup_insert_eq in Hst1. injection Hst1 as <-.
  rewrite H7, insert_insert_eq in H8. cbn [st_mode st_uid st_gid contents] in H8.
  step_panicking robust_write_fs.
  2:{ intros w9 H9. eapply same_outside_trans; [|apply (Hweak _ _ _ Ht), H9].
      rewrite H8. eapply same_outside_trans; [exact Hbackup|].
      apply same_outside_insert, Ht. }
  intros _ w9 (st1 & Hst1 & H9).
  rewrite H8, lookup_insert_eq in Hst1. injection Hst1 as <-.
  rewrite H8, insert_insert_eq in H9. cbn [st_mode st_uid st_gid contents] in H9.
  rewrite <- app_assoc in H9.
  fold (record_password g) in H9.
  fold (copy_of st (take encrypted_begin buffer ++ record_password g
                    ++ drop encrypted_end buffer)) in H9.
  clear H6 H7 H8.
  step_fs print_fs. intros _ w10 H10.
  step_fs sys_fsync_fs. intros _ w11 H11.
  step_fs sys_close_fs. intros _ w12 H12.
  step_fs print_fs. intros _ w13 H13.
  rewrite H12, H11, H10, H9 in H13. clear H9 H10 H11 H12.
  step_fs sys_rename_fs. intros rc w14 [[Hrc H14]|(-> & st1 & Hst1 & H14)].
  { destruct (Z.ltb_spec rc 0); [|lia]. apply panic_fs. cbn [w_fs log_line].
    rewrite H14, H13. eapply same_outside_trans; [exact Hbackup|].
    apply same_outside_insert, Ht. }
  change (0 <? 0) with false. cbv iota. cbn [ensures ret].
  rewrite H13, lookup_insert_eq in Hst1. injection Hst1 as <-.
  destruct (String.eqb_spec SHADOW_TMP_PATH SHADOW_PATH) as [E|_]; [contradiction|].
  rewrite H14, H13, H5. reflexivity.
Qed.

Section ReplacePasswordSafety.

Variable crypt_r : list ascii -> list ascii -> option (list ascii).

Lemma lib_crypt_fs key salt w :
  ensures (lib_crypt crypt_r key salt w)
    (fun r w' => r = crypt_r key salt /\ w_fs w' = w_fs w) (fun _ => False).
Proof. split; reflexivity. Qed.

(** A branch that logs and stops. *)
Ltac quiet Hfs :=
  unfold malformed, print, panic, undefined; cbn [settles w_fs log_line];
  rewrite ?Hfs; first [left; reflexivity | apply same_outside_refl].

Lemma replace_password_entry_fs g st buffer fs w :
  w_fs w = fs ->
  settles (replace_password_entry crypt_r g st buffer w)
    (fun _ w' =>
       w_fs w' = fs
       \/ exists i j,
           default_hash crypt_r buffer i j
           /\ w_fs w' = migrated fs st buffer
                          (take i buffer ++ record_password g ++ drop j buffer))
    (fun w' => same_outside [SHADOW_BACKUP_PATH; SHADOW_TMP_PATH] fs (w_fs w')).
Proof.
  intros Hfs. unfold replace_password_entry.
  destruct (find_entry buffer) as [entry_begin|]; [|quiet Hfs].
  destruct (strchr (drop entry_begin buffer) ":") as [colon|]; [|quiet Hfs].
  cbv zeta. generalize (entry_begin + colon + 1)%nat. intros i.
  destruct (Ascii.eqb (char_at buffer i) "*"); [quiet Hfs|].
  destruct (Ascii.eqb_spec (char_at buffer i) "!") as [Hlocked|_]; cbn [negb];
    [|quiet Hfs].
  destruct (strchr (drop i buffer) ":") as [colon'|] eqn:Hcolon; [|quiet Hfs].
  destruct (_ <? _)%nat; [quiet Hfs|].
  destruct (_ =? _)%nat; [quiet Hfs|].
  destruct (_ <? 2)%nat; [quiet Hfs|].
  assert (Hrest : forall salt_used w0, w_fs w0 = fs ->
            settles
              ((do crypt_result <-
                  lib_crypt crypt_r (chars DEFAULT_PASSWORD)
                    (take salt_used
                       (take (i + colon' - (i + 1)) (drop (i + 1) buffer)));
                match crypt_result with
                | None => panic "could not encrypt default password: %s (%d)" []
                | Some crypt_result =>
                    if negb
                         (strcmp_eq crypt_result
                            (take (i + colon' - (i + 1)) (drop (i + 1) buffer)))
                    then
                      print
                        "account %s does not have the default password set, skipping password replacement"
                        [AStr ACCOUNT_NAME]
                    else
                      print
                        "account %s has default password set, replacing with device specific password"
                        [AStr ACCOUNT_NAME];;
                      replace_password_write g st buffer i (i + colon')
                end) w0)
              (fun _ w' =>
                 w_fs w' = fs
                 \/ exists i j,
                     default_hash crypt_r buffer i j
                     /\ w_fs w' = migrated fs st buffer
                                    (take i buffer ++ record_password g ++ drop j buffer))
              (fun w' => same_outside [SHADOW_BACKUP_PATH; SHADOW_TMP_PATH] fs (w_fs w'))).
  { intros salt_used w0 H0.
    eapply settles_step; [apply lib_crypt_fs|]. cbv beta.
    intros [crypt_result|] w1 [Hcrypt H1]; [|quiet (eq_trans H1 H0)].
    unfold strcmp_eq.
    destruct (bool_decide_reflect
                (cstr crypt_result
                 = cstr (take (i + colon' - (i + 1)) (drop (i + 1) buffer))))
      as [Hsame|_]; cbn [negb]; [|quiet (eq_trans H1 H0)].
    eapply settles_step; [apply print_fs|]. cbv beta. intros _ w2 H2.
    apply ensures_settles. eapply ensures_weaken;
      [apply replace_password_write_fs|cbv beta|cbv beta].
    - intros _ w3 H3. right. exists i, (i + colon')%nat.
      split; [|rewrite H3; congruence].
      split; [exact Hlocked|]. split; [lia|].
      split; [rewrite Hcolon; f_equal; lia|].
      exists salt_used, crypt_result. split; [symmetry; exact Hcrypt|exact Hsame].
    - intros w3 H3. rewrite H2, H1, H0 in H3. exact H3. }
  unfold bind at 1.
  destruct (negb _).
  - unfold ret at 1. apply Hrest, Hfs.
  - destruct (strrchr _ _) as [encrypted_prefix_end|]; [|quiet Hfs].
    unfold ret at 1. apply Hrest, Hfs.
Qed.

Lemma replace_password_fs g w :
  settles (replace_password crypt_r g w)
    (fun _ w' =>
       w_fs w' = w_fs w
       \/ exists st i j,
           w_fs w !! SHADOW_PATH = Some st
           /\ default_hash crypt_r (contents st) i j
           /\ w_fs w' = migrated (w_fs w) st (contents st)
                          (take i (contents st) ++ record_password g
                           ++ drop j (contents st)))
    (fun w' => same_outside [SHADOW_BACKUP_PATH; SHADOW_TMP_PATH] (w_fs w) (w_fs w')).
Proof.
  unfold replace_password.
  destruct (negb (eeprom_valid g) || (data_version (header (eeprom g)) <? 1));
    [left; reflexivity|].
  eapply settles_step; [apply print_fs|]. cbv beta. intros _ w0 H0.
  eapply settles_step; [apply sys_open_fs|]. cbv beta. intros [errno|fd] w1 [H1 Hfd].
  { quiet (eq_trans H1 H0). }
  specialize (Hfd fd eq_refl). subst fd.
  eapply settles_step; [apply sys_fstat_fs|]. cbv beta. intros [errno|st] w2 [H2 Hst].
  { quiet (eq_trans H2 (eq_trans H1 H0)). }
  specialize (Hst st eq_refl). rewrite H1, H0 in Hst.
  destruct (_ <? _)%nat eqn:Hsize; [quiet (eq_trans H2 (eq_trans H1 H0))|].
  eapply settles_step; [apply print_fs|]. cbv beta. intros _ w3 H3.
  cbv zeta.
  eapply settles_step; [apply sys_malloc_fs|]. cbv beta. intros allocated w4 H4.
  assert (E4 : w_fs w4 = w_fs w) by congruence.
  destruct (negb allocated); [quiet E4|].
  eapply settles_step; [apply sys_read_fs|]. cbv beta.
  intros [len buffer] w5 [H5 Hread]. cbn [fst snd] in Hread.
  assert (E5 : w_fs w5 = w_fs w) by congruence.
  destruct (Z.ltb_spec len 0) as [Hneg|Hneg]; [quiet E5|].
  destruct (Z.ltb_spec len (Z.of_nat (st_size st))) as [Hshort|Hshort]; [quiet E5|].
  destruct (Hread ltac:(lia)) as (st' & Hst' & Hbuf).
  rewrite E4, Hst in Hst'. injection Hst' as <-.
  unfold st_size in Hbuf. rewrite take_ge in Hbuf by lia. subst buffer.
  eapply settles_step; [apply print_fs|]. cbv beta. intros _ w6 E6.
  eapply settles_step; [apply sys_close_fs|]. cbv beta. intros _ w7 E7.
  eapply settles_weaken;
    [apply (replace_password_entry_fs g st (contents st) (w_fs w)); congruence
    |cbv beta|auto].
  intros _ w8 [H8|(i & j & Hij & H8)]; [left; exact H8|].
  right. exists st, i, j. auto.
Qed.

End ReplacePasswordSafety.

(** X8.  Whatever the system calls and [crypt_r] answer, [replace_password]
    never loses the shadow file and replaces nothing but a locked hash of
    the default password.  When it returns, either no file has changed, or
    the previous /etc/shadow held, between a '!' and the next ':', what
    [crypt_r] makes of the default password; /etc/shadow- is then a copy of
    that file with its owner and permission bits, /etc/shadow is its
    content with the section from the '!' to the ':' replaced by the
    password of the record, and /etc/shadow+ is gone.  Up to a panic or a
    store outside the array, only /etc/shadow- and /etc/shadow+ can have
    changed. *)
Theorem replace_password_keeps_shadow crypt_r g w :
  settles (replace_password crypt_r g w)
    (fun _ w' =>
       w_fs w' = w_fs w
       \/ exists st i j,
           w_fs w !! SHADOW_PATH = Some st
           /\ default_hash crypt_r (contents st) i j
           /\ w_fs w' = migrated (w_fs w) st (contents st)
                          (take i (contents st) ++ record_password g
                           ++ drop j (contents st)))
    (fun w' => same_outside [SHADOW_BACKUP_PATH; SHADOW_TMP_PATH] (w_fs w) (w_fs w')).
Proof. apply replace_password_fs. Qed.

Lemma replace_password_entry_long crypt_r g st buffer before hash rest w :
  locked_entry buffer before hash rest ->
  (SHADOW_ENCRYPTED_LENGTH <= length hash)%nat ->
  replace_password_entry crypt_r g st buffer w
  = if (length hash =? SHADOW_ENCRYPTED_LENGTH)%nat then Undefined w
    else panic "encrypted section for account %s is too big" [AStr ACCOUNT_NAME] w.
Proof.
  intros Hentry Hlong.
  destruct (locked_entry_parse _ _ _ _ Hentry) as (H1 & H2 & H3 & H4 & H5 & _).
  destruct Hentry as (_ & Hfind & _).
  unfold replace_password_entry. rewrite Hfind, H1. cbv zeta. rewrite H2.
  change (Ascii.eqb "!" "*") with false. change (Ascii.eqb "!" "!") with true.
  cbn [negb]. rewrite H3, H4.
  destruct (Nat.ltb_spec SHADOW_ENCRYPTED_LENGTH (length hash));
    destruct (Nat.eqb_spec (length hash) SHADOW_ENCRYPTED_LENGTH);
    try reflexivity; lia.
Qed.

(** X9.  The array that takes the locked hash has 512 elements.  For a
    locked entry whose hash has more than 512 characters [replace_password]
    panics over a section that is too big; for a hash of exactly 512
    characters the length check passes and the terminator is stored one
    element past the end of the array.  The shadow file is untouched in
    both cases. *)
Theorem replace_password_hash_limit crypt_r g w st before hash rest :
  eeprom_valid g = true ->
  1 <= data_version (header (eeprom g)) ->
  w_faults w = [] ->
  w_fs w !! SHADOW_PATH = Some st ->
  (st_size st <= SHADOW_BUFFER_LENGTH)%nat ->
  locked_entry (contents st) before hash rest ->
  (SHADOW_ENCRYPTED_LENGTH <= length hash)%nat ->
  exists w',
    w_fs w' = w_fs w
    /\ ((length hash = SHADOW_ENCRYPTED_LENGTH
         /\ replace_password crypt_r g w = Undefined w')
        \/ ((SHADOW_ENCRYPTED_LENGTH < length hash)%nat
            /\ replace_password crypt_r g w = Panics w'
            /\ w_log w'
               = w_log w ++ shadow_read_log
                 ++ [panic_line "encrypted section for account %s is too big"
                       [AStr ACCOUNT_NAME]])).
Proof.
  intros Hvalid Hversion Hfaults Hst Hsize Hentry Hlong.
  destruct w as [fs faults log trace]. cbn [w_faults w_fs w_log] in *. subst faults.
  rewrite (replace_password_reads crypt_r g Hvalid Hversion st fs log trace Hst Hsize).
  rewrite (replace_password_entry_long crypt_r g st _ _ _ _ _ Hentry Hlong).
  destruct (Nat.eqb_spec (length hash) SHADOW_ENCRYPTED_LENGTH) as [E|E].
  - eexists. split; [|left; split; [exact E|reflexivity]]. reflexivity.
  - eexists. split; [|right; split; [lia|split; [reflexivity|]]].
    + reflexivity.
    + worlds. rewrite <- app_assoc. reflexivity.
Qed.

Lemma full_entry :
  locked_entry (contents (shadow_file shadow_full)) [] full_hash sample_rest.
Proof.
  split; [vm_compute; reflexivity|]. split; [vm_compute; reflexivity|].
  apply Forall_replicate. split; discriminate.
Qed.

Lemma replace_password_overruns_on_full_hash :
  exists w',
    replace_password toy_crypt sample_globals (shadow_world shadow_full) = Undefined w'.
Proof.
  destruct (replace_password_hash_limit toy_crypt sample_globals
              (shadow_world shadow_full) (shadow_file shadow_full)
              [] full_hash sample_rest) as (w' & _ & [[_ H]|[H _]]).
  - apply sample_globals_valid.
  - apply sample_globals_valid.
  - reflexivity.
  - vm_compute. reflexivity.
  - apply shadow_file_fits. vm_compute. reflexivity.
  - apply full_entry.
  - unfold full_hash. rewrite length_replicate. lia.
  - exists w'. exact H.
  - exfalso. unfold full_hash in H. rewrite length_replicate in H. lia.
Defined.

(** ** The command line under arbitrary faults *)

Lemma strtok_all_tokens (s : list ascii) :
  forall token,
    Forall token_char token ->
    Forall (fun t => t <> [] /\ Forall token_char t) (strtok_all s token).
Proof.
  assert (Hflush : forall token, Forall token_char token ->
            Forall (fun t => t <> [] /\ Forall token_char t) (flush token)).
  { intros [|c token] H; cbn [flush]; [apply List.Forall_nil|].
    apply List.Forall_cons; [split; [discriminate|exact H]|apply List.Forall_nil]. }
  induction s as [|c s IH]; intros token Htoken; cbn [strtok_all]; [auto|].
  destruct (Ascii.eqb_spec c NUL) as [|Hnul]; [auto|].
  destruct (is_delimiter c) eqn:Hd.
  - apply Forall_app. split; [auto|]. apply IH, List.Forall_nil.
  - apply IH, Forall_app. split; [exact Htoken|].
    apply List.Forall_cons; [split; assumption|apply List.Forall_nil].
Qed.

Lemma read_option_values (P : list ascii -> Prop) (c : cmdline) (option : list ascii) :
  (forall n, P (drop n option)) ->
  (forall v, root c = Some v \/ rootfstype c = Some v \/ init c = Some v -> P v) ->
  forall v,
    let c' := read_option c option in
    root c' = Some v \/ rootfstype c' = Some v \/ init c' = Some v -> P v.
Proof.
  intros Hopt Hc v. cbv zeta. unfold read_option.
  destruct (has_prefix (chars "root=") option);
    [|destruct (has_prefix (chars "rootfstype=") option);
      [|destruct (has_prefix (chars "init=") option)]];
    cbn [root rootfstype init]; intros [H|[H|H]];
    try (injection H as <-; apply Hopt); apply Hc; auto.
Qed.

Lemma fold_read_option_values (P : list ascii -> Prop) (tokens : list (list ascii)) :
  Forall (fun t => forall n, P (drop n t)) tokens ->
  forall c,
    (forall v, root c = Some v \/ rootfstype c = Some v \/ init c = Some v -> P v) ->
    forall v,
      let c' := fold_left read_option tokens c in
      root c' = Some v \/ rootfstype c' = Some v \/ init c' = Some v -> P v.
Proof.
  induction 1 as [|t tokens Ht Htokens IH]; intros c Hc v; cbn [fold_left]; [apply Hc|].
  apply IH. apply read_option_values; assumption.
Qed.

(** X10.  Every value [read_cmdline] hands to [main] is a single word: it
    holds no blank, tab, carriage return, line feed or NUL, whatever
    /proc/cmdline holds. *)
Theorem parse_cmdline_values_are_words buffer v :
  root (parse_cmdline buffer) = Some v
  \/ rootfstype (parse_cmdline buffer) = Some v
  \/ init (parse_cmdline buffer) = Some v ->
  Forall token_char v.
Proof.
  unfold parse_cmdline.
  apply (fold_read_option_values (Forall token_char)).
  - eapply List.Forall_impl; [|apply (strtok_all_tokens buffer []), List.Forall_nil].
    intros t [_ Ht] n. apply Forall_drop, Ht.
  - cbn [root rootfstype init]. intros v' [H|[H|H]]; discriminate H.
Qed.

Lemma cmdline_root_is_word :
  Forall token_char (chars "/dev/mmcblk0p7").
Proof.
  apply (parse_cmdline_values_are_words (contents cmdline_file)).
  left. vm_compute. reflexivity.
Defined.

Lemma parse_cmdline_none (buffer : list ascii) :
  let c := parse_cmdline buffer in
  let tokens := strtok_all buffer [] in
  (Forall (fun t => has_prefix (chars "root=") t = false) tokens -> root c = None)
  /\ (Forall (fun t => has_prefix (chars "rootfstype=") t = false) tokens ->
      rootfstype c = None)
  /\ (Forall (fun t => has_prefix (chars "init=") t = false) tokens -> init c = None).
Proof.
  cbv zeta. unfold parse_cmdline. split; [|split]; intros H.
  - rewrite read_option_keeps_root by exact H. reflexivity.
  - rewrite read_option_keeps_rootfstype by exact H. reflexivity.
  - rewrite read_option_keeps_init by exact H. reflexivity.
Qed.

(** X11.  A key that no token of the command line carries gets the default
    of [main]: /dev/mmcblk0p2 for root=, ext4 for rootfstype=, /sbin/init
    for init=. *)
Theorem main_defaults buffer :
  let c := parse_cmdline buffer in
  let tokens := strtok_all buffer [] in
  (Forall (fun t => has_prefix (chars "root=") t = false) tokens ->
   main_root c = chars "/dev/mmcblk0p2")
  /\ (Forall (fun t => has_prefix (chars "rootfstype=") t = false) tokens ->
      main_rootfstype c = chars "ext4")
  /\ (Forall (fun t => has_prefix (chars "init=") t = false) tokens ->
      main_init c = chars "/sbin/init").
Proof.
  cbv zeta. destruct (parse_cmdline_none buffer) as (H1 & H2 & H3).
  unfold main_root, main_rootfstype, main_init.
  split; [|split]; intros H;
    [rewrite (H1 H)|rewrite (H2 H)|rewrite (H3 H)]; reflexivity.
Qed.

Lemma main_defaults_without_options :
  let c := parse_cmdline (chars "console=tty1 rootwait quiet") in
  main_root c = chars "/dev/mmcblk0p2" /\ main_rootfstype c = chars "ext4"
  /\ main_init c = chars "/sbin/init".
Proof.
  cbv zeta.
  destruct (main_defaults (chars "console=tty1 rootwait quiet")) as (H1 & H2 & H3).
  split; [|split]; [apply H1|apply H2|apply H3]; vm_compute;
    repeat (apply List.Forall_cons; [reflexivity|]); apply List.Forall_nil.
Defined.

(** A read that does not fail delivers a prefix of the file. *)
Lemma sys_read_prefix fd count w :
  ensures (sys_read fd count w)
    (fun r w' => w_fs w' = w_fs w
                 /\ (0 <= r.1 ->
                     exists st n, w_fs w !! fd = Some st /\ (n <= count)%nat
                                  /\ r.2 = take n (contents st)))
    (fun _ => False).
Proof.
  unfold sys_read. faults w; destruct (w_fs w !! fd) as [st|] eqn:E; cbn;
    (split; [reflexivity|intros Hlen; try lia]).
  - exists st, count. auto.
  - exists st, count. auto.
  - exists st, (Nat.min short count). split; [reflexivity|]. split; [lia|reflexivity].
Qed.

(** X12.  Whatever the system calls answer, [read_cmdline] changes no
    file; when it returns, the options are those of the first [n] bytes of
    /proc/cmdline for some [n] up to 2047, so that the terminator lies
    inside the buffer of 2048 bytes: a read that delivers less than the
    file holds is not noticed. *)
Theorem read_cmdline_outcome w :
  ensures (read_cmdline w)
    (fun c w' =>
       w_fs w' = w_fs w
       /\ exists st n,
           w_fs w !! "/proc/cmdline" = Some st /\ (n <= 2047)%nat
           /\ c = parse_cmdline (take n (contents st)))
    (fun w' => w_fs w' = w_fs w).
Proof.
  unfold read_cmdline.
  step_fs print_fs. intros _ w0 H0.
  step_fs sys_open_fs. intros [errno|fd] w1 [H1 Hfd].
  { apply panic_fs. cbn [w_fs log_line]. congruence. }
  specialize (Hfd fd eq_refl). subst fd.
  step_fs sys_read_prefix. intros [len buffer] w2 [H2 Hread]. cbn [fst snd] in Hread.
  destruct (Z.ltb_spec len 0) as [Hneg|Hneg].
  { apply panic_fs. cbn [w_fs log_line]. congruence. }
  step_fs sys_close_fs. intros _ w3 H3. cbn [ensures ret].
  split; [congruence|].
  destruct (Hread Hneg) as (st & n & Hst & Hn & ->).
  exists st, n. rewrite H1, H0 in Hst. auto.
Qed.

(** ** The identity files *)

Lemma hex_of_small fuel x : 0 <= x < 16 -> hex_of (S fuel) x = [hex_digit x].
Proof.
  intros Hx. cbn [hex_of]. destruct (Z.ltb_spec x 16); [reflexivity|lia].
Qed.

Lemma fixed_hex_zero width : fixed_hex width 0 = replicate width "0"%char.
Proof.
  induction width as [|width IH]; [reflexivity|].
  cbn [fixed_hex]. change (0 / 16) with 0. rewrite IH.
  change [hex_digit (0 mod 16)] with (replicate 1 "0"%char).
  rewrite <- replicate_add. f_equal. lia.
Qed.

(** [width] digits for a number below [16 ^ width]. *)
Lemma format_X_fixed (width : nat) :
  forall fuel x,
    (width <= fuel)%nat -> 0 <= x < 16 ^ Z.of_nat (S width) ->
    replicate (S width - length (hex_of (S fuel) x)) "0"%char ++ hex_of (S fuel) x
    = fixed_hex (S width) x.
Proof.
  induction width as [|width IH]; intros fuel x Hfuel Hx.
  - change (16 ^ Z.of_nat 1) with 16 in Hx. rewrite hex_of_small by exact Hx.
    cbn. rewrite Z.mod_small by exact Hx. reflexivity.
  - destruct fuel as [|fuel]; [lia|].
    change (hex_of (S (S fuel)) x)
      with (if x <? 16 then [hex_digit x]
            else hex_of (S fuel) (x / 16) ++ [hex_digit (x mod 16)]).
    change (fixed_hex (S (S width)) x)
      with (fixed_hex (S width) (x / 16) ++ [hex_digit (x mod 16)]).
    rewrite Nat2Z.inj_succ, Z.pow_succ_r in Hx by lia.
    destruct (Z.ltb_spec x 16) as [Hsmall|Hbig].
    + rewrite Z.div_small, Z.mod_small, fixed_hex_zero by lia.
      cbn [length]. reflexivity.
    + rewrite length_app. cbn [length].
      replace (S (S width) - (length (hex_of (S fuel) (x / 16)) + 1))%nat
        with (S width - length (hex_of (S fuel) (x / 16)))%nat by lia.
      rewrite app_assoc, IH; [reflexivity|lia|].
      split; [apply Z.div_pos; lia|]. apply Z.div_lt_upper_bound; lia.
Qed.

Lemma format_X_4 x : 0 <= x < 16 ^ 4 -> format_X 4 x = fixed_hex 4 x.
Proof. intros Hx. apply (format_X_fixed 3 7 x); [lia|exact Hx]. Qed.

Lemma format_X_2 x : 0 <= x < 16 ^ 2 -> format_X 2 x = fixed_hex 2 x.
Proof. intros Hx. apply (format_X_fixed 1 7 x); [lia|exact Hx]. Qed.

Lemma nibble_div x k : 0 <= k -> nibble x k = (x / 16 ^ k) mod 16.
Proof.
  intros Hk. unfold nibble. change 0xF with (Z.ones 4).
  rewrite Z.land_ones, Z.shiftr_div_pow2 by lia.
  rewrite Z.pow_mul_r by lia. reflexivity.
Qed.

(** X13.  The production date is written as the eight hexadecimal digits
    of the 32-bit field, most significant first, with a '-' after the
    fourth and the sixth and a line feed at the end: a date stored in BCD
    reads YYYY-MM-DD. *)
Theorem production_date_line_digits date :
  is_u32 date ->
  production_date_line date
  = [hex_digit (nibble date 7); hex_digit (nibble date 6); hex_digit (nibble date 5);
     hex_digit (nibble date 4); "-"%char;
     hex_digit (nibble date 3); hex_digit (nibble date 2); "-"%char;
     hex_digit (nibble date 1); hex_digit (nibble date 0); LF].
Proof.
  intros Hdate. unfold is_u32 in Hdate. unfold production_date_line.
  change 0xFF with (Z.ones 8). rewrite !Z.land_ones, !Z.shiftr_div_pow2 by lia.
  rewrite format_X_4, !format_X_2;
    try (apply Z.mod_pos_bound; lia);
    [|split; [apply Z.div_pos; lia|apply Z.div_lt_upper_bound; lia]].
  rewrite !nibble_div by lia. cbn [fixed_hex app].
  repeat match goal with
         | |- _ :: _ = _ :: _ => f_equal
         end.
  all: f_equal; Z.div_mod_to_equations; lia.
Qed.

Lemma production_date_line_sample :
  production_date_line 0x20190731 = chars ("2019-07-31" ++ newline).
Proof.
  rewrite production_date_line_digits by (unfold is_u32; lia).
  vm_compute. reflexivity.
Defined.

Lemma hex_digit_not_nul d : hex_digit d <> NUL.
Proof.
  unfold hex_digit.
  destruct (nth_in_or_default (Z.to_nat d) (chars "0123456789ABCDEF") "0"%char)
    as [Hin | ->]; [|discriminate].
  revert Hin. generalize (nth (Z.to_nat d) (chars "0123456789ABCDEF") "0"%char).
  intros c Hin. cbn in Hin.
  repeat (destruct Hin as [<-|Hin]; [discriminate|]). contradiction.
Qed.

Lemma hex_of_chars fuel :
  forall x, Forall (fun c => c <> NUL) (hex_of fuel x) /\ (length (hex_of fuel x) <= fuel)%nat.
Proof.
  induction fuel as [|fuel IH]; intros x; cbn [hex_of].
  - split; [apply List.Forall_nil|cbn; lia].
  - destruct (x <? 16).
    + split; [|cbn; lia].
      apply List.Forall_cons; [apply hex_digit_not_nul|apply List.Forall_nil].
    + destruct (IH (x / 16)) as [H1 H2]. split.
      * apply Forall_app. split; [exact H1|].
        apply List.Forall_cons; [apply hex_digit_not_nul|apply List.Forall_nil].
      * rewrite length_app. cbn [length]. lia.
Qed.

Lemma format_X_chars width x :
  Forall (fun c => c <> NUL) (format_X width x)
  /\ (length (format_X width x) <= Nat.max width 8)%nat.
Proof.
  unfold format_X. cbv zeta. destruct (hex_of_chars 8 x) as [H1 H2]. split.
  - apply Forall_app. split; [|exact H1]. apply Forall_replicate. discriminate.
  - rewrite length_app, length_replicate. lia.
Qed.

Lemma snprintf_buffer_fits (formatted : list ascii) :
  Forall (fun c => c <> NUL) formatted -> (length formatted <= 255)%nat ->
  snprintf_buffer formatted = formatted.
Proof.
  intros Hchars Hlen. unfold snprintf_buffer. rewrite take_ge by exact Hlen.
  apply cstr_no_nul, Hchars.
Qed.

Lemma production_date_line_fits date :
  snprintf_buffer (production_date_line date) = production_date_line date.
Proof.
  destruct (format_X_chars 4 (Z.shiftr date 16)) as [H1 L1].
  destruct (format_X_chars 2 (Z.land (Z.shiftr date 8) 0xFF)) as [H2 L2].
  destruct (format_X_chars 2 (Z.land date 0xFF)) as [H3 L3].
  apply snprintf_buffer_fits; unfold production_date_line.
  - apply Forall_app. split; [exact H1|]. apply List.Forall_cons; [discriminate|].
    apply Forall_app. split; [exact H2|]. apply List.Forall_cons; [discriminate|].
    apply Forall_app. split; [exact H3|].
    apply List.Forall_cons; [discriminate|apply List.Forall_nil].
  - rewrite !length_app. cbn [length]. rewrite !length_app. cbn [length].
    rewrite !length_app. cbn [length]. lia.
Qed.

Lemma cstr_chars (s : list ascii) : Forall (fun c => c <> NUL) (cstr s).
Proof.
  unfold cstr. induction s as [|c s IH]; cbn [strlen]; [apply List.Forall_nil|].
  destruct (Ascii.eqb_spec c NUL); cbn [take]; [apply List.Forall_nil|].
  apply List.Forall_cons; assumption.
Qed.

Lemma cstr_length (s : list ascii) : length (cstr s) = strlen s.
Proof.
  unfold cstr. induction s as [|c s IH]; cbn [strlen]; [reflexivity|].
  destruct (Ascii.eqb c NUL); cbn [take length]; [reflexivity|]. rewrite IH. reflexivity.
Qed.

(** A terminated field is read as its C string, and its line fits the
    buffer of [main]. *)
Lemma string_field_terminated (field : list Z) w :
  field <> [] -> last_char field = 0 -> (length field <= 254)%nat ->
  string_field field w = Returns (cstr (map char_of_byte field)) w
  /\ snprintf_buffer (cstr (map char_of_byte field) ++ [LF])
     = cstr (map char_of_byte field) ++ [LF].
Proof.
  intros Hne Hlast Hlen. pose proof (strlen_terminated field Hne Hlast) as Hs.
  split.
  - unfold string_field. cbv zeta. rewrite length_map.
    destruct (Nat.ltb_spec (strlen (map char_of_byte field)) (length field)); [|lia].
    reflexivity.
  - apply snprintf_buffer_fits.
    + apply Forall_app. split; [apply cstr_chars|].
      apply List.Forall_cons; [discriminate|apply List.Forall_nil].
    + rewrite length_app, cstr_length. cbn [length]. lia.
Qed.

Ltac listed :=
  unfold identity_paths;
  repeat first [apply list_elem_of_here | apply list_elem_of_further].

Ltac apart :=
  let Hin := fresh "Hin" in
  intros Hin;
  repeat (apply elem_of_cons in Hin as [Hin|Hin]; [vm_compute in Hin; discriminate Hin|]);
  inversion Hin.

Lemma same_outside_identity path :
  path ∈ identity_paths -> tmp_path_of path ∈ identity_paths ->
  (forall fs fs', same_outside [path; tmp_path_of path] fs fs' ->
                  same_outside identity_paths fs fs')
  /\ (forall fs fs', same_outside [tmp_path_of path] fs fs' ->
                     same_outside identity_paths fs fs').
Proof.
  intros Hp Ht. split; intros fs fs'; apply same_outside_weaken; intros q Hq.
  - apply elem_of_cons in Hq as [->|Hq]; [exact Hp|].
    apply list_elem_of_singleton in Hq. subst q. exact Ht.
  - apply list_elem_of_singleton in Hq. subst q. exact Ht.
Qed.

Lemma update_identity_files_fs g w :
  eeprom_valid g = true ->
  1 <= data_version (header (eeprom g)) ->
  (forall field, field = uid (data_v1 (eeprom g)) \/ field = hostname (data_v1 (eeprom g)) ->
                 field <> [] /\ last_char field = 0 /\ (length field <= 254)%nat) ->
  ensures (update_identity_files g w)
    (fun _ w' =>
       same_outside identity_paths (w_fs w) (w_fs w')
       /\ identity_files (data_v1 (eeprom g)) (w_fs w'))
    (fun w' => same_outside identity_paths (w_fs w) (w_fs w')).
Proof.
  intros Hvalid Hversion Hfields.
  destruct (Hfields _ (or_introl eq_refl)) as (Hu1 & Hu2 & Hu3).
  destruct (Hfields _ (or_intror eq_refl)) as (Hh1 & Hh2 & Hh3).
  destruct (same_outside_identity production_date_path) as [Pd Pd']; [listed..|].
  destruct (same_outside_identity uid_path) as [Pu Pu']; [listed..|].
  destruct (same_outside_identity hostname_path) as [Ph Ph']; [listed..|].
  unfold update_identity_files. rewrite Hvalid.
  destruct (Z.ltb_spec (data_version (header (eeprom g))) 1); [lia|]. cbn [negb orb].
  step_fs print_fs. intros _ w0 H0. cbv zeta. rewrite production_date_line_fits.
  step_panicking update_file_fs.
  2:{ intros w1 H1. rewrite H0 in H1. apply Pd', H1. }
  intros _ w1 [Hd1 Hs1]. rewrite H0 in Hs1.
  apply ensures_bind.
  destruct (string_field_terminated _ w1 Hu1 Hu2 Hu3) as [E1 E2].
  rewrite E1. cbn [ensures]. rewrite E2. clear E1 E2.
  step_panicking update_file_fs.
  2:{ intros w2 H2. eapply same_outside_trans; [apply Pd, Hs1|apply Pu', H2]. }
  intros _ w2 [Hd2 Hs2].
  apply ensures_bind.
  destruct (string_field_terminated _ w2 Hh1 Hh2 Hh3) as [E1 E2].
  rewrite E1. cbn [ensures]. rewrite E2. clear E1 E2.
  eapply ensures_weaken; [apply update_file_fs|cbv beta|cbv beta].
  2:{ intros w3 H3. eapply same_outside_trans; [apply Pd, Hs1|].
      eapply same_outside_trans; [apply Pu, Hs2|apply Ph', H3]. }
  intros _ w3 [Hd3 Hs3]. split.
  - eapply same_outside_trans; [apply Pd, Hs1|].
    eapply same_outside_trans; [apply Pu, Hs2|apply Ph, Hs3].
  - split; [|split; [|exact Hd3]].
    + rewrite Hs3 by apart. rewrite Hs2 by apart. exact Hd1.
    + rewrite Hs3 by apart. exact Hd2.
Qed.

(** X14.  The block of [main] that writes the /etc/tng-base-* files, run
    on the record [read_eeprom] leaves, whatever the system calls answer:
    it reads no string field past its end and touches no path other than
    the three files and their temporary files.  When the record is not
    valid it changes nothing; when the record is valid and the block
    returns, the three files hold the production date line, the UID and
    the hostname, each followed by a line feed, with mode 0444 and owner
    root. *)
Theorem update_identity_files_outcome bus u0 g0 w :
  let g := (read_eeprom bus u0 g0).1 in
  ensures (update_identity_files g w)
    (fun _ w' =>
       same_outside identity_paths (w_fs w) (w_fs w')
       /\ if eeprom_valid g then identity_files (data_v1 (eeprom g)) (w_fs w')
          else w_fs w' = w_fs w)
    (fun w' => same_outside identity_paths (w_fs w) (w_fs w')).
Proof.
  cbv zeta.
  destruct (read_eeprom_cases bus u0 g0) as [[Hrej _]|(u1 & u2 & Hacc)].
  - unfold update_identity_files. rewrite Hrej. cbn [negb orb ensures error].
    split; [apply same_outside_refl|reflexivity].
  - destruct Hacc as [_ _ _ Hv _ H1 H2 _ Hg]. rewrite Hg. cbn [eeprom_valid].
    apply update_identity_files_fs; [reflexivity|exact Hv|].
    cbn [eeprom]. unfold overlay. cbn [data_v1 uid hostname].
    unfold overlay in H1, H2. cbn [data_v1 uid hostname] in H1, H2.
    intros field [->| ->]; (split; [apply bytes_at_nonempty|split; [assumption|]]);
      rewrite ?bytes_at_length; unfold sizeof_uid, sizeof_hostname; lia.
Qed.

(** ** What a return of [robust_mount] tells *)

Section RobustMountReturns.

Variable size_bits : Z.
Variable libmount : nat -> mount_context.
Variables source target type : string.
Variable flags : Z.

Lemma robust_mount_retry_returns fuel :
  forall attempt retries log trace,
    mr_result (robust_mount_retry size_bits libmount source target type flags
                 fuel attempt retries log trace) = MountReturns ->
    exists n,
      (n < fuel)%nat
      /\ (forall k, (attempt <= k < attempt + n)%nat ->
                    context_ready (libmount k)
                    /\ rc_mount (libmount k) = - MNT_ERR_NOSOURCE)
      /\ context_ready (libmount (attempt + n))
      /\ rc_mount (libmount (attempt + n)) = 0
      /\ mr_trace (robust_mount_retry size_bits libmount source target type flags
                     fuel attempt retries log trace)
         = trace ++ concat (repeat retry_cycle n)
           ++ [MntNewContext; MntMount 0; MntFreeContext].
Proof.
  induction fuel as [|fuel IH]; intros attempt retries log trace; [discriminate|].
  cbn [robust_mount_retry].
  destruct (ctx_is_null (libmount attempt)) eqn:H0; [discriminate|].
  destruct (Z.ltb_spec (rc_disable_helpers (libmount attempt)) 0); [discriminate|].
  destruct (Z.ltb_spec (rc_set_fstype (libmount attempt)) 0); [discriminate|].
  destruct (Z.ltb_spec (rc_set_source (libmount attempt)) 0); [discriminate|].
  destruct (Z.ltb_spec (rc_set_target (libmount attempt)) 0); [discriminate|].
  destruct (Z.ltb_spec (rc_set_mflags (libmount attempt)) 0); [discriminate|].
  assert (Hready : context_ready (libmount attempt)) by (repeat split; assumption).
  destruct (Z.eqb_spec (rc_mount (libmount attempt)) 0) as [Hrc|Hrc]; cbn [negb].
  - intros _. exists 0%nat. rewrite Nat.add_0_r, Hrc. cbn [repeat concat mr_trace].
    rewrite <- !app_assoc. repeat split; try assumption; try lia.
    all: intros k Hk; lia.
  - destruct (Z.eqb_spec (rc_mount (libmount attempt)) (- MNT_ERR_NOSOURCE))
      as [Hmissing|_]; [|discriminate].
    intros Hr. destruct (IH _ _ _ _ Hr) as (n & Hn & Hbefore & Hlast & Hzero & Htrace).
    exists (S n). rewrite Nat.add_succ_r. split; [lia|].
    split; [|split; [exact Hlast|split; [exact Hzero|]]].
    + intros k Hk. destruct (Nat.eq_dec k attempt) as [->|Hne]; [auto|].
      apply Hbefore. lia.
    + rewrite Htrace, Hmissing. cbn [repeat concat]. unfold retry_cycle at 3.
      rewrite <- !app_assoc. reflexivity.
Qed.

End RobustMountReturns.

(** X15.  [robust_mount] returns only after a mount that succeeded: when
    it returns, some number [n] of attempts found the source missing, each
    of them freed its context and slept 500 ms before the next context was
    created, attempt [n + 1] mounted with return code 0, and the last
    context was freed as well. *)
Theorem robust_mount_returns_after_mount
    (size_bits : Z) (libmount : nat -> mount_context)
    (source target type : string) (flags : Z) (fuel : nat) :
  let run := robust_mount size_bits libmount source target type flags fuel in
  mr_result run = MountReturns ->
  exists n,
    (n < fuel)%nat
    /\ (forall k, (k < n)%nat -> rc_mount (libmount k) = - MNT_ERR_NOSOURCE)
    /\ rc_mount (libmount n) = 0
    /\ mr_trace run
       = concat (repeat retry_cycle n) ++ [MntNewContext; MntMount 0; MntFreeContext].
Proof.
  cbv zeta. unfold robust_mount. intros Hr.
  destruct (robust_mount_retry_returns size_bits libmount source target type flags
              fuel 0 0 _ [] Hr) as (n & Hn & Hbefore & _ & Hzero & Htrace).
  exists n. split; [exact Hn|]. split; [|split; [exact Hzero|exact Htrace]].
  intros k Hk. apply Hbefore. lia.
Qed.

Lemma late_device_mounts_at_some_attempt :
  exists n, (n < 8)%nat /\ rc_mount (late_device n) = 0.
Proof.
  destruct (robust_mount_returns_after_mount 32 late_device "/dev/mmcblk0p2" "/mnt"
              "ext4" 1024 8) as (n & Hn & _ & Hzero & _).
  - vm_compute. reflexivity.
  - exists n. split; assumption.
Defined.

(** ** The Ethernet controller *)

Lemma eeprom_writes_app t1 t2 :
  eeprom_writes (t1 ++ t2) = eeprom_writes t1 ++ eeprom_writes t2.
Proof. apply flat_map_app. Qed.

Lemma eeprom_writes_geeprom name len : eeprom_writes [EthIoctl name (geeprom len)] = [].
Proof. reflexivity. Qed.

Lemma eeprom_writes_seeprom name config :
  eeprom_writes [EthIoctl name (seeprom config)] = [seeprom config].
Proof. reflexivity. Qed.

Ltac writes :=
  cbn [er_trace er_returns];
  rewrite ?eeprom_writes_app, ?eeprom_writes_geeprom, ?eeprom_writes_seeprom;
  repeat match goal with
         | H : eeprom_writes ?t = [] |- context [eeprom_writes ?t] => rewrite H
         end;
  change (eeprom_writes [EthClose]) with (@nil ethtool_eeprom);
  change (eeprom_writes [EthUsleep (100 * 1000)]) with (@nil ethtool_eeprom);
  cbn [app].

(** What the part that talks to the controller does. *)
Lemma configure_ethernet_eeprom_cases dev g name log trace :
  eeprom_writes trace = [] ->
  let run := configure_ethernet_eeprom dev g name log trace in
  let config := ethernet_config (data_v1 (eeprom g)) in
  (er_returns run = false
   /\ (eeprom_writes (er_trace run) = []
       \/ (eeprom_writes (er_trace run) = [seeprom config]
           /\ exists answer, ethtool dev 0 = Some answer
                             /\ nth 0 (ethtool_data answer) 0 <> 0xA5)))
  \/ (er_returns run = true /\ eeprom_writes (er_trace run) = []
      /\ exists answer, ethtool dev 0 = Some answer
                        /\ nth 0 (ethtool_data answer) 0 = 0xA5)
  \/ (er_returns run = true /\ eeprom_writes (er_trace run) = [seeprom config]
      /\ (exists answer, ethtool dev 0 = Some answer
                         /\ nth 0 (ethtool_data answer) 0 <> 0xA5)
      /\ exists answer, ethtool dev 2 = Some answer /\ ethtool_data answer = config).
Proof.
  intros Hquiet. cbv zeta. unfold configure_ethernet_eeprom.
  destruct (ethtool dev 0) as [probe|]; [|left; writes; auto].
  destruct (Z.eqb_spec (nth 0 (ethtool_data probe) 0) 0xA5) as [Hset|Hblank].
  { right. left. writes. eauto. }
  destruct (ethtool dev 1) as [written|]; [|left; writes; eauto 6].
  destruct (ethtool dev 2) as [readback|]; [|left; writes; eauto 6].
  destruct (bool_decide_reflect
              (ethtool_data readback = ethernet_config (data_v1 (eeprom g))))
    as [Hsame|Hdiffer]; cbn [negb]; [|left; writes; eauto 6].
  right. right. writes. eauto 8.
Qed.

(** X16.  [configure_ethernet] stores to the EEPROM of the controller at
    most once, and then the whole Ethernet configuration of the record, at
    offset 0 with the magic number 0x7500, and only when the record is
    valid and the first byte read from the controller was not 0xA5. *)
Theorem configure_ethernet_writes_record_once dev g :
  let run := configure_ethernet dev g in
  eeprom_writes (er_trace run) = []
  \/ (eeprom_writes (er_trace run) = [seeprom (ethernet_config (data_v1 (eeprom g)))]
      /\ eeprom_valid g = true
      /\ 1 <= data_version (header (eeprom g))
      /\ exists answer, ethtool dev 0 = Some answer
                        /\ nth 0 (ethtool_data answer) 0 <> 0xA5).
Proof.
  cbv zeta. unfold configure_ethernet.
  destruct (eeprom_valid g); cbn [negb orb]; [|left; reflexivity].
  destruct (Z.ltb_spec (data_version (header (eeprom g))) 1); [left; reflexivity|].
  destruct (opendir_result dev) as [[[d_type d_name]|]|]; try (left; reflexivity).
  destruct (negb (d_type =? DT_DIR)); [left; reflexivity|].
  destruct (IFNAMSIZ <=? strlen d_name)%nat; [left; reflexivity|].
  cbv zeta.
  assert (Hcases : forall log trace, eeprom_writes trace = [] ->
            let run := configure_ethernet_eeprom dev g (cstr d_name) log trace in
            eeprom_writes (er_trace run) = []
            \/ (eeprom_writes (er_trace run)
                = [seeprom (ethernet_config (data_v1 (eeprom g)))]
                /\ true = true /\ 1 <= data_version (header (eeprom g))
                /\ exists answer, ethtool dev 0 = Some answer
                                  /\ nth 0 (ethtool_data answer) 0 <> 0xA5)).
  { intros log trace Hquiet. cbv zeta.
    destruct (configure_ethernet_eeprom_cases dev g (cstr d_name) log trace Hquiet)
      as [[_ [Hw|[Hw Hp]]]|[[_ [Hw _]]|[_ [Hw [Hp _]]]]]; auto. }
  destruct (inet_socket dev); [apply Hcases; reflexivity|].
  destruct (netlink_socket dev); [apply Hcases; reflexivity|].
  left. reflexivity.
Qed.

(** X17.  With a valid record, [configure_ethernet] returns only when the
    controller holds a configuration: either the first byte it read was
    0xA5 and nothing was written, or the 256 bytes read back after the
    write are those of the record. *)
Theorem configure_ethernet_returns_configured dev g :
  eeprom_valid g = true ->
  1 <= data_version (header (eeprom g)) ->
  let run := configure_ethernet dev g in
  er_returns run = true ->
  (eeprom_writes (er_trace run) = []
   /\ exists answer, ethtool dev 0 = Some answer
                     /\ nth 0 (ethtool_data answer) 0 = 0xA5)
  \/ (eeprom_writes (er_trace run) = [seeprom (ethernet_config (data_v1 (eeprom g)))]
      /\ exists answer, ethtool dev 2 = Some answer
                        /\ ethtool_data answer = ethernet_config (data_v1 (eeprom g))).
Proof.
  intros Hvalid Hversion. cbv zeta. unfold configure_ethernet. rewrite Hvalid.
  destruct (Z.ltb_spec (data_version (header (eeprom g))) 1); [lia|]. cbn [negb orb].
  destruct (opendir_result dev) as [[[d_type d_name]|]|]; try discriminate.
  destruct (negb (d_type =? DT_DIR)); [discriminate|].
  destruct (IFNAMSIZ <=? strlen d_name)%nat; [discriminate|].
  cbv zeta.
  assert (Hcases : forall log trace, eeprom_writes trace = [] ->
            let run := configure_ethernet_eeprom dev g (cstr d_name) log trace in
            er_returns run = true ->
            (eeprom_writes (er_trace run) = []
             /\ exists answer, ethtool dev 0 = Some answer
                               /\ nth 0 (ethtool_data answer) 0 = 0xA5)
            \/ (eeprom_writes (er_trace run)
                = [seeprom (ethernet_config (data_v1 (eeprom g)))]
                /\ exists answer,
                    ethtool dev 2 = Some answer
                    /\ ethtool_data answer = ethernet_config (data_v1 (eeprom g)))).
  { intros log trace Hquiet. cbv zeta.
    destruct (configure_ethernet_eeprom_cases dev g (cstr d_name) log trace Hquiet)
      as [[Hr _]|[(_ & Hw & Hp)|(_ & Hw & _ & Hb)]]; [congruence|auto..]. }
  destruct (inet_socket dev); [apply Hcases; reflexivity|].
  destruct (netlink_socket dev); [apply Hcases; reflexivity|].
  discriminate.
Qed.

Lemma blank_controller_is_configured :
  let config := ethernet_config (data_v1 (eeprom sample_globals)) in
  eeprom_writes (er_trace (configure_ethernet (blank_controller config) sample_globals))
  = [seeprom config].
Proof.
  cbv zeta.
  destruct (configure_ethernet_returns_configured
              (blank_controller (ethernet_config (data_v1 (eeprom sample_globals))))
              sample_globals) as [[_ (answer & Ha & Hset)]|[Hw _]].
  - apply sample_globals_valid.
  - apply sample_globals_valid.
  - vm_compute. reflexivity.
  - exfalso. injection Ha as <-. vm_compute in Hset. discriminate Hset.
  - exact Hw.
Defined.

(** ** The hardware clock *)

Lemma rtc_wait_ticked sys hc_start timeout_start hc_now n fuel :
  forall reads polls,
    rtc_wait sys fuel reads polls hc_start timeout_start = WaitTicked hc_now n ->
    exists k,
      n = S (reads + k)
      /\ rtc_rd_time sys (reads + k) = Some hc_now
      /\ tm_sec hc_now <> tm_sec hc_start
      /\ forall j, (j < k)%nat ->
           exists t, rtc_rd_time sys (reads + j) = Some t
                     /\ tm_sec t = tm_sec hc_start
                     /\ time_null sys (polls + j) - timeout_start <= 3.
Proof.
  induction fuel as [|fuel IH]; intros reads polls; cbn [rtc_wait]; [discriminate|].
  destruct (rtc_rd_time sys reads) as [t|] eqn:Hread; [|discriminate].
  destruct (Z.eqb_spec (tm_sec hc_start) (tm_sec t)) as [Hsame|Hticked]; cbn [negb].
  - destruct (Z.ltb_spec 3 (time_null sys polls - timeout_start)) as [|Hwait];
      [discriminate|].
    intros Hw. destruct (IH _ _ Hw) as (k & -> & Hnow & Hsec & Hbefore).
    exists (S k). rewrite !Nat.add_succ_r. split; [reflexivity|].
    split; [exact Hnow|]. split; [exact Hsec|].
    intros [|j] Hj.
    + rewrite !Nat.add_0_r. exists t. auto.
    + rewrite !Nat.add_succ_r. apply Hbefore. lia.
  - intros Hw. injection Hw as <- <-. exists 0%nat. rewrite Nat.add_0_r.
    split; [reflexivity|]. split; [exact Hread|]. split; [congruence|].
    intros j Hj. lia.
Qed.

(** X18.  [rtc_hctosys] sets the system clock only at a tick of the
    hardware clock: when it calls [settimeofday] with success, the time it
    sets is [timegm] of the first reading whose seconds differ from those
    of the first reading of all, every reading in between showed the same
    second while no more than 3 seconds passed, that time is not negative,
    and the offset is [timezone / 60] minutes, less 60 when the local time
    is daylight saving time. *)
Theorem rtc_hctosys_sets_at_tick sys fuel tv_sec minuteswest :
  rr_result (rtc_hctosys sys fuel) = RtcSets tv_sec minuteswest ->
  exists hc_start hc_now k,
    rtc_rd_time sys 0 = Some hc_start
    /\ rtc_rd_time sys (S k) = Some hc_now
    /\ tm_sec hc_now <> tm_sec hc_start
    /\ (forall j, (j < k)%nat ->
          exists t, rtc_rd_time sys (S j) = Some t
                    /\ tm_sec t = tm_sec hc_start
                    /\ time_null sys (S j) - time_null sys 0 <= 3)
    /\ tv_sec = timegm sys (undefined_dst hc_now)
    /\ 0 <= tv_sec
    /\ minuteswest = minutes_west sys tv_sec
    /\ rr_reads (rtc_hctosys sys fuel) = (k + 2)%nat.
Proof.
  unfold rtc_hctosys.
  destruct (rtc_opens sys); cbn [negb]; [|discriminate].
  destruct (rtc_rd_time sys 0) as [hc_start|] eqn:Hstart; [|discriminate].
  destruct (rtc_wait sys fuel 1 1 hc_start (time_null sys 0)) as [hc_now n|n|n|] eqn:Hw;
    try discriminate.
  destruct (rtc_wait_ticked _ _ _ _ _ _ _ _ Hw) as (k & -> & Hnow & Hsec & Hbefore).
  cbv zeta.
  destruct (Z.ltb_spec (timegm sys (undefined_dst hc_now)) 0) as [|Hpos];
    [discriminate|].
  destruct (settimeofday_fails sys); [discriminate|].
  cbn [rr_result rr_reads]. intros H. injection H as <- <-.
  exists hc_start, hc_now, k. repeat split; auto.
  cbn [Nat.add]. lia.
Qed.

Lemma ticking_rtc_sets_next_second :
  exists hc_now,
    rtc_rd_time (ticking_rtc 2) 3 = Some hc_now
    /\ timegm (ticking_rtc 2) (undefined_dst hc_now) = 1598531442.
Proof.
  destruct (rtc_hctosys_sets_at_tick (ticking_rtc 2) 8 1598531442 (-60))
    as (hc_start & hc_now & k & _ & Hnow & _ & _ & Htime & _ & _ & Hreads).
  - vm_compute. reflexivity.
  - change (rr_reads (rtc_hctosys (ticking_rtc 2) 8)) with 4%nat in Hreads.
    assert (k = 2%nat) as -> by lia.
    exists hc_now. split; [exact Hnow|]. symmetry. exact Htime.
Defined.

Lemma rtc_wait_bounded sys hc_start timeout_start n :
  forall fuel reads polls,
    (n < fuel)%nat ->
    3 < time_null sys (polls + n) - timeout_start ->
    match rtc_wait sys fuel reads polls hc_start timeout_start with
    | WaitTicked _ r | WaitFailed r | WaitStuck r => (r <= S (reads + n))%nat
    | WaitPolling => False
    end.
Proof.
  induction n as [|n IH]; intros fuel reads polls Hfuel Hlate;
    (destruct fuel as [|fuel]; [lia|]); cbn [rtc_wait];
    (destruct (rtc_rd_time sys reads) as [t|]; [|lia]);
    (destruct (negb (tm_sec hc_start =? tm_sec t)); [lia|]).
  - rewrite Nat.add_0_r in Hlate.
    destruct (Z.ltb_spec 3 (time_null sys polls - timeout_start)); lia.
  - destruct (Z.ltb_spec 3 (time_null sys polls - timeout_start)); [lia|].
    specialize (IH fuel (S reads) (S polls) ltac:(lia)).
    rewrite Nat.add_succ_r in Hlate. specialize (IH Hlate).
    destruct (rtc_wait sys fuel (S reads) (S polls) hc_start timeout_start); lia.
Qed.

(** X19.  The wait for the tick ends when the time is up: once a call of
    [time] in the loop reports more than 3 seconds since the start, the
    loop has ended, whatever the hardware clock shows; no further reading
    is requested. *)
Theorem rtc_hctosys_wait_is_bounded sys fuel n :
  (n < fuel)%nat ->
  3 < time_null sys (S n) - time_null sys 0 ->
  rr_result (rtc_hctosys sys fuel) <> RtcPolling
  /\ (rr_reads (rtc_hctosys sys fuel) <= n + 2)%nat.
Proof.
  intros Hfuel Hlate. unfold rtc_hctosys.
  destruct (rtc_opens sys); cbn [negb]; [|split; [discriminate|cbn; lia]].
  destruct (rtc_rd_time sys 0) as [hc_start|]; [|split; [discriminate|cbn; lia]].
  pose proof (rtc_wait_bounded sys hc_start (time_null sys 0) n fuel 1 1 Hfuel Hlate) as H.
  destruct (rtc_wait sys fuel 1 1 hc_start (time_null sys 0)) as [hc_now r|r|r|];
    [|split; [discriminate|cbn [rr_reads]; lia]..|contradiction].
  cbv zeta.
  destruct (timegm sys (undefined_dst hc_now) <? 0);
    [split; [discriminate|cbn [rr_reads]; lia]|].
  destruct (settimeofday_fails sys); split; try discriminate; cbn [rr_reads]; lia.
Qed.

Lemma stuck_rtc_is_given_up :
  rr_result (rtc_hctosys stuck_rtc 100) <> RtcPolling
  /\ (rr_reads (rtc_hctosys stuck_rtc 100) <= 5)%nat.
Proof.
  apply (rtc_hctosys_wait_is_bounded stuck_rtc 100 3); [lia|].
  vm_compute. reflexivity.
Defined.

(** ** [create_file] and [robust_write] under arbitrary faults *)

(** X20.  Whatever the system calls answer, [create_file] returns only
    with an empty regular file behind the path that has the permission bits
    and the owner asked for, also when the path named a file with other
    permissions or another owner before; when it panics, no other path has
    changed. *)
Theorem create_file_outcome path uid gid mode w :
  ensures (create_file path uid gid mode w)
    (fun fd w' =>
       fd = path
       /\ w_fs w' = <[path := File (Z.lor S_IFREG (Z.land mode permission_bits))
                                uid gid []]> (w_fs w))
    (fun w' => same_outside [path] (w_fs w) (w_fs w')).
Proof. apply create_file_fs. Qed.

(** X21.  Whatever [write] answers, [robust_write] returns only when the
    whole buffer was appended to the file: a failed and a short write both
    end in a panic, and then no other path has changed. *)
Theorem robust_write_outcome path fd buffer w :
  ensures (robust_write path fd buffer w)
    (fun _ w' =>
       exists st, w_fs w !! fd = Some st
                  /\ w_fs w' !! fd = Some (File (st_mode st) (st_uid st) (st_gid st)
                                             (contents st ++ buffer))
                  /\ same_outside [fd] (w_fs w) (w_fs w'))
    (fun w' => same_outside [fd] (w_fs w) (w_fs w')).
Proof.
  eapply ensures_weaken; [apply robust_write_fs|cbv beta|auto].
  intros _ w' (st & Hst & Hfs). exists st. rewrite Hfs.
  split; [exact Hst|]. split; [apply lookup_insert_eq|].
  apply same_outside_insert, list_elem_of_here.
Qed.

(** ** The descriptor of the I2C bus *)

(** X22.  [read_eeprom] announces the close of the bus exactly once on
    every path on which it opened it, whatever goes wrong later, and not at
    all when [open] failed; in the program every such line is followed by
    [close(fd)]. *)
Theorem read_eeprom_closes_once bus u0 g :
  length (List.filter is_closing (read_eeprom bus u0 g).2)
  = if open_fails bus then 0%nat else 1%nat.
Proof.
  unfold read_eeprom.
  destruct (open_fails bus); [reflexivity|].
  destruct (slave_fails bus); [reflexivity|].
  destruct (seek_fails bus); [reflexivity|].
  destruct (read_header bus sizeof_header 0 u0) as [a|u1]; [reflexivity|].
  destruct (negb _); [reflexivity|].
  destruct (read_data _ _ _ _ _) as [a|[u2 sum]]; [reflexivity|].
  repeat (destruct (negb _) || destruct (_ <? _) || destruct (_ && _));
    reflexivity.
Qed.

(** ** A record as it is laid out on the device *)

Lemma le_bytes_succ count x :
  le_bytes (S count) x = Z.land x 0xFF :: le_bytes count (Z.shiftr x 8).
Proof.
  unfold le_bytes. cbn [seq map]. rewrite Z.shiftr_0_r. f_equal.
  rewrite <- seq_shift, map_map. apply map_ext. intros i.
  rewrite Z.shiftr_shiftr by lia. do 2 f_equal. lia.
Qed.

Lemma lor_low_high x : 0 <= x -> Z.lor (Z.land x 0xFF) (Z.shiftl (Z.shiftr x 8) 8) = x.
Proof.
  intros Hx. apply Z.bits_inj'. intros k Hk.
  rewrite Z.lor_spec, Z.land_spec. change 0xFF with (Z.ones 8).
  destruct (Z.lt_ge_cases k 8) as [Hlow|Hhigh].
  - rewrite Z.ones_spec_low, Z.shiftl_spec_low by lia.
    rewrite andb_true_r, orb_false_r. reflexivity.
  - rewrite Z.ones_spec_high, Z.shiftl_spec, Z.shiftr_spec by lia.
    rewrite andb_false_r. cbn [orb]. f_equal. lia.
Qed.

(** Decoding what was encoded. *)
Lemma le_value_le_bytes count :
  forall x, 0 <= x < 2 ^ (8 * Z.of_nat count) -> le_value (le_bytes count x) = x.
Proof.
  induction count as [|count IH]; intros x Hx.
  - change (2 ^ (8 * Z.of_nat 0)) with 1 in Hx. cbn. lia.
  - rewrite le_bytes_succ. cbn [le_value]. rewrite IH; [apply lor_low_high; lia|].
    rewrite Z.shiftr_div_pow2 by lia. split; [apply Z.div_pos; lia|].
    apply Z.div_lt_upper_bound; [lia|].
    rewrite <- Z.pow_add_r by lia.
    replace (8 + 8 * Z.of_nat count) with (8 * Z.of_nat (S count)) by lia. lia.
Qed.

Lemma Forall_le_bytes count x : Forall is_byte (le_bytes count x).
Proof.
  unfold le_bytes. apply List.Forall_forall. intros b Hb.
  apply in_map_iff in Hb as (i & <- & _). unfold is_byte.
  change 0xFF with (Z.ones 8). rewrite Z.land_ones by lia. apply Z.mod_pos_bound. lia.
Qed.

Lemma device_byte_image (image : list Z) i :
  Forall is_byte image -> device_byte (bus_of_image image) i = nth i image 0.
Proof.
  intros Hbytes. unfold device_byte, i2c_read8, bus_of_image. cbn [rx].
  destruct (nth_error image i) as [b|] eqn:E.
  - rewrite (nth_error_nth _ _ _ E).
    assert (Hb : is_byte b).
    { apply (proj1 (List.Forall_forall _ _) Hbytes). eapply nth_error_In, E. }
    unfold is_byte in Hb. change 0xFF with (Z.ones 8). rewrite Z.land_ones by lia.
    apply Z.mod_small. lia.
  - apply nth_error_None in E. rewrite nth_overflow by exact E. reflexivity.
Qed.

Lemma map_nth_seq (image : list Z) count :
  forall offset,
    (offset + count <= length image)%nat ->
    map (fun i => nth i image 0) (seq offset count) = take count (drop offset image).
Proof.
  induction count as [|count IH]; intros offset Hlen; [reflexivity|].
  cbn [seq map].
  destruct (lookup_lt_is_Some_2 image offset ltac:(lia)) as [b Hb].
  rewrite (drop_S _ _ _ Hb). cbn [take]. rewrite IH by lia.
  f_equal. rewrite nth_lookup, Hb. reflexivity.
Qed.

Lemma bytes_at_image (image : list Z) offset count :
  Forall is_byte image -> (offset + count <= length image)%nat ->
  bytes_at (device_byte (bus_of_image image)) offset count
  = take count (drop offset image).
Proof.
  intros Hbytes Hlen. unfold bytes_at. rewrite <- map_nth_seq by exact Hlen.
  apply map_ext. intros i. apply device_byte_image, Hbytes.
Qed.

Lemma last_char_take (field : list Z) n :
  (n < length field)%nat -> last_char (take (S n) field) = nth n field 0.
Proof.
  unfold last_char. revert field. induction n as [|n IH]; intros [|b field] Hn;
    cbn [length] in Hn; try lia.
  - destruct field; reflexivity.
  - cbn [nth]. rewrite <- IH by lia. destruct field as [|b' field]; [cbn in Hn; lia|].
    reflexivity.
Qed.

Lemma nth_drop (l : list Z) k n : nth n (drop k l) 0 = nth (k + n) l 0.
Proof. rewrite !nth_lookup, lookup_drop. reflexivity. Qed.

Lemma eeprom_image_layout version payload :
  eeprom_image version payload
  = le_bytes 4 EEPROM_MAGIC_NUMBER
    ++ le_bytes 4 (crc32 (crc32 0 [])
                     (le_bytes 2 (Z.of_nat (length payload)) ++ version :: payload))
    ++ le_bytes 2 (Z.of_nat (length payload)) ++ version :: payload.
Proof. reflexivity. Qed.

Lemma le_bytes_length count x : length (le_bytes count x) = count.
Proof. unfold le_bytes. rewrite length_map, length_seq. reflexivity. Qed.

Section WrittenRecord.

Variable version : Z.
Variable payload : list Z.
Hypothesis Hbytes : Forall is_byte payload.
Hypothesis Hversion : 1 <= version < 256.
Hypothesis Hlength : (sizeof_data_v1 <= length payload)%nat.
Hypothesis Hshort : Z.of_nat (length payload) < 2 ^ 16.

Local Abbreviation image := (eeprom_image version payload).
Local Abbreviation stream :=
  (le_bytes 2 (Z.of_nat (length payload)) ++ version :: payload).

Lemma image_bytes : Forall is_byte image.
Proof.
  rewrite eeprom_image_layout. repeat (apply Forall_app; split);
    try apply Forall_le_bytes.
  apply List.Forall_cons; [unfold is_byte; lia|exact Hbytes].
Qed.

Lemma image_length : length image = (sizeof_header + length payload)%nat.
Proof.
  rewrite eeprom_image_layout, !length_app, !le_bytes_length. cbn [length].
  unfold sizeof_header. lia.
Qed.

Lemma image_parts :
  take 4 image = le_bytes 4 EEPROM_MAGIC_NUMBER
  /\ take 4 (drop 4 image) = le_bytes 4 (crc32 (crc32 0 []) stream)
  /\ take 2 (drop 8 image) = le_bytes 2 (Z.of_nat (length payload))
  /\ take 1 (drop 10 image) = [version]
  /\ drop 8 image = stream
  /\ drop sizeof_header image = payload.
Proof.
  rewrite eeprom_image_layout.
  generalize (crc32 (crc32 0 []) stream). intros sum.
  generalize (Z.of_nat (length payload)). intros len.
  unfold le_bytes. cbn [seq map app take drop]. repeat split.
Qed.

Lemma image_header :
  header (overlay (device_byte (bus_of_image image)))
  = {| magic_number := EEPROM_MAGIC_NUMBER;
       checksum := crc32 (crc32 0 []) stream;
       data_length := Z.of_nat (length payload);
       data_version := version |}.
Proof.
  destruct image_parts as (H1 & H2 & H3 & H4 & _).
  pose proof image_length as Hlen. unfold sizeof_header in Hlen.
  unfold overlay. cbn [header].
  rewrite !bytes_at_image by (try apply image_bytes; lia).
  change (drop 0 image) with image. rewrite H1, H2, H3, H4.
  assert (Hsum : is_u32 (crc32 (crc32 0 []) stream)).
  { apply is_u32_crc32. apply Forall_app. split; [apply Forall_le_bytes|].
    apply List.Forall_cons; [unfold is_byte; lia|exact Hbytes]. }
  rewrite (le_value_le_bytes 4 EEPROM_MAGIC_NUMBER)
    by (change (2 ^ (8 * Z.of_nat 4)) with (2 ^ 32); unfold EEPROM_MAGIC_NUMBER; lia).
  rewrite (le_value_le_bytes 4 (crc32 (crc32 0 []) stream)) by exact Hsum.
  rewrite (le_value_le_bytes 2 (Z.of_nat (length payload)))
    by (change (2 ^ (8 * Z.of_nat 2)) with (2 ^ 16); lia).
  cbn [le_value]. change (Z.shiftl 0 8) with 0. rewrite Z.lor_0_r. reflexivity.
Qed.

Lemma image_record u0 :
  overlay (device_image (bus_of_image image) u0 (length payload))
  = overlay (device_byte (bus_of_image image)).
Proof.
  apply overlay_ext. intros i Hi. unfold device_image.
  destruct (Nat.ltb_spec i (Nat.min (sizeof_header + length payload) sizeof_eeprom));
    [reflexivity|].
  unfold sizeof_eeprom in *. lia.
Qed.

Lemma image_fields :
  let d := data_v1 (overlay (device_byte (bus_of_image image))) in
  production_date d = le_value (take 4 payload)
  /\ uid d = take sizeof_uid (drop 4 payload)
  /\ hostname d = take sizeof_hostname (drop 11 payload)
  /\ encrypted_password d = take sizeof_encrypted_password (drop 76 payload)
  /\ ethernet_config d = take ETHERNET_CONFIG_LENGTH (drop 183 payload).
Proof.
  destruct image_parts as (_ & _ & _ & _ & _ & Hp).
  pose proof image_length as Hlen.
  cbv zeta. unfold overlay.
  cbn [data_v1 production_date uid hostname encrypted_password ethernet_config].
  unfold sizeof_data_v1, sizeof_header, sizeof_uid, sizeof_hostname,
    sizeof_encrypted_password, ETHERNET_CONFIG_LENGTH in *.
  rewrite !bytes_at_image by (try apply image_bytes; lia).
  change (drop 15 image) with (drop (11 + 4) image).
  change (drop 22 image) with (drop (11 + 11) image).
  change (drop 87 image) with (drop (11 + 76) image).
  change (drop 194 image) with (drop (11 + 183) image).
  rewrite <- !drop_drop.
  change (drop 11 image) with (drop (4 + 4 + 2 + 1) image). rewrite Hp.
  repeat split.
Qed.

Lemma image_well_formed u0 :
  nth 10 payload 0 = 0 -> nth 75 payload 0 = 0 -> nth 182 payload 0 = 0 ->
  well_formed (bus_of_image image) u0.
Proof.
  intros Huid Hhostname Hpassword.
  pose proof image_length as Hlen.
  destruct image_parts as (_ & _ & _ & _ & Hstream & _).
  destruct image_fields as (_ & Hf1 & Hf2 & Hf3 & _).
  assert (Hrx : transfers_succeed (bus_of_image image) (sizeof_header + length payload)).
  { intros k Hk. cbn [bus_of_image rx]. apply nth_error_Some. lia. }
  unfold sizeof_data_v1, sizeof_uid, sizeof_hostname, sizeof_encrypted_password,
    ETHERNET_CONFIG_LENGTH in *.
  constructor; try reflexivity; cbv zeta; rewrite ?device_image_header, ?image_header;
    cbn [magic_number checksum data_length data_version]; rewrite ?Nat2Z.id.
  - intros k Hk. apply Hrx. lia.
  - exact Hrx.
  - unfold device_stream. f_equal. rewrite <- Hstream.
    rewrite <- (take_ge (drop 8 image) (3 + length payload))
      by (rewrite length_drop; unfold sizeof_header in Hlen; lia).
    rewrite <- map_nth_seq by (unfold sizeof_header in Hlen; lia).
    apply map_ext. intros i. symmetry. apply device_byte_image, image_bytes.
  - lia.
  - intros _. unfold sizeof_data_v1, sizeof_uid, sizeof_hostname,
      sizeof_encrypted_password, ETHERNET_CONFIG_LENGTH. lia.
  - rewrite image_record, Hf1, Hf2, Hf3.
    unfold sizeof_uid, sizeof_hostname, sizeof_encrypted_password.
    rewrite !last_char_take by (rewrite length_drop; lia).
    rewrite !nth_drop. auto.
Qed.

End WrittenRecord.

(** X23.  [read_eeprom] accepts a record laid out as the declarations of
    [EEPROM_Header] and [EEPROM_DataV1] say, and hands out its fields: the
    magic number, the CRC-32 of all bytes that follow the checksum, the
    length and the version, each little-endian, then a payload of at least
    439 bytes whose three string fields end in a zero byte.  The fields of
    the record are then the production date, the 7, 65 and 107 bytes of
    the strings and the 256 bytes of the Ethernet configuration, in this
    order from the start of the payload. *)
Theorem read_eeprom_accepts_written_record version payload u0 g :
  Forall is_byte payload ->
  1 <= version < 256 ->
  (sizeof_data_v1 <= length payload)%nat ->
  Z.of_nat (length payload) < 2 ^ 16 ->
  nth 10 payload 0 = 0 -> nth 75 payload 0 = 0 -> nth 182 payload 0 = 0 ->
  let g' := (read_eeprom (bus_of_image (eeprom_image version payload)) u0 g).1 in
  let d := data_v1 (eeprom g') in
  eeprom_valid g' = true
  /\ data_version (header (eeprom g')) = version
  /\ data_length (header (eeprom g')) = Z.of_nat (length payload)
  /\ production_date d = le_value (take 4 payload)
  /\ uid d = take sizeof_uid (drop 4 payload)
  /\ hostname d = take sizeof_hostname (drop 11 payload)
  /\ encrypted_password d = take sizeof_encrypted_password (drop 76 payload)
  /\ ethernet_config d = take ETHERNET_CONFIG_LENGTH (drop 183 payload).
Proof.
  intros Hbytes Hversion Hlength Hshort H1 H2 H3. cbv zeta.
  rewrite (read_eeprom_complete _ u0 g)
    by (apply image_well_formed; assumption).
  cbn [eeprom eeprom_valid].
  rewrite (device_image_header _ u0 0), image_header by assumption.
  cbn [data_length]. rewrite Nat2Z.id.
  rewrite image_record, image_header by assumption.
  cbn [data_version data_length].
  split; [reflexivity|]. split; [reflexivity|]. split; [reflexivity|].
  apply image_fields; assumption.
Qed.

Lemma sample_payload_is_read_back :
  let g' := (read_eeprom (bus_of_image (eeprom_image 1 sample_payload)) stack_garbage
               initial_globals).1 in
  eeprom_valid g' = true
  /\ uid (data_v1 (eeprom g')) = take sizeof_uid (drop 4 sample_payload).
Proof.
  cbv zeta.
  destruct (read_eeprom_accepts_written_record 1 sample_payload stack_garbage
              initial_globals) as (Hv & _ & _ & _ & Hu & _).
  - assert (Hall : forallb (fun b => (0 <=? b) && (b <? 256)) sample_payload = true)
      by (vm_compute; reflexivity).
    apply List.Forall_forall. intros b Hb.
    apply (proj1 (forallb_forall _ _) Hall) in Hb.
    apply andb_true_iff in Hb as [Hb1 Hb2]. unfold is_byte. lia.
  - lia.
  - apply Nat.leb_le. vm_compute. reflexivity.
  - apply Z.ltb_lt. vm_compute. reflexivity.
  - vm_compute. reflexivity.
  - vm_compute. reflexivity.
  - vm_compute. reflexivity.
  - split; assumption.
Defined.

(** ** Kernel modules *)

Lemma probed_app t1 t2 : probed (t1 ++ t2) = probed t1 ++ probed t2.
Proof. apply flat_map_app. Qed.

Lemma released_app t1 t2 : released (t1 ++ t2) = released t1 ++ released t2.
Proof. apply flat_map_app. Qed.

(** The loop inserts the modules in the order of the list, releases each
    one it has inserted, and stops at the first it cannot insert. *)
Lemma modprobe_list_run name (modules : list Z) :
  forall index log trace,
    let run := modprobe_list name modules index log trace in
    (kr_returns run = true
     /\ Forall (fun rc => 0 <= rc) modules
     /\ probed (kr_trace run) = probed trace ++ seq index (length modules)
     /\ released (kr_trace run) = released trace ++ seq index (length modules))
    \/ (kr_returns run = false
        /\ exists before rc after,
            modules = before ++ rc :: after
            /\ Forall (fun rc => 0 <= rc) before /\ rc < 0
            /\ probed (kr_trace run) = probed trace ++ seq index (S (length before))
            /\ released (kr_trace run) = released trace ++ seq index (length before)).
Proof.
  induction modules as [|rc modules IH]; intros index log trace; cbv zeta;
    cbn [modprobe_list].
  - left. cbn [kr_returns kr_trace length seq]. rewrite probed_app, released_app.
    cbn. rewrite !app_nil_r. auto.
  - destruct (Z.ltb_spec rc 0) as [Hfail|Hok].
    + right. split; [reflexivity|]. exists [], rc, modules.
      cbn [kr_trace length seq app]. rewrite probed_app, released_app. cbn.
      rewrite app_nil_r. auto.
    + rewrite <- app_assoc. cbn [app].
      specialize (IH (S index) log (trace ++ [KmodProbe index; KmodUnref index])).
      cbv zeta in IH. rewrite !probed_app, !released_app in IH.
      change (probed [KmodProbe index; KmodUnref index]) with [index] in IH.
      change (released [KmodProbe index; KmodUnref index]) with [index] in IH.
      destruct IH as [(Hr & Hall & Hp & Hu)|(Hr & before & rc' & after & -> & Hall & Hrc
                                             & Hp & Hu)];
        rewrite <- app_assoc in Hp, Hu; cbn [app] in Hp, Hu.
      * left. cbn [length seq]. auto.
      * right. split; [exact Hr|]. exists (rc :: before), rc', after.
        cbn [length seq app] in *. auto.
Qed.

(** X24.  [modprobe] returns exactly when the kernel release is known, a
    kmod context was created, the lookup succeeded with a list that is not
    empty, and every module of the list was inserted; it has then inserted
    the modules in the order of the list and released each of them.  A
    module that cannot be inserted stops the loop: the modules behind it
    are not tried. *)
Theorem modprobe_inserts_in_order sys name :
  let run := modprobe sys name in
  let modules := lookup_list sys in
  (kr_returns run = true
   <-> 0 <= uname_rc sys /\ kmod_new_null sys = false /\ 0 <= lookup_rc sys
       /\ modules <> [] /\ Forall (fun rc => 0 <= rc) modules)
  /\ (kr_returns run = true ->
      probed (kr_trace run) = seq 0 (length modules)
      /\ released (kr_trace run) = seq 0 (length modules))
  /\ (forall before rc after,
        modules = before ++ rc :: after ->
        Forall (fun rc => 0 <= rc) before -> rc < 0 ->
        incl (probed (kr_trace run)) (seq 0 (S (length before)))).
Proof.
  cbv zeta. unfold modprobe.
  destruct (Z.ltb_spec (uname_rc sys) 0) as [Hu|Hu].
  { cbn [kr_returns kr_trace]. split; [split; [discriminate|lia]|].
    split; [discriminate|]. intros before rc after _ _ _ i []. }
  destruct (kmod_new_null sys) eqn:Hnew.
  { cbn [kr_returns kr_trace]. split; [split; [discriminate|intros (_ & H & _); discriminate]|].
    split; [discriminate|]. intros before rc after _ _ _ i []. }
  destruct (Z.ltb_spec (lookup_rc sys) 0) as [Hl|Hl].
  { cbn [kr_returns kr_trace]. split; [split; [discriminate|lia]|].
    split; [discriminate|]. intros before rc after _ _ _ i []. }
  destruct (lookup_list sys) as [|rc0 modules] eqn:Hlist.
  { cbn [kr_returns kr_trace].
    split; [split; [discriminate|intros (_ & _ & _ & H & _); congruence]|].
    split; [discriminate|]. intros before rc after _ _ _ i []. }
  match goal with
  | |- context [modprobe_list name _ 0 ?log ?trace] =>
      pose proof (modprobe_list_run name (rc0 :: modules) 0 log trace) as Hrun;
      assert (Hquiet : probed trace = [] /\ released trace = [])
        by (split; reflexivity)
  end.
  destruct Hquiet as [Hq1 Hq2]. cbv zeta in Hrun.
  rewrite Hq1, Hq2, !app_nil_l in Hrun.
  destruct Hrun as [(Hr & Hall & Hp & Hrel)
                   |(Hr & before & rc & after & Hsplit & Hall & Hrc & Hp & Hrel)].
  - split; [split; [intros _; repeat split; auto; discriminate|intros _; exact Hr]|].
    split; [auto|].
    intros before rc after Hsplit Hbefore Hrc. exfalso.
    rewrite Hsplit in Hall. apply Forall_app in Hall as [_ Hall].
    inversion Hall; subst. lia.
  - split; [split; [congruence|]|].
    { intros (_ & _ & _ & _ & Hall'). exfalso.
      rewrite Hsplit in Hall'. apply Forall_app in Hall' as [_ Hall'].
      inversion Hall'; subst. lia. }
    split; [congruence|].
    intros before' rc' after' Hsplit' Hbefore' Hrc'.
    assert (Hsame : length before' = length before).
    { rewrite Hsplit in Hsplit'. clear - Hsplit' Hall Hrc Hbefore' Hrc'.
      revert before' Hsplit' Hbefore'.
      induction before as [|b before IH]; intros [|b' before'] Hsplit' Hbefore';
        cbn [app] in Hsplit'; try reflexivity.
      - injection Hsplit' as -> _. inversion Hbefore'; subst. lia.
      - injection Hsplit' as -> _. inversion Hall; subst. lia.
      - injection Hsplit' as -> Hrest. inversion Hall; subst.
        inversion Hbefore'; subst. cbn [length]. f_equal. apply IH; assumption. }
    rewrite Hp, Hsame. apply incl_refl.
Qed.

Lemma broken_dependency_stops_the_loop :
  incl (probed (kr_trace (modprobe broken_dependency "i2c_dev"))) [0; 1]%nat.
Proof.
  destruct (modprobe_inserts_in_order broken_dependency "i2c_dev") as (_ & _ & H).
  apply (H [0] (-8) [0]); [reflexivity| |lia].
  apply List.Forall_cons; [lia|apply List.Forall_nil].
Defined.

(** ** [update_file] on a file that is up to date *)

Lemma sys_stat_cases path w :
  (exists e w', sys_stat path w = Returns (inl e) w' /\ w_fs w' = w_fs w
                /\ w_trace w' = w_trace w ++ [Event (SysStat path) (-1)])
  \/ (exists st w', sys_stat path w = Returns (inr st) w' /\ w_fs w' = w_fs w
                    /\ w_fs w !! path = Some st
                    /\ w_trace w' = w_trace w ++ [Event (SysStat path) 0]).
Proof.
  unfold sys_stat. faults w; destruct (w_fs w !! path) as [st|] eqn:E;
    first [right; exists st; eexists; repeat split; reflexivity
          |left; do 2 eexists; repeat split; reflexivity].
Qed.

Lemma sys_open_cases path w :
  (exists e w', sys_open path w = Returns (inl e) w' /\ w_fs w' = w_fs w
                /\ w_trace w' = w_trace w ++ [Event (SysOpen path) (-1)])
  \/ (exists w', sys_open path w = Returns (inr path) w' /\ w_fs w' = w_fs w
                 /\ w_trace w' = w_trace w ++ [Event (SysOpen path) 0]).
Proof.
  unfold sys_open. faults w; destruct (w_fs w !! path) as [st|] eqn:E;
    first [right; eexists; repeat split; reflexivity
          |left; do 2 eexists; repeat split; reflexivity].
Qed.

(** A read returns no more than was asked for; when it returns that much,
    it has delivered the first [count] bytes of the file. *)
Lemma sys_read_cases fd count w :
  exists len buffer w',
    sys_read fd count w = Returns (len, buffer) w' /\ w_fs w' = w_fs w
    /\ w_trace w' = w_trace w ++ [Event (SysRead fd count) len]
    /\ (Z.of_nat count <= len ->
        len = Z.of_nat count
        /\ exists st, w_fs w !! fd = Some st /\ buffer = take count (contents st)).
Proof.
  pose proof (sys_read_fs fd count w) as Hfs. revert Hfs.
  unfold sys_read. faults w; destruct (w_fs w !! fd) as [st|] eqn:E;
    cbn [ensures fst snd]; intros [_ Hfull]; do 3 eexists;
    (split; [reflexivity|]); (split; [reflexivity|]); (split; [reflexivity|]);
    intros Hlen; (split; [|apply Hfull, Hlen]);
    try rewrite length_take in *; lia.
Qed.

Lemma create_file_trace path uid gid mode w :
  exists rc evs,
    w_trace (final_world (create_file path uid gid mode w))
    = w_trace w ++ Event (SysCreate path mode) rc :: evs.
Proof.
  unfold create_file. rewrite (bind_returns _ _ _ _ _ (print_returns _ _ w)).
  assert (Hrest : forall fd, guarded
            (do rc <- sys_fchown fd uid gid;
             if rc <? 0
             then panic "could not change owner of %s to %u:%u: %s (%d)"
                    [AStr path; ANum uid; ANum gid]
             else do rc0 <- sys_fchmod fd mode;
                  if rc0 <? 0
                  then panic "could not change mode of %s to 0o%03o: %s (%d)"
                         [AStr path; ANum mode]
                  else ret fd)).
  { intros fd. eapply guarded_checked; [apply reports_fchown|intros rc; reflexivity|].
    eapply guarded_checked;
      [apply reports_fchmod|intros rc; reflexivity|apply guarded_ret]. }
  destruct (sys_create_cases path mode
              (log_line (print_line "creating %s" [AStr path]) w))
    as [(e & w1 & Hr & Ht)|(w1 & Hr & Ht)]; rewrite (bind_returns _ _ _ _ _ Hr).
  - exists (-1), []. exact Ht.
  - destruct (Hrest path w1) as (evs & Ht' & _). exists 0, evs.
    rewrite Ht', Ht, <- app_assoc. reflexivity.
Qed.

(** The code after the label [update] begins by creating the temporary
    file. *)
Lemma update_file_write_creates path content w :
  exists rc evs,
    w_trace (final_world (update_file_write path content w))
    = w_trace w ++ Event (SysCreate (tmp_path_of path) mode_0444) rc :: evs.
Proof.
  destruct (create_file_trace (tmp_path_of path) 0 0 mode_0444 w) as (rc & evs & Ht).
  assert (Hrest : forall fd, guarded
            (robust_write (tmp_path_of path) fd content;;
             sys_fsync fd;;
             sys_close fd;;
             print "renaming %s to %s" [AStr (tmp_path_of path); AStr path];;
             do rc <- sys_rename (tmp_path_of path) path;
             if rc <? 0
             then panic "could not rename %s to %s: %s (%d)"
                    [AStr (tmp_path_of path); AStr path]
             else ret tt)).
  { intros fd.
    apply guarded_bind; [apply guarded_robust_write|]. intros _.
    apply guarded_bind; [apply harmless_guarded, harmless_fsync|]. intros _.
    apply guarded_bind; [apply harmless_guarded, harmless_close|]. intros _.
    apply guarded_bind; [apply harmless_guarded, harmless_print|]. intros _.
    eapply guarded_checked;
      [apply reports_rename|intros rc'; reflexivity|apply guarded_ret]. }
  unfold update_file_write. cbv zeta. unfold bind at 1.
  destruct (create_file (tmp_path_of path) 0 0 mode_0444 w) as [fd w1|w1|w1];
    cbn [final_world] in Ht; [|exists rc, evs; exact Ht..].
  destruct (Hrest fd w1) as (evs' & Ht' & _). exists rc, (evs ++ evs').
  rewrite Ht', Ht, <- app_assoc. reflexivity.
Qed.

(** What [update_file] does with a file that holds the content already,
    whatever the system calls answer. *)
Lemma update_file_on_target path content w :
  w_fs w !! path = Some (target_file content) ->
  (exists w',
     update_file path content w = Returns tt w'
     /\ w_fs w' = w_fs w
     /\ w_trace w' = w_trace w ++ skip_trace path (length content))
  \/ (exists w0 evs,
        update_file path content w = update_file_write path content w0
        /\ w_fs w0 = w_fs w
        /\ w_trace w0 = w_trace w ++ evs
        /\ Exists failed_check evs
        /\ existsb modifies evs = false).
Proof.
  intros Hfile. unfold update_file. cbv zeta.
  destruct (sys_stat_cases path w)
    as [(e & w1 & Hr1 & Hfs1 & Ht1)|(st & w1 & Hr1 & Hfs1 & Hst & Ht1)];
    rewrite (bind_returns _ _ _ _ _ Hr1); cbv beta iota.
  { right. destruct (negb (e =? ENOENT)).
    - exists (log_line (error_line "could not get status of %s: %s (%d)"
                          [AStr path; ANum e]) w1), [Event (SysStat path) (-1)].
      repeat split; auto. apply Exists_cons_hd. cbn. lia.
    - exists w1, [Event (SysStat path) (-1)].
      repeat split; auto. apply Exists_cons_hd. cbn. lia. }
  rewrite Hfile in Hst. injection Hst as <-.
  assert (Hattr : negb (st_mode (target_file content) =? Z.lor S_IFREG mode_0444)
                  || negb (st_uid (target_file content) =? 0)
                  || negb (st_gid (target_file content) =? 0)
                  || negb (st_size (target_file content) =? length content)%nat
                  = false).
  { unfold target_file, st_size. cbn [st_mode st_uid st_gid contents].
    rewrite Z.eqb_refl, Nat.eqb_refl. reflexivity. }
  rewrite Hattr.
  destruct (sys_open_cases path w1) as [(e & w2 & Hr2 & Hfs2 & Ht2)|(w2 & Hr2 & Hfs2 & Ht2)];
    rewrite (bind_returns _ _ _ _ _ Hr2); cbv beta iota.
  { right.
    exists (log_line (error_line "could not open %s for reading: %s (%d)"
                        [AStr path; ANum e]) w2),
      [Event (SysStat path) 0; Event (SysOpen path) (-1)].
    split; [reflexivity|]. split; [cbn [w_fs log_line]; congruence|].
    split; [cbn [w_trace log_line]; rewrite Ht2, Ht1, <- app_assoc; reflexivity|].
    split; [|reflexivity]. apply Exists_cons_tl, Exists_cons_hd. cbn. lia. }
  change (st_size (target_file content)) with (length content).
  destruct (sys_read_cases path (length content) w2)
    as (len & buffer & w3 & Hr3 & Hfs3 & Ht3 & Hfull).
  rewrite (bind_returns _ _ _ _ _ Hr3). cbv beta iota.
  rewrite (bind_returns _ _ _ _ _ (sys_close_returns path w3)).
  assert (Hfs : w_fs (record_call (SysClose path) 0 w3) = w_fs w)
    by (cbn [w_fs record_call]; congruence).
  assert (Ht : w_trace (record_call (SysClose path) 0 w3)
               = w_trace w ++ [Event (SysStat path) 0; Event (SysOpen path) 0;
                               Event (SysRead path (length content)) len;
                               Event (SysClose path) 0]).
  { cbn [w_trace record_call]. rewrite Ht3, Ht2, Ht1, <- !app_assoc. reflexivity. }
  assert (Hshort : len < Z.of_nat (length content) ->
            Exists failed_check
              [Event (SysStat path) 0; Event (SysOpen path) 0;
               Event (SysRead path (length content)) len; Event (SysClose path) 0]).
  { intros Hlen. do 2 apply Exists_cons_tl. apply Exists_cons_hd. exact Hlen. }
  destruct (Z.ltb_spec len 0) as [Hneg|Hneg].
  { right. eexists _, _. split; [reflexivity|].
    split; [exact Hfs|]. split; [exact Ht|]. split; [apply Hshort; lia|reflexivity]. }
  destruct (Z.ltb_spec len (Z.of_nat (length content))) as [Hlen|Hlen].
  { right. eexists _, _. split; [reflexivity|].
    split; [exact Hfs|]. split; [exact Ht|]. split; [apply Hshort; lia|reflexivity]. }
  destruct (Hfull Hlen) as (-> & st & Hst & ->).
  rewrite Hfs2, Hfs1, Hfile in Hst. injection Hst as <-.
  cbn [contents target_file]. rewrite take_ge by lia.
  rewrite bool_decide_eq_true_2 by reflexivity.
  left. eexists. split; [reflexivity|]. split; [exact Hfs|]. exact Ht.
Qed.

(** C6, as the code has it.  When [path] names a regular file of mode 0444
    owned by root:root whose bytes are [content], [update_file] takes one
    of two ways, whatever the system calls answer.  Either [stat] and
    [open] succeed and [read] delivers the whole file: then only stat,
    open, read and close are called (no temporary file, no write, no
    rename), the file system stays as it is and the call returns.  Or one
    of the three fails, or the read is short: then the program goes on at
    the label [update] and begins to write the file again by creating the
    temporary file.  A call that returns leaves such a file, so a second
    call with the same content is in this situation.  When every call
    succeeds the first way is taken, so that of two calls with one content
    the second is a no-op; the two calls write once when the file did not
    hold the content before the first call, and not at all when it did. *)
Theorem update_file_skips_unless_check_fails path content w :
  (w_fs w !! path = Some (target_file content) ->
   (exists w',
      update_file path content w = Returns tt w'
      /\ w_fs w' = w_fs w
      /\ w_trace w' = w_trace w ++ skip_trace path (length content))
   \/ (exists w0 evs rc evs',
         update_file path content w = update_file_write path content w0
         /\ w_fs w0 = w_fs w
         /\ w_trace w0 = w_trace w ++ evs
         /\ Exists failed_check evs
         /\ existsb modifies evs = false
         /\ w_trace (final_world (update_file path content w))
            = w_trace w0
              ++ Event (SysCreate (tmp_path_of path) mode_0444) rc :: evs'))
  /\ (existsb modifies (skip_trace path (length content)) = false
      /\ Forall (fun e => ~ failed_check e) (skip_trace path (length content)))
  /\ (forall w1, update_file path content w = Returns tt w1 ->
                 w_fs w1 !! path = Some (target_file content))
  /\ (w_faults w = [] ->
      exists w1 w2 evs,
        update_file path content w = Returns tt w1
        /\ update_file path content w1 = Returns tt w2
        /\ w_fs w1 !! path = Some (target_file content)
        /\ w_fs w2 = w_fs w1
        /\ w_trace w1 = w_trace w ++ evs
        /\ w_trace w2 = w_trace w1 ++ skip_trace path (length content)
        /\ (w_fs w !! path = Some (target_file content) ->
            evs = skip_trace path (length content)
            /\ count_writes (evs ++ skip_trace path (length content)) = 0%nat)
        /\ (w_fs w !! path <> Some (target_file content) ->
            count_writes (evs ++ skip_trace path (length content)) = 1%nat)).
Proof.
  split; [|split; [|split]].
  - intros Hfile.
    destruct (update_file_on_target path content w Hfile)
      as [Hskip|(w0 & evs & Hw & Hfs & Ht & Hfail & Hquiet)]; [left; exact Hskip|].
    right. destruct (update_file_write_creates path content w0) as (rc & evs' & Hc).
    exists w0, evs, rc, evs'. rewrite Hw. auto 10.
  - split; [reflexivity|].
    unfold skip_trace. repeat (apply List.Forall_cons; [cbn; lia|]).
    apply List.Forall_nil.
  - intros w1 Hr. pose proof (update_file_fs path content w) as Hfs.
    rewrite Hr in Hfs. apply Hfs.
  - destruct w as [fs faults log trace]. cbn [w_faults w_fs w_trace]. intros ->.
    destruct (update_file_returns path content fs log trace)
      as (fs1 & log1 & evs & H1 & Hfs1 & Hcount).
    eexists _, _, evs. rewrite H1, update_file_up_to_date by exact Hfs1.
    cbn [w_fs w_trace]. repeat (split; [reflexivity|]).
    split; [exact Hfs1|]. repeat (split; [reflexivity|]).
    split; [|exact Hcount].
    intros Hfile. rewrite (update_file_up_to_date _ _ _ _ _ Hfile) in H1.
    injection H1 as _ _ Hevs. apply app_inv_head in Hevs. subst evs.
    split; reflexivity.
Qed.

(** C6, as the specification has it, fails twice.  With the file up to
    date and a read that delivers three of its seven bytes, [update_file]
    creates the temporary file, writes it and renames it.  With the file up
    to date and every call succeeding, two calls do not write at all. *)
Lemma update_file_writes_over_target :
  w_fs short_read_world !! uid_path = Some (target_file uid_content)
  /\ (let o := update_file uid_path uid_content short_read_world in
      (exists w', o = Returns tt w')
      /\ count_writes (w_trace (final_world o)) = 1%nat
      /\ existsb modifies (w_trace (final_world o)) = true)
  /\ (w_fs up_to_date_world !! uid_path = Some (target_file uid_content)
      /\ exists w1 w2,
          update_file uid_path uid_content up_to_date_world = Returns tt w1
          /\ update_file uid_path uid_content w1 = Returns tt w2
          /\ count_writes (w_trace w2) = 0%nat).
Proof.
  split; [vm_compute; reflexivity|]. split.
  - cbv zeta. split; [eexists; vm_compute; reflexivity|].
    split; vm_compute; reflexivity.
  - split; [vm_compute; reflexivity|].
    exists (final_world (update_file uid_path uid_content up_to_date_world)).
    exists (final_world
              (update_file uid_path uid_content
                 (final_world (update_file uid_path uid_content up_to_date_world)))).
    split; [vm_compute; reflexivity|]. split; vm_compute; reflexivity.
Qed.

Lemma update_file_twice_writes_once :
  (exists w0, update_file uid_path uid_content short_read_world
              = update_file_write uid_path uid_content w0)
  /\ exists w1 w2,
       update_file uid_path uid_content empty_world = Returns tt w1
       /\ update_file uid_path uid_content w1 = Returns tt w2
       /\ w_fs w2 = w_fs w1
       /\ count_writes (w_trace w2) = 1%nat.
Proof.
  split.
  - destruct (proj1 (update_file_skips_unless_check_fails uid_path uid_content
                       short_read_world))
      as [(w' & Hr & _ & Ht)|(w0 & _ & _ & _ & Hw & _)].
    + vm_compute. reflexivity.
    + exfalso. vm_compute in Hr. injection Hr as <-.
      apply (f_equal (@length event)) in Ht. vm_compute in Ht. discriminate Ht.
    + exists w0. exact Hw.
  - destruct (proj2 (proj2 (proj2 (update_file_skips_unless_check_fails
                                     uid_path uid_content empty_world))) eq_refl)
      as (w1 & w2 & evs & H1 & H2 & _ & Hfs & Ht1 & Ht2 & _ & Hcount).
    exists w1, w2. split; [exact H1|]. split; [exact H2|]. split; [exact Hfs|].
    rewrite Ht2, Ht1. apply Hcount. vm_compute. discriminate.
Defined.
